(** * CAN bus analyzer: frame ingestion and state aggregation

    A shallow embedding of the core of [macsboost_grok_canalyzer2.py]
    (class [CANApp]): the per-identifier message store with its eviction,
    the statistics, the highlight fade machine, the transmit scheduler,
    the receiver loop and the send-input validation; further the queue
    pump [check_queue], the identifier filter, the formatting of the data
    entry, the text of the Decoded column and the byte analysis of a
    history.

    Conventions of the embedding:
    - the attributes of the [CANApp] object are the fields of [State];
      every method is a function that takes the state and returns the new
      one (with a [Result] where the method can raise);
    - Python [float] values (timestamps, rates, intervals) are exact
      rationals [Q], so rounding, infinities and NaN are outside the model;
      [int] values are [nat], [N] or [Z];
    - plain [dict]s are [gmap]s; [self.messages], whose iteration order the
      code relies on ([next(iter(self.messages))]), is an insertion-ordered
      association list;
    - the Tk timer queue ([after] / [after_cancel]) is the finite map
      [timers] from timer ids to callbacks; a timer fires through the event
      [EvTimer];
    - the widgets (Treeview rows, labels, dialogs) and the CSV log are not
      part of the state. *)

From Stdlib Require Import QArith Ascii String Strings.Byte HexadecimalN.
From Stdlib Require Import DecimalString DecimalPos DecimalN.
From stdpp Require Import gmap strings list fin_maps.

Local Open Scope string_scope.
Local Open Scope list_scope.

(** ** Rationals as booleans *)

Definition Qlt_bool (x y : Q) : bool := negb (Qle_bool y x).

(** ** Formatting

    [format_X n] is [f"{n:X}"], [hex2 b] is [f"{b:02X}"] and [data_str d]
    is [' '.join(f'{b:02X}' for b in d)]. *)

Fixpoint hex_uint_str (u : Hexadecimal.uint) : string :=
  match u with
  | Hexadecimal.Nil => ""
  | Hexadecimal.D0 u => String "0"%char (hex_uint_str u)
  | Hexadecimal.D1 u => String "1"%char (hex_uint_str u)
  | Hexadecimal.D2 u => String "2"%char (hex_uint_str u)
  | Hexadecimal.D3 u => String "3"%char (hex_uint_str u)
  | Hexadecimal.D4 u => String "4"%char (hex_uint_str u)
  | Hexadecimal.D5 u => String "5"%char (hex_uint_str u)
  | Hexadecimal.D6 u => String "6"%char (hex_uint_str u)
  | Hexadecimal.D7 u => String "7"%char (hex_uint_str u)
  | Hexadecimal.D8 u => String "8"%char (hex_uint_str u)
  | Hexadecimal.D9 u => String "9"%char (hex_uint_str u)
  | Hexadecimal.Da u => String "A"%char (hex_uint_str u)
  | Hexadecimal.Db u => String "B"%char (hex_uint_str u)
  | Hexadecimal.Dc u => String "C"%char (hex_uint_str u)
  | Hexadecimal.Dd u => String "D"%char (hex_uint_str u)
  | Hexadecimal.De u => String "E"%char (hex_uint_str u)
  | Hexadecimal.Df u => String "F"%char (hex_uint_str u)
  end.

Definition format_X (n : N) : string := hex_uint_str (N.to_hex_uint n).

Definition hex_digit (n : N) : ascii :=
  match n with
  | 0 => "0" | 1 => "1" | 2 => "2" | 3 => "3"
  | 4 => "4" | 5 => "5" | 6 => "6" | 7 => "7"
  | 8 => "8" | 9 => "9" | 10 => "A" | 11 => "B"
  | 12 => "C" | 13 => "D" | 14 => "E" | _ => "F"
  end%N%char.

Definition hex2 (b : byte) : string :=
  let n := Byte.to_N b in
  String (hex_digit (n / 16)) (String (hex_digit (n mod 16)) "").

Fixpoint data_str (d : list byte) : string :=
  match d with
  | [] => ""
  | [b] => hex2 b
  | b :: rest => (hex2 b ++ String " "%char (data_str rest))%string
  end.

(** The value of one hexadecimal digit, either case, from its character
    code: ['0'-'9'] are 48-57, ['A'-'F'] 65-70 and ['a'-'f'] 97-102. *)
Definition hex_val (c : ascii) : option N :=
  let code := N_of_ascii c in
  if (48 <=? code)%N && (code <=? 57)%N then Some (code - 48)%N
  else if (65 <=? code)%N && (code <=? 70)%N then Some (code - 55)%N
  else if (97 <=? code)%N && (code <=? 102)%N then Some (code - 87)%N
  else None.

Definition unhex2 (c1 c2 : ascii) : option byte :=
  match hex_val c1, hex_val c2 with
  | Some h, Some l => Byte.of_N (16 * h + l)
  | _, _ => None
  end.

(** ** Insertion-ordered dictionaries

    A Python [dict] whose iteration order matters: assignment to a present
    key keeps its position, assignment to a new key appends, [del] removes. *)

Module ODict.
Section ODict.
Context {V : Type}.
Implicit Types (d : list (string * V)) (k : string).

Fixpoint get k d : option V :=
  match d with
  | [] => None
  | (k', v) :: d' => if decide (k' = k) then Some v else get k d'
  end.

Fixpoint set k (v : V) d : list (string * V) :=
  match d with
  | [] => [(k, v)]
  | (k', v') :: d' =>
      if decide (k' = k) then (k, v) :: d' else (k', v') :: set k v d'
  end.

Definition del k d : list (string * V) :=
  filter (fun kv => kv.1 <> k) d.

Definition keys d : list string := d.*1.

(** [next(iter(d))]: the first key in insertion order. *)
Definition first_key d : option string := head (keys d).
End ODict.
End ODict.

(** ** Data model *)

Inductive Direction := RX | TX.

Definition is_RX (d : Direction) : bool :=
  match d with RX => true | TX => false end.

(** A [can.Message] as far as the application reads it. *)
Record Frame := {
  arbitration_id : N;
  data : list byte;
  timestamp : Q;
  is_extended_id : bool;
  is_fd : bool
}.

(** The row tag: [''] or [f'changed{n}']. *)
Inductive Tag := NoTag | Changed (n : nat).

(** A value of [self.messages] (the Treeview item id is a widget handle and
    is left out). *)
Record MessageRecord := {
  rec_timestamp : Q;
  rec_delta : Q;
  tags : Tag
}.

(** A value of [self.id_stats]. *)
Record IdStats := {
  count : nat;
  first_timestamp : Q;
  last_timestamp : Q
}.

(** A value of [self.highlighted_rows]. *)
Record Highlight := {
  level : nat;
  after_id : nat
}.

(** The display modes ['binary'], ['dec8'], ['dec16'], ['decoded']. *)
Inductive Mode := Binary | Dec8 | Dec16 | Decoded.

(** What a pending [after] timer will call: [fade_highlight(can_id)] or
    [schedule_periodic_send(can_id, data, interval)]. *)
Inductive Callback :=
  | CbFade (can_id : string)
  | CbPeriodic (can_id : Z) (payload : list byte) (interval : Q).

(** How a call of [self.bus.send] ends. *)
Inductive SendOutcome := SendOk | SendCanError | SendOtherError.

Inductive Exn :=
  | StopIteration | ZeroDivisionError | ValueError | OverflowError.

Inductive Result := Ok | Raise (e : Exn).

Record State := {
  messages : list (string * MessageRecord);
  id_stats : gmap string IdStats;
  last_data : gmap string string;
  message_history : gmap string (list (Q * list byte));
  highlighted_rows : gmap string Highlight;
  display_mode : gmap string Mode;
  last_message_timestamp : option Q;
  paused : bool;
  filter_ids : gset string;
  max_messages : nat;
  highlight_changes_var : bool;
  message_count : nat;
  message_rate : Q;
  bus_load : Q;
  last_stats_update : Q;
  bitrate : Z;
  can_fd_var : bool;
  extended_id_var : bool;
  send_periodic_var : bool;
  bus : bool;
  periodic_task_id : option nat;
  timers : gmap nat Callback;
  next_after : nat;
  tx_log : list (Frame * SendOutcome)
}.

(** Attribute assignment, one setter per attribute the methods assign. *)

Definition set_messages (v : list (string * MessageRecord)) (st : State) : State :=
  {| messages := v; id_stats := id_stats st; last_data := last_data st;
     message_history := message_history st; highlighted_rows :=
     highlighted_rows st; display_mode := display_mode st;
     last_message_timestamp := last_message_timestamp st; paused := paused
     st; filter_ids := filter_ids st; max_messages := max_messages st;
     highlight_changes_var := highlight_changes_var st; message_count :=
     message_count st; message_rate := message_rate st; bus_load := bus_load
     st; last_stats_update := last_stats_update st; bitrate := bitrate st;
     can_fd_var := can_fd_var st; extended_id_var := extended_id_var st;
     send_periodic_var := send_periodic_var st; bus := bus st;
     periodic_task_id := periodic_task_id st; timers := timers st; next_after
     := next_after st; tx_log := tx_log st |}.

Definition set_id_stats (v : gmap string IdStats) (st : State) : State :=
  {| messages := messages st; id_stats := v; last_data := last_data st;
     message_history := message_history st; highlighted_rows :=
     highlighted_rows st; display_mode := display_mode st;
     last_message_timestamp := last_message_timestamp st; paused := paused
     st; filter_ids := filter_ids st; max_messages := max_messages st;
     highlight_changes_var := highlight_changes_var st; message_count :=
     message_count st; message_rate := message_rate st; bus_load := bus_load
     st; last_stats_update := last_stats_update st; bitrate := bitrate st;
     can_fd_var := can_fd_var st; extended_id_var := extended_id_var st;
     send_periodic_var := send_periodic_var st; bus := bus st;
     periodic_task_id := periodic_task_id st; timers := timers st; next_after
     := next_after st; tx_log := tx_log st |}.

Definition set_last_data (v : gmap string string) (st : State) : State :=
  {| messages := messages st; id_stats := id_stats st; last_data := v;
     message_history := message_history st; highlighted_rows :=
     highlighted_rows st; display_mode := display_mode st;
     last_message_timestamp := last_message_timestamp st; paused := paused
     st; filter_ids := filter_ids st; max_messages := max_messages st;
     highlight_changes_var := highlight_changes_var st; message_count :=
     message_count st; message_rate := message_rate st; bus_load := bus_load
     st; last_stats_update := last_stats_update st; bitrate := bitrate st;
     can_fd_var := can_fd_var st; extended_id_var := extended_id_var st;
     send_periodic_var := send_periodic_var st; bus := bus st;
     periodic_task_id := periodic_task_id st; timers := timers st; next_after
     := next_after st; tx_log := tx_log st |}.

Definition set_message_history (v : gmap string (list (Q * list byte))) (st : State) : State :=
  {| messages := messages st; id_stats := id_stats st; last_data := last_data
     st; message_history := v; highlighted_rows := highlighted_rows st;
     display_mode := display_mode st; last_message_timestamp :=
     last_message_timestamp st; paused := paused st; filter_ids := filter_ids
     st; max_messages := max_messages st; highlight_changes_var :=
     highlight_changes_var st; message_count := message_count st;
     message_rate := message_rate st; bus_load := bus_load st;
     last_stats_update := last_stats_update st; bitrate := bitrate st;
     can_fd_var := can_fd_var st; extended_id_var := extended_id_var st;
     send_periodic_var := send_periodic_var st; bus := bus st;
     periodic_task_id := periodic_task_id st; timers := timers st; next_after
     := next_after st; tx_log := tx_log st |}.

Definition set_highlighted_rows (v : gmap string Highlight) (st : State) : State :=
  {| messages := messages st; id_stats := id_stats st; last_data := last_data
     st; message_history := message_history st; highlighted_rows := v;
     display_mode := display_mode st; last_message_timestamp :=
     last_message_timestamp st; paused := paused st; filter_ids := filter_ids
     st; max_messages := max_messages st; highlight_changes_var :=
     highlight_changes_var st; message_count := message_count st;
     message_rate := message_rate st; bus_load := bus_load st;
     last_stats_update := last_stats_update st; bitrate := bitrate st;
     can_fd_var := can_fd_var st; extended_id_var := extended_id_var st;
     send_periodic_var := send_periodic_var st; bus := bus st;
     periodic_task_id := periodic_task_id st; timers := timers st; next_after
     := next_after st; tx_log := tx_log st |}.

Definition set_display_mode (v : gmap string Mode) (st : State) : State :=
  {| messages := messages st; id_stats := id_stats st; last_data := last_data
     st; message_history := message_history st; highlighted_rows :=
     highlighted_rows st; display_mode := v; last_message_timestamp :=
     last_message_timestamp st; paused := paused st; filter_ids := filter_ids
     st; max_messages := max_messages st; highlight_changes_var :=
     highlight_changes_var st; message_count := message_count st;
     message_rate := message_rate st; bus_load := bus_load st;
     last_stats_update := last_stats_update st; bitrate := bitrate st;
     can_fd_var := can_fd_var st; extended_id_var := extended_id_var st;
     send_periodic_var := send_periodic_var st; bus := bus st;
     periodic_task_id := periodic_task_id st; timers := timers st; next_after
     := next_after st; tx_log := tx_log st |}.

Definition set_last_message_timestamp (v : option Q) (st : State) : State :=
  {| messages := messages st; id_stats := id_stats st; last_data := last_data
     st; message_history := message_history st; highlighted_rows :=
     highlighted_rows st; display_mode := display_mode st;
     last_message_timestamp := v; paused := paused st; filter_ids :=
     filter_ids st; max_messages := max_messages st; highlight_changes_var :=
     highlight_changes_var st; message_count := message_count st;
     message_rate := message_rate st; bus_load := bus_load st;
     last_stats_update := last_stats_update st; bitrate := bitrate st;
     can_fd_var := can_fd_var st; extended_id_var := extended_id_var st;
     send_periodic_var := send_periodic_var st; bus := bus st;
     periodic_task_id := periodic_task_id st; timers := timers st; next_after
     := next_after st; tx_log := tx_log st |}.

Definition set_paused (v : bool) (st : State) : State :=
  {| messages := messages st; id_stats := id_stats st; last_data := last_data
     st; message_history := message_history st; highlighted_rows :=
     highlighted_rows st; display_mode := display_mode st;
     last_message_timestamp := last_message_timestamp st; paused := v;
     filter_ids := filter_ids st; max_messages := max_messages st;
     highlight_changes_var := highlight_changes_var st; message_count :=
     message_count st; message_rate := message_rate st; bus_load := bus_load
     st; last_stats_update := last_stats_update st; bitrate := bitrate st;
     can_fd_var := can_fd_var st; extended_id_var := extended_id_var st;
     send_periodic_var := send_periodic_var st; bus := bus st;
     periodic_task_id := periodic_task_id st; timers := timers st; next_after
     := next_after st; tx_log := tx_log st |}.

Definition set_filter_ids (v : gset string) (st : State) : State :=
  {| messages := messages st; id_stats := id_stats st; last_data := last_data
     st; message_history := message_history st; highlighted_rows :=
     highlighted_rows st; display_mode := display_mode st;
     last_message_timestamp := last_message_timestamp st; paused := paused
     st; filter_ids := v; max_messages := max_messages st;
     highlight_changes_var := highlight_changes_var st; message_count :=
     message_count st; message_rate := message_rate st; bus_load := bus_load
     st; last_stats_update := last_stats_update st; bitrate := bitrate st;
     can_fd_var := can_fd_var st; extended_id_var := extended_id_var st;
     send_periodic_var := send_periodic_var st; bus := bus st;
     periodic_task_id := periodic_task_id st; timers := timers st; next_after
     := next_after st; tx_log := tx_log st |}.

Definition set_highlight_changes_var (v : bool) (st : State) : State :=
  {| messages := messages st; id_stats := id_stats st; last_data := last_data
     st; message_history := message_history st; highlighted_rows :=
     highlighted_rows st; display_mode := display_mode st;
     last_message_timestamp := last_message_timestamp st; paused := paused
     st; filter_ids := filter_ids st; max_messages := max_messages st;
     highlight_changes_var := v; message_count := message_count st;
     message_rate := message_rate st; bus_load := bus_load st;
     last_stats_update := last_stats_update st; bitrate := bitrate st;
     can_fd_var := can_fd_var st; extended_id_var := extended_id_var st;
     send_periodic_var := send_periodic_var st; bus := bus st;
     periodic_task_id := periodic_task_id st; timers := timers st; next_after
     := next_after st; tx_log := tx_log st |}.

Definition set_message_count (v : nat) (st : State) : State :=
  {| messages := messages st; id_stats := id_stats st; last_data := last_data
     st; message_history := message_history st; highlighted_rows :=
     highlighted_rows st; display_mode := display_mode st;
     last_message_timestamp := last_message_timestamp st; paused := paused
     st; filter_ids := filter_ids st; max_messages := max_messages st;
     highlight_changes_var := highlight_changes_var st; message_count := v;
     message_rate := message_rate st; bus_load := bus_load st;
     last_stats_update := last_stats_update st; bitrate := bitrate st;
     can_fd_var := can_fd_var st; extended_id_var := extended_id_var st;
     send_periodic_var := send_periodic_var st; bus := bus st;
     periodic_task_id := periodic_task_id st; timers := timers st; next_after
     := next_after st; tx_log := tx_log st |}.

Definition set_message_rate (v : Q) (st : State) : State :=
  {| messages := messages st; id_stats := id_stats st; last_data := last_data
     st; message_history := message_history st; highlighted_rows :=
     highlighted_rows st; display_mode := display_mode st;
     last_message_timestamp := last_message_timestamp st; paused := paused
     st; filter_ids := filter_ids st; max_messages := max_messages st;
     highlight_changes_var := highlight_changes_var st; message_count :=
     message_count st; message_rate := v; bus_load := bus_load st;
     last_stats_update := last_stats_update st; bitrate := bitrate st;
     can_fd_var := can_fd_var st; extended_id_var := extended_id_var st;
     send_periodic_var := send_periodic_var st; bus := bus st;
     periodic_task_id := periodic_task_id st; timers := timers st; next_after
     := next_after st; tx_log := tx_log st |}.

Definition set_bus_load (v : Q) (st : State) : State :=
  {| messages := messages st; id_stats := id_stats st; last_data := last_data
     st; message_history := message_history st; highlighted_rows :=
     highlighted_rows st; display_mode := display_mode st;
     last_message_timestamp := last_message_timestamp st; paused := paused
     st; filter_ids := filter_ids st; max_messages := max_messages st;
     highlight_changes_var := highlight_changes_var st; message_count :=
     message_count st; message_rate := message_rate st; bus_load := v;
     last_stats_update := last_stats_update st; bitrate := bitrate st;
     can_fd_var := can_fd_var st; extended_id_var := extended_id_var st;
     send_periodic_var := send_periodic_var st; bus := bus st;
     periodic_task_id := periodic_task_id st; timers := timers st; next_after
     := next_after st; tx_log := tx_log st |}.

Definition set_last_stats_update (v : Q) (st : State) : State :=
  {| messages := messages st; id_stats := id_stats st; last_data := last_data
     st; message_history := message_history st; highlighted_rows :=
     highlighted_rows st; display_mode := display_mode st;
     last_message_timestamp := last_message_timestamp st; paused := paused
     st; filter_ids := filter_ids st; max_messages := max_messages st;
     highlight_changes_var := highlight_changes_var st; message_count :=
     message_count st; message_rate := message_rate st; bus_load := bus_load
     st; last_stats_update := v; bitrate := bitrate st; can_fd_var :=
     can_fd_var st; extended_id_var := extended_id_var st; send_periodic_var
     := send_periodic_var st; bus := bus st; periodic_task_id :=
     periodic_task_id st; timers := timers st; next_after := next_after st;
     tx_log := tx_log st |}.

Definition set_can_fd_var (v : bool) (st : State) : State :=
  {| messages := messages st; id_stats := id_stats st; last_data := last_data
     st; message_history := message_history st; highlighted_rows :=
     highlighted_rows st; display_mode := display_mode st;
     last_message_timestamp := last_message_timestamp st; paused := paused
     st; filter_ids := filter_ids st; max_messages := max_messages st;
     highlight_changes_var := highlight_changes_var st; message_count :=
     message_count st; message_rate := message_rate st; bus_load := bus_load
     st; last_stats_update := last_stats_update st; bitrate := bitrate st;
     can_fd_var := v; extended_id_var := extended_id_var st;
     send_periodic_var := send_periodic_var st; bus := bus st;
     periodic_task_id := periodic_task_id st; timers := timers st; next_after
     := next_after st; tx_log := tx_log st |}.

Definition set_extended_id_var (v : bool) (st : State) : State :=
  {| messages := messages st; id_stats := id_stats st; last_data := last_data
     st; message_history := message_history st; highlighted_rows :=
     highlighted_rows st; display_mode := display_mode st;
     last_message_timestamp := last_message_timestamp st; paused := paused
     st; filter_ids := filter_ids st; max_messages := max_messages st;
     highlight_changes_var := highlight_changes_var st; message_count :=
     message_count st; message_rate := message_rate st; bus_load := bus_load
     st; last_stats_update := last_stats_update st; bitrate := bitrate st;
     can_fd_var := can_fd_var st; extended_id_var := v; send_periodic_var :=
     send_periodic_var st; bus := bus st; periodic_task_id :=
     periodic_task_id st; timers := timers st; next_after := next_after st;
     tx_log := tx_log st |}.

Definition set_send_periodic_var (v : bool) (st : State) : State :=
  {| messages := messages st; id_stats := id_stats st; last_data := last_data
     st; message_history := message_history st; highlighted_rows :=
     highlighted_rows st; display_mode := display_mode st;
     last_message_timestamp := last_message_timestamp st; paused := paused
     st; filter_ids := filter_ids st; max_messages := max_messages st;
     highlight_changes_var := highlight_changes_var st; message_count :=
     message_count st; message_rate := message_rate st; bus_load := bus_load
     st; last_stats_update := last_stats_update st; bitrate := bitrate st;
     can_fd_var := can_fd_var st; extended_id_var := extended_id_var st;
     send_periodic_var := v; bus := bus st; periodic_task_id :=
     periodic_task_id st; timers := timers st; next_after := next_after st;
     tx_log := tx_log st |}.

Definition set_bus (v : bool) (st : State) : State :=
  {| messages := messages st; id_stats := id_stats st; last_data := last_data
     st; message_history := message_history st; highlighted_rows :=
     highlighted_rows st; display_mode := display_mode st;
     last_message_timestamp := last_message_timestamp st; paused := paused
     st; filter_ids := filter_ids st; max_messages := max_messages st;
     highlight_changes_var := highlight_changes_var st; message_count :=
     message_count st; message_rate := message_rate st; bus_load := bus_load
     st; last_stats_update := last_stats_update st; bitrate := bitrate st;
     can_fd_var := can_fd_var st; extended_id_var := extended_id_var st;
     send_periodic_var := send_periodic_var st; bus := v; periodic_task_id :=
     periodic_task_id st; timers := timers st; next_after := next_after st;
     tx_log := tx_log st |}.

Definition set_periodic_task_id (v : option nat) (st : State) : State :=
  {| messages := messages st; id_stats := id_stats st; last_data := last_data
     st; message_history := message_history st; highlighted_rows :=
     highlighted_rows st; display_mode := display_mode st;
     last_message_timestamp := last_message_timestamp st; paused := paused
     st; filter_ids := filter_ids st; max_messages := max_messages st;
     highlight_changes_var := highlight_changes_var st; message_count :=
     message_count st; message_rate := message_rate st; bus_load := bus_load
     st; last_stats_update := last_stats_update st; bitrate := bitrate st;
     can_fd_var := can_fd_var st; extended_id_var := extended_id_var st;
     send_periodic_var := send_periodic_var st; bus := bus st;
     periodic_task_id := v; timers := timers st; next_after := next_after st;
     tx_log := tx_log st |}.

Definition set_timers (v : gmap nat Callback) (st : State) : State :=
  {| messages := messages st; id_stats := id_stats st; last_data := last_data
     st; message_history := message_history st; highlighted_rows :=
     highlighted_rows st; display_mode := display_mode st;
     last_message_timestamp := last_message_timestamp st; paused := paused
     st; filter_ids := filter_ids st; max_messages := max_messages st;
     highlight_changes_var := highlight_changes_var st; message_count :=
     message_count st; message_rate := message_rate st; bus_load := bus_load
     st; last_stats_update := last_stats_update st; bitrate := bitrate st;
     can_fd_var := can_fd_var st; extended_id_var := extended_id_var st;
     send_periodic_var := send_periodic_var st; bus := bus st;
     periodic_task_id := periodic_task_id st; timers := v; next_after :=
     next_after st; tx_log := tx_log st |}.

Definition set_next_after (v : nat) (st : State) : State :=
  {| messages := messages st; id_stats := id_stats st; last_data := last_data
     st; message_history := message_history st; highlighted_rows :=
     highlighted_rows st; display_mode := display_mode st;
     last_message_timestamp := last_message_timestamp st; paused := paused
     st; filter_ids := filter_ids st; max_messages := max_messages st;
     highlight_changes_var := highlight_changes_var st; message_count :=
     message_count st; message_rate := message_rate st; bus_load := bus_load
     st; last_stats_update := last_stats_update st; bitrate := bitrate st;
     can_fd_var := can_fd_var st; extended_id_var := extended_id_var st;
     send_periodic_var := send_periodic_var st; bus := bus st;
     periodic_task_id := periodic_task_id st; timers := timers st; next_after
     := v; tx_log := tx_log st |}.

Definition set_tx_log (v : list (Frame * SendOutcome)) (st : State) : State :=
  {| messages := messages st; id_stats := id_stats st; last_data := last_data
     st; message_history := message_history st; highlighted_rows :=
     highlighted_rows st; display_mode := display_mode st;
     last_message_timestamp := last_message_timestamp st; paused := paused
     st; filter_ids := filter_ids st; max_messages := max_messages st;
     highlight_changes_var := highlight_changes_var st; message_count :=
     message_count st; message_rate := message_rate st; bus_load := bus_load
     st; last_stats_update := last_stats_update st; bitrate := bitrate st;
     can_fd_var := can_fd_var st; extended_id_var := extended_id_var st;
     send_periodic_var := send_periodic_var st; bus := bus st;
     periodic_task_id := periodic_task_id st; timers := timers st; next_after
     := next_after st; tx_log := v |}.

(** ** The Tk timer queue *)

(** [self.after(ms, cb)]: registers [cb] under a fresh id, which is
    returned. The delay is not modelled: a pending timer may fire at any
    later point, and Tk is taken to accept every whole number of
    milliseconds it is given. *)
Definition after (cb : Callback) (st : State) : nat * State :=
  let t := next_after st in
  (t, set_next_after (S t) (set_timers (<[t := cb]> (timers st)) st)).

(** [self.after_cancel(t)]. *)
Definition after_cancel (t : nat) (st : State) : State :=
  set_timers (delete t (timers st)) st.

(** ** Statistics *)

(** [update_stats], lines 931-941: the rate and bus-load recompute. The
    only operation that can raise is the division by the configured
    bitrate. *)
Definition bits_per_message (st : State) : Q :=
  if can_fd_var st then 128 + 64 else 47 + 64.

Definition update_stats (now : Q) (st : State) : Result * State :=
  let elapsed := (now - last_stats_update st)%Q in
  if Qlt_bool 0 elapsed then
    let st := set_message_rate
                (inject_Z (Z.of_nat (message_count st)) / elapsed)%Q st in
    if (bitrate st =? 0)%Z then (Raise ZeroDivisionError, st)
    else
      let st := set_bus_load
                  ((message_rate st * bits_per_message st
                    / inject_Z (bitrate st)) * 100)%Q st in
      let st := if Qlt_bool 100 (bus_load st) then set_bus_load 100%Q st
                else st in
      let st := set_message_count 0 st in
      (Ok, set_last_stats_update now st)
  else (Ok, st).

(** [update_stats], lines 947-953: the frequency shown for one identifier.
    [truediv] is Python's [/], which raises on a zero divisor. *)
Definition truediv (a b : Q) : Exn + Q :=
  if Qeq_bool b 0 then inl ZeroDivisionError else inr (a / b)%Q.

Definition frequency (stats : IdStats) : Exn + Q :=
  if (2 <=? count stats)%nat then
    let duration := (last_timestamp stats - first_timestamp stats)%Q in
    if Qlt_bool 0 duration
    then truediv (inject_Z (Z.of_nat (count stats))) duration
    else inr 0%Q
  else inr 0%Q.

(** [reset_stats]. *)
Definition reset_stats (now : Q) (st : State) : Result * State :=
  let st := set_id_stats ∅ st in
  let st := set_message_count 0 st in
  let st := set_message_rate 0%Q st in
  let st := set_bus_load 0%Q st in
  update_stats now st.

(** ** The message store *)

(** [clear_treeview]. *)
Definition clear_treeview (st : State) : State :=
  let st := set_messages [] st in
  let st := set_message_history ∅ st in
  let st := set_last_data ∅ st in
  let st := set_highlighted_rows ∅ st in
  let st := set_display_mode ∅ st in
  set_last_message_timestamp None st.

(** [display_message], lines 743-751: per-identifier counters and history. *)
Definition count_frame (can_id : string) (msg : Frame) (st : State) : State :=
  let stats :=
    match id_stats st !! can_id with
    | Some s => s
    | None => {| count := 0; first_timestamp := timestamp msg;
                 last_timestamp := timestamp msg |}
    end in
  let st := set_id_stats
              (<[can_id := {| count := S (count stats);
                              first_timestamp := first_timestamp stats;
                              last_timestamp := timestamp msg |}]>
                 (id_stats st)) st in
  let history :=
    (default [] (message_history st !! can_id)
       ++ [(timestamp msg, data msg)])%list in
  let history := if (1000 <? length history)%nat then tail history else history in
  set_message_history (<[can_id := history]> (message_history st)) st.

(** [self.highlight_mode], assigned once in [__init__]. *)
Definition highlight_mode : string := "Message Change".

(** [display_message], lines 754-766: whether to start a highlight, and
    starting it. Returns the row tag. *)
Definition should_highlight (can_id payload : string) (st : State) : bool :=
  if String.eqb highlight_mode "Message" then true
  else if String.eqb highlight_mode "Message Change" then
    match last_data st !! can_id with
    | Some previous => negb (String.eqb previous payload)
    | None => false
    end
  else false.

Definition highlight_update (can_id payload : string) (direction : Direction)
    (tag : Tag) (st : State) : Tag * State :=
  if is_RX direction && highlight_changes_var st then
    if should_highlight can_id payload st then
      let st := match highlighted_rows st !! can_id with
                | Some h => after_cancel (after_id h) st
                | None => st
                end in
      let '(t, st) := after (CbFade can_id) st in
      (Changed 1,
       set_highlighted_rows
         (<[can_id := {| level := 1; after_id := t |}]> (highlighted_rows st))
         st)
    else (tag, st)
  else (tag, st).

(** [display_message], lines 771-778: at capacity the first identifier in
    insertion order is dropped together with its statistics and highlight
    entries. [next(iter(...))] raises on an empty dictionary. *)
Definition evict_oldest (st : State) : Result * State :=
  if (max_messages st <=? length (messages st))%nat then
    match ODict.first_key (messages st) with
    | None => (Raise StopIteration, st)
    | Some oldest_id =>
        let st := set_messages (ODict.del oldest_id (messages st)) st in
        let st := set_id_stats (delete oldest_id (id_stats st)) st in
        (Ok, set_highlighted_rows (delete oldest_id (highlighted_rows st)) st)
    end
  else (Ok, st).

(** [display_message], lines 780-798: update in place or append. *)
Definition upsert (can_id : string) (msg : Frame) (delta : Q) (tag : Tag)
    (st : State) : State :=
  set_messages
    (ODict.set can_id
       {| rec_timestamp := timestamp msg; rec_delta := delta; tags := tag |}
       (messages st)) st.

(** [display_message], line 704: the pause and filter gate. *)
Definition dropped (can_id : string) (direction : Direction) (st : State)
    : bool :=
  paused st
  || (is_RX direction
      && negb (bool_decide (filter_ids st = ∅))
      && negb (bool_decide (can_id ∈ filter_ids st))).

(** [display_message], lines 708-710. A timestamp of [None] or [0.0] is
    falsy. *)
Definition delta_of (msg : Frame) (st : State) : Q :=
  let delta :=
    match last_message_timestamp st with
    | Some last => if Qeq_bool last 0 then 0%Q else (timestamp msg - last)%Q
    | None => 0%Q
    end in
  if Qlt_bool delta 0 then 0%Q else delta.

(** [display_message], lines 707-769: everything before the eviction.
    Returns the delta and the row tag, which the later lines use. *)
Definition record_frame (can_id : string) (msg : Frame)
    (direction : Direction) (st : State) : Q * Tag * State :=
  let st := set_message_count (S (message_count st)) st in
  let delta := delta_of msg st in
  let st := set_last_message_timestamp (Some (timestamp msg)) st in
  let payload := data_str (data msg) in
  let st := count_frame can_id msg st in
  let tag := match ODict.get can_id (messages st) with
             | Some r => tags r
             | None => NoTag
             end in
  let '(tag, st) := highlight_update can_id payload direction tag st in
  let st := if is_RX direction
            then set_last_data (<[can_id := payload]> (last_data st)) st
            else st in
  (delta, tag, st).

(** [datetime.fromtimestamp(msg.timestamp)], line 712: whether the call
    returns. It raises for a timestamp outside the years 1 to 9999
    ([ValueError], or [OverflowError] beyond the platform's [time_t]);
    the bounds here are those of UTC, the local time zone moves them by
    hours. *)
Definition fromtimestamp_ok (ts : Q) : bool :=
  Qle_bool (-62135596800) ts && Qlt_bool ts 253402300800.

(** [display_message], lines 707-711, the lines that have run when line
    712 raises: the frame is counted and its timestamp is the previous
    one from now on. *)
Definition note_frame (msg : Frame) (st : State) : State :=
  set_last_message_timestamp (Some (timestamp msg))
    (set_message_count (S (message_count st)) st).

(** [display_message]. [now] is the clock read by the final
    [update_stats]. When line 712 raises, nothing after line 711 runs. *)
Definition display_message (now : Q) (msg : Frame) (direction : Direction)
    (st : State) : Result * State :=
  let can_id := format_X (arbitration_id msg) in
  if dropped can_id direction st then (Ok, st)
  else if negb (fromtimestamp_ok (timestamp msg))
  then (Raise ValueError, note_frame msg st)
  else
    let '(delta, tag, st) := record_frame can_id msg direction st in
    match evict_oldest st with
    | (Raise e, st) => (Raise e, st)
    | (Ok, st) => update_stats now (upsert can_id msg delta tag st)
    end.

(** Whether a frame starts a highlight, and the identifier that the
    eviction block drops, as functions of the state on entry. *)
Definition starts_highlight (can_id payload : string) (direction : Direction)
    (st : State) : bool :=
  is_RX direction && highlight_changes_var st
  && should_highlight can_id payload st.

Definition evicted (st : State) : option string :=
  if (max_messages st <=? length (messages st))%nat
  then ODict.first_key (messages st)
  else None.

(** ** The highlight fade *)

Definition set_tag (tag : Tag) (r : MessageRecord) : MessageRecord :=
  {| rec_timestamp := rec_timestamp r; rec_delta := rec_delta r; tags := tag |}.

(** [fade_highlight]. *)
Definition fade_highlight (can_id : string) (st : State) : State :=
  match ODict.get can_id (messages st), highlighted_rows st !! can_id with
  | Some r, Some h =>
      if (level h <=? 7)%nat then
        let '(t, st) := after (CbFade can_id) st in
        let st := set_highlighted_rows
                    (<[can_id := {| level := S (level h); after_id := t |}]>
                       (highlighted_rows st)) st in
        set_messages
          (ODict.set can_id (set_tag (Changed (S (level h))) r) (messages st))
          st
      else
        let st := set_highlighted_rows (delete can_id (highlighted_rows st))
                    st in
        set_messages (ODict.set can_id (set_tag NoTag r) (messages st)) st
  | _, _ => st
  end.

(** ** Send-input validation *)

Fixpoint remove_spaces (s : string) : string :=
  match s with
  | "" => ""
  | String c rest =>
      if Ascii.eqb c " " then remove_spaces rest
      else String c (remove_spaces rest)
  end.

Definition is_hex_char (c : ascii) : bool :=
  match hex_val c with Some _ => true | None => false end.

Fixpoint all_hex (s : string) : bool :=
  match s with
  | "" => true
  | String c rest => is_hex_char c && all_hex rest
  end.

(** [bytes.fromhex] on a string of hexadecimal digits. *)
Fixpoint fromhex (s : string) : option (list byte) :=
  match s with
  | "" => Some []
  | String c1 (String c2 rest) =>
      match unhex2 c1 c2, fromhex rest with
      | Some b, Some bs => Some (b :: bs)
      | _, _ => None
      end
  | String _ "" => None
  end.

(** What [float(text)] returns: a finite number, or one of the values
    that the texts "inf", "-inf" and "nan" give. The comparisons are
    Python's: every comparison with [nan] is false. *)
Inductive PyFloat := Finite (q : Q) | PosInf | NegInf | NaN.

(** [x <= 0] and [x < bound]. *)
Definition float_le0 (x : PyFloat) : bool :=
  match x with
  | Finite q => Qle_bool q 0
  | NegInf => true
  | PosInf | NaN => false
  end.

Definition float_lt (x : PyFloat) (bound : Q) : bool :=
  match x with
  | Finite q => Qlt_bool q bound
  | NegInf => true
  | PosInf | NaN => false
  end.

(** The three entry widgets of the send form. [id_entry] is the value of
    [int(self.id_entry.get(), 16)] and [interval_entry] the value of
    [float(self.interval_entry.get())]; [None] stands for the [ValueError]
    of a text that does not parse. *)
Record SendForm := {
  id_entry : option Z;
  data_entry : string;
  interval_entry : option PyFloat
}.

Definition max_id (st : State) : Z :=
  if extended_id_var st then 0x1FFFFFFF else 0x7FF.

Definition max_bytes (st : State) : nat :=
  if can_fd_var st then 64 else 8.

(** Lines 370-379: the payload of the data entry; [None] is a
    [ValueError]. *)
Definition parse_data (text : string) (st : State) : option (list byte) :=
  let data_text := remove_spaces text in
  if String.eqb data_text "" then Some (replicate (max_bytes st) x00)
  else if negb (all_hex data_text) then None
  else if negb (String.length data_text mod 2 =? 0)%nat then None
  else fromhex data_text.

(** [validate_send_inputs]: [None] when the method shows the error dialog
    and returns [None]. *)
Definition validate_send_inputs (form : SendForm) (st : State)
    : option (Z * list byte * PyFloat) :=
  match id_entry form with
  | None => None
  | Some can_id =>
      if (can_id <? 0)%Z || (max_id st <? can_id)%Z then None
      else
        match parse_data (data_entry form) st with
        | None => None
        | Some payload =>
            if (max_bytes st <? length payload)%nat then None
            else
              match interval_entry form with
              | None => None
              | Some interval =>
                  if float_le0 interval then None
                  else Some (can_id, payload, interval)
              end
        end
  end.

(** ** The transmit scheduler *)

(** The [can.Message] built by the send paths; [ts] is the [time.time()]
    stored as its timestamp. *)
Definition make_message (can_id : Z) (payload : list byte) (ts : Q)
    (st : State) : Frame :=
  {| arbitration_id := Z.to_N can_id; data := payload; timestamp := ts;
     is_extended_id := extended_id_var st; is_fd := can_fd_var st |}.

(** [self.bus.send(msg)]: the call and its outcome are recorded. *)
Definition bus_send (msg : Frame) (outcome : SendOutcome) (st : State)
    : State :=
  set_tx_log (tx_log st ++ [(msg, outcome)])%list st.

(** [stop_periodic]. *)
Definition stop_periodic (st : State) : State :=
  let st := match periodic_task_id st with
            | Some t => set_periodic_task_id None (after_cancel t st)
            | None => st
            end in
  if send_periodic_var st then set_send_periodic_var false st else st.

(** [send_once]. *)
Definition send_once (form : SendForm) (ts now : Q) (outcome : SendOutcome)
    (st : State) : State :=
  if negb (bus st) then st
  else
    match validate_send_inputs form st with
    | None => st
    | Some (can_id, payload, _) =>
        let msg := make_message can_id payload ts st in
        let st := bus_send msg outcome st in
        match outcome with
        | SendOk => snd (display_message now msg TX st)
        | _ => st
        end
    end.

(** [schedule_periodic_send]: one cycle of the periodic job. Both
    handlers of the [try] stop the job and return. Line 1034 is outside
    the [try]: [int(interval)] raises for an infinity ([OverflowError])
    and for [nan] ([ValueError]), after the send, and the exception
    leaves the method. The callback keeps the interval it was given. *)
Definition schedule_periodic_send (can_id : Z) (payload : list byte)
    (interval : PyFloat) (ts now : Q) (outcome : SendOutcome) (st : State)
    : Result * State :=
  if negb (send_periodic_var st) || negb (bus st) then (Ok, stop_periodic st)
  else
    let msg := make_message can_id payload ts st in
    let st := bus_send msg outcome st in
    match outcome with
    | SendOk =>
        match display_message now msg TX st with
        | (Ok, st) =>
            match interval with
            | Finite q =>
                let '(t, st) := after (CbPeriodic can_id payload q) st in
                (Ok, set_periodic_task_id (Some t) st)
            | PosInf | NegInf => (Raise OverflowError, st)
            | NaN => (Raise ValueError, st)
            end
        | (Raise _, st) => (Ok, stop_periodic st)
        end
    | _ => (Ok, stop_periodic st)
    end.

(** [toggle_periodic], the command of the "Send Periodically" check box. *)
Definition toggle_periodic (form : SendForm) (ts now : Q)
    (outcome : SendOutcome) (st : State) : State :=
  if negb (bus st) then set_send_periodic_var false st
  else if send_periodic_var st then
    match validate_send_inputs form st with
    | None => stop_periodic st
    | Some (can_id, payload, interval) =>
        if float_lt interval 10 then stop_periodic st
        else
          match schedule_periodic_send can_id payload interval ts now
                  outcome st with
          | (Ok, st) => st
          | (Raise _, st) => stop_periodic st
          end
    end
  else stop_periodic st.

(** [start_can]; [connected] tells whether [can.interface.Bus] opened. *)
Definition start_can (connected : bool) (st : State) : State :=
  if bus st then st
  else if connected then
    let st := set_bus true st in
    let st := set_last_message_timestamp None st in
    let st := set_message_count 0 st in
    let st := set_message_rate 0%Q st in
    set_bus_load 0%Q st
  else st.

(** [stop_can]. *)
Definition stop_can (st : State) : State :=
  let st := stop_periodic st in
  let st := set_bus false st in
  let st := set_last_message_timestamp None st in
  let st := set_message_count 0 st in
  let st := set_message_rate 0%Q st in
  set_bus_load 0%Q st.

(** [cycle_ascii_mode] for the selected identifier. *)
Definition next_mode (m : Mode) : Mode :=
  match m with
  | Binary => Dec8 | Dec8 => Dec16 | Dec16 => Decoded | Decoded => Binary
  end.

Definition cycle_ascii_mode (can_id : string) (st : State) : State :=
  let current := default Binary (display_mode st !! can_id) in
  set_display_mode (<[can_id := next_mode current]> (display_mode st)) st.

(** ** The event loop

    What the Tk main loop can run, with the values the handler reads from
    its environment (the clock, the entry widgets, the outcome of
    [bus.send]). *)
Inductive Event :=
  | EvFrame (now : Q) (msg : Frame)
  | EvTimer (t : nat) (ts now : Q) (outcome : SendOutcome)
  | EvStatsTick (now : Q)
  | EvClear
  | EvResetStats (now : Q)
  | EvTogglePause
  | EvSetHighlight (b : bool)
  | EvSetFd (b : bool)
  | EvSetExtended (b : bool)
  | EvFilter (ids : gset string)
  | EvCycleMode (can_id : string)
  | EvStart (connected : bool)
  | EvStop
  | EvSendOnce (form : SendForm) (ts now : Q) (outcome : SendOutcome)
  | EvClickPeriodic (form : SendForm) (ts now : Q) (outcome : SendOutcome).

(** A pending timer fires: Tk drops it from its queue and calls it. *)
Definition fire (t : nat) (ts now : Q) (outcome : SendOutcome) (st : State)
    : State :=
  match timers st !! t with
  | None => st
  | Some cb =>
      let st := set_timers (delete t (timers st)) st in
      match cb with
      | CbFade can_id => fade_highlight can_id st
      | CbPeriodic can_id payload interval =>
          (* an exception out of a callback is reported by Tk and dropped *)
          snd (schedule_periodic_send can_id payload (Finite interval) ts now
                 outcome st)
      end
  end.

Definition step (ev : Event) (st : State) : State :=
  match ev with
  | EvFrame now msg =>
      (* check_queue: [if not self.paused: self.display_message(item, "RX")];
         an exception is swallowed *)
      if paused st then st else snd (display_message now msg RX st)
  | EvTimer t ts now outcome => fire t ts now outcome st
  | EvStatsTick now => snd (update_stats now st)
  | EvClear => clear_treeview st
  | EvResetStats now => snd (reset_stats now st)
  | EvTogglePause => set_paused (negb (paused st)) st
  | EvSetHighlight b => set_highlight_changes_var b st
  | EvSetFd b => set_can_fd_var b st
  | EvSetExtended b => set_extended_id_var b st
  | EvFilter ids => set_filter_ids ids st
  | EvCycleMode can_id => cycle_ascii_mode can_id st
  | EvStart connected => start_can connected st
  | EvStop => stop_can st
  | EvSendOnce form ts now outcome => send_once form ts now outcome st
  | EvClickPeriodic form ts now outcome =>
      (* the check box flips its variable, then runs its command *)
      toggle_periodic form ts now outcome
        (set_send_periodic_var (negb (send_periodic_var st)) st)
  end.

Definition run (evs : list Event) (st : State) : State :=
  fold_left (fun st ev => step ev st) evs st.

(** [__init__]: the attributes as assigned, with the values read from the
    configuration file; [start] is the clock at construction. *)
Definition init (start : Q) (cfg_bitrate : Z) (cfg_extended_id cfg_can_fd : bool)
    : State :=
  {| messages := []; id_stats := ∅; last_data := ∅; message_history := ∅;
     highlighted_rows := ∅; display_mode := ∅;
     last_message_timestamp := None; paused := false; filter_ids := ∅;
     max_messages := 500; highlight_changes_var := true;
     message_count := 0; message_rate := 0; bus_load := 0;
     last_stats_update := start; bitrate := cfg_bitrate;
     can_fd_var := cfg_can_fd; extended_id_var := cfg_extended_id;
     send_periodic_var := false; bus := false; periodic_task_id := None;
     timers := ∅; next_after := 0; tx_log := [] |}.

(** The states the application can be in. *)
Definition reachable (st : State) : Prop :=
  exists start cfg_bitrate cfg_extended_id cfg_can_fd evs,
    st = run evs (init start cfg_bitrate cfg_extended_id cfg_can_fd).

(** Test fixture: the same application with another store capacity. *)
Definition with_capacity (n : nat) (st : State) : State :=
  {| messages := messages st; id_stats := id_stats st;
     last_data := last_data st; message_history := message_history st;
     highlighted_rows := highlighted_rows st;
     display_mode := display_mode st;
     last_message_timestamp := last_message_timestamp st;
     paused := paused st; filter_ids := filter_ids st; max_messages := n;
     highlight_changes_var := highlight_changes_var st;
     message_count := message_count st; message_rate := message_rate st;
     bus_load := bus_load st; last_stats_update := last_stats_update st;
     bitrate := bitrate st; can_fd_var := can_fd_var st;
     extended_id_var := extended_id_var st;
     send_periodic_var := send_periodic_var st; bus := bus st;
     periodic_task_id := periodic_task_id st; timers := timers st;
     next_after := next_after st; tx_log := tx_log st |}.

(** A classic data frame, as the bus delivers it. *)
Definition frame (id : N) (payload : list byte) (ts : Q) : Frame :=
  {| arbitration_id := id; data := payload; timestamp := ts;
     is_extended_id := false; is_fd := false |}.

(** ** The receiver thread

    [receive_loop] runs in its own thread. It shares [self.running] with
    the main thread, which may clear it at any time, so every read of the
    flag is an input of the model. *)

Module Receiver.

(** How [self.bus.recv(timeout=0.1)] ends: a message, [None] on timeout,
    a [can.CanError], or any other exception. *)
Inductive RecvResult :=
  | RecvFrame (msg : Frame)
  | RecvNone
  | RecvCanError (text : string)
  | RecvError (text : string).

(** What travels on [self.message_queue]. *)
Inductive QItem :=
  | QFrame (msg : Frame)
  | QError (text : string).

Record Rx := {
  can_error_count : nat;
  message_queue : list QItem
}.

Definition put (item : QItem) (s : Rx) : Rx :=
  {| can_error_count := can_error_count s;
     message_queue := message_queue s ++ [item] |}.

Definition set_can_error_count (n : nat) (s : Rx) : Rx :=
  {| can_error_count := n; message_queue := message_queue s |}.

Inductive Ctl := Continue | Break.

(** The body of [while self.running:]. [running] is the value of the
    flag where the exception handlers read it. *)
Definition body (r : RecvResult) (running : bool) (s : Rx) : Ctl * Rx :=
  match r with
  | RecvFrame msg => (Continue, set_can_error_count 0 (put (QFrame msg) s))
  | RecvNone => (Continue, s)
  | RecvCanError text =>
      let s := set_can_error_count (S (can_error_count s)) s in
      if (10 <? can_error_count s)%nat then
        (Break, put (QError ("Excessive CAN errors: " ++ text)%string) s)
      else if running then (Continue, s)
      else (Break, s)
  | RecvError text =>
      if running then (Break, put (QError text) s) else (Continue, s)
  end.

(** One pass of the loop: the flag as read by the loop test, the result
    of [recv], and the flag as read by the handlers. *)
Record Pass := {
  running_head : bool;
  result : RecvResult;
  running_handler : bool
}.

(** The loop over the passes it is given; the first component tells
    whether it has left the loop. *)
Fixpoint receive_loop (passes : list Pass) (s : Rx) : bool * Rx :=
  match passes with
  | [] => (false, s)
  | p :: rest =>
      if running_head p then
        match body (result p) (running_handler p) s with
        | (Continue, s) => receive_loop rest s
        | (Break, s) => (true, s)
        end
      else (true, s)
  end.

(** A pass in which the flag stays set. *)
Definition live (r : RecvResult) : Pass :=
  {| running_head := true; result := r; running_handler := true |}.

End Receiver.

(** ** Invariants *)

(** The store holds at most [max_messages] records. *)
Definition bounded (st : State) : Prop :=
  length (messages st) <= max_messages st.

(** Every highlight entry has a level between 1 and 8 and a timer id that
    [after] has already handed out. *)
Definition highlight_ok (st : State) : Prop :=
  forall k h,
    highlighted_rows st !! k = Some h ->
    1 <= level h <= 8 /\ after_id h < next_after st.

(** No cycle of the periodic job is pending. *)
Definition no_periodic (st : State) : Prop :=
  forall t id payload interval,
    timers st !! t <> Some (CbPeriodic id payload interval).

(** A pending cycle of the periodic job is the one [periodic_task_id]
    names, and the job is switched on with the bus open. *)
Definition periodic_ok (st : State) : Prop :=
  forall t id payload interval,
    timers st !! t = Some (CbPeriodic id payload interval) ->
    periodic_task_id st = Some t
    /\ send_periodic_var st = true
    /\ bus st = true.

Record invariant (st : State) : Prop := {
  inv_bounded : bounded st;
  inv_capacity : max_messages st = 500;
  inv_highlight : highlight_ok st;
  inv_periodic : periodic_ok st
}.

(** The events other than the two user actions that send. *)
Definition passive (ev : Event) : bool :=
  match ev with
  | EvSendOnce _ _ _ _ | EvClickPeriodic _ _ _ _ => false
  | _ => true
  end.

(** The attributes that the frame path and the fade never assign. *)
Definition controls (st : State) :=
  (max_messages st, bitrate st, can_fd_var st, extended_id_var st,
   send_periodic_var st, bus st, periodic_task_id st, tx_log st).

(** The attributes the invariants speak about. *)
Definition core (st : State) :=
  (messages st, max_messages st, highlighted_rows st, next_after st,
   timers st, periodic_task_id st, send_periodic_var st, bus st).

(** [st'] has the timers of [st] and possibly more fade timers. *)
Definition extends (st st' : State) : Prop :=
  next_after st <= next_after st'
  /\ forall t cb,
       timers st' !! t = Some cb ->
       timers st !! t = Some cb \/ exists k, cb = CbFade k.

(** What the frame path keeps. *)
Definition keeps (st x : State) : Prop :=
  (bounded st -> bounded x)
  /\ max_messages x = max_messages st
  /\ (highlight_ok st -> highlight_ok x)
  /\ (no_periodic st -> no_periodic x)
  /\ send_periodic_var x = send_periodic_var st
  /\ bus x = bus st.

(** ** Fixtures *)

(** Five frames of identifier 0x1A0, half a second apart. *)
Definition five_frames : list Event :=
  [EvFrame 10 (frame 0x1A0 [x01] 10);
   EvFrame 10.5 (frame 0x1A0 [x01] 10.5);
   EvFrame 11 (frame 0x1A0 [x01] 11);
   EvFrame 11.5 (frame 0x1A0 [x01] 11.5);
   EvFrame 12 (frame 0x1A0 [x01] 12)].

(** A sequence of calls of [display_message]. *)
Definition display_all (calls : list (Q * Frame * Direction)) (st : State)
    : State :=
  fold_left (fun st '(now, msg, direction) =>
               (display_message now msg direction st).2) calls st.

(** The application as started with the default configuration, and the
    same with room for three identifiers only. *)
Definition started : State := init 0 500000 false false.
Definition cap3 : State := with_capacity 3 started.

(** One received frame of identifier [id] with a one-byte payload. *)
Definition rx (id : N) (b : byte) : Event := EvFrame 1 (frame id [b] 1).

(** Frames of the identifiers [first], ..., [first + n - 1]. *)
Definition fill (first n : nat) : list Event :=
  map (fun i => rx (N.of_nat i) x00) (seq first n).

(** The Tk main loop runs timer [t]. *)
Definition tick (t : nat) : Event := EvTimer t 1 1 SendOk.

(** The send form with identifier 0x123, two payload bytes and the given
    interval in milliseconds. *)
Definition form_every (interval : Q) : SendForm :=
  {| id_entry := Some 0x123%Z; data_entry := "01 02";
     interval_entry := Some (Finite interval) |}.

(** ** Formatting the data entry *)

(** [str.lower] on the characters the model has: the letters ['A'-'Z']
    (codes 65-90) move to ['a'-'z']. *)
Definition lower_char (c : ascii) : ascii :=
  let code := N_of_ascii c in
  if (65 <=? code)%N && (code <=? 90)%N then ascii_of_N (code + 32) else c.

Fixpoint lower (s : string) : string :=
  match s with
  | "" => ""
  | String c rest => String (lower_char c) (lower rest)
  end.

(** [c in '0123456789abcdef']. *)
Definition is_lower_hex (c : ascii) : bool :=
  let code := N_of_ascii c in
  ((48 <=? code)%N && (code <=? 57)%N) || ((97 <=? code)%N && (code <=? 102)%N).

Fixpoint all_lower_hex (s : string) : bool :=
  match s with
  | "" => true
  | String c rest => is_lower_hex c && all_lower_hex rest
  end.

Fixpoint fill_string (n : nat) (c : ascii) : string :=
  match n with
  | 0 => ""
  | S n => String c (fill_string n c)
  end.

(** [s.ljust(width, fill)]. *)
Definition ljust (s : string) (width : nat) (fill : ascii) : string :=
  (s ++ fill_string (width - String.length s) fill)%string.

(** [[text[i:i+2] for i in range(0, len(text), 2)]]. *)
Fixpoint chunk2 (s : string) : list string :=
  match s with
  | "" => []
  | String c1 "" => [String c1 ""]
  | String c1 (String c2 rest) => String c1 (String c2 "") :: chunk2 rest
  end.

(** [' '.join(parts)]. *)
Fixpoint join_sp (parts : list string) : string :=
  match parts with
  | [] => ""
  | [x] => x
  | x :: rest => (x ++ String " "%char (join_sp rest))%string
  end.

(** [format_data_entry], the Return binding of the data entry: the new
    content of the entry, or [None] when the error dialog is shown and the
    entry is left as it is. *)
Definition format_data_entry (raw : string) (st : State) : option string :=
  let text := lower (remove_spaces raw) in
  if String.eqb text "" then Some (join_sp (replicate (max_bytes st) "00"))
  else if negb (all_lower_hex text) then None
  else if (max_bytes st * 2 <? String.length text)%nat then None
  else Some (join_sp (chunk2 (ljust text (max_bytes st * 2) "0"))).

(** The attributes outside [core] and [controls] that the frame path
    reads or assigns. *)
Definition meters (st : State) :=
  (message_history st, display_mode st, last_message_timestamp st, paused st,
   filter_ids st, highlight_changes_var st, message_count st, message_rate st,
   bus_load st, last_stats_update st).

(** A second group of invariants: histories are non-empty and hold at
    most 1000 entries; recorded deltas are not negative; a highlighted
    identifier has a row, tagged with its level, and its fade timer is
    pending; the id in [periodic_task_id] was handed out by [after] and
    names no fade timer; all pending timer ids were handed out by [after]. *)
Record consistent (st : State) : Prop := {
  inv_history :
    forall k h, message_history st !! k = Some h ->
                h <> [] /\ length h <= 1000;
  inv_delta :
    forall k r, ODict.get k (messages st) = Some r -> (0 <= rec_delta r)%Q;
  inv_tag :
    forall k h, highlighted_rows st !! k = Some h ->
                exists r, ODict.get k (messages st) = Some r
                          /\ tags r = Changed (level h);
  inv_timer :
    forall k h, highlighted_rows st !! k = Some h ->
                timers st !! after_id h = Some (CbFade k);
  inv_task :
    forall t, periodic_task_id st = Some t ->
              t < next_after st /\ forall k, timers st !! t <> Some (CbFade k);
  inv_fresh :
    forall t cb, timers st !! t = Some cb -> t < next_after st
}.

(** The attributes the second group speaks about. *)
Definition core2 (st : State) :=
  (messages st, message_history st, highlighted_rows st, timers st,
   next_after st, periodic_task_id st).

(** The events other than a [start_can] that opens the bus. *)
Definition offline (ev : Event) : bool :=
  match ev with
  | EvStart true => false
  | _ => true
  end.

(** ** The queue pump

    [check_queue] runs in the main thread every 50 ms and hands the items
    of [self.message_queue] to [display_message]. The model has the queue
    as a list, oldest item first, next to the flag [self.running] and the
    attributes of the application; [clock i] is the clock as read by
    [update_stats] for the item taken after [i] others. The receiver
    thread only appends to the queue, so what it does meanwhile does not
    change which items the batch takes. *)
Module MainLoop.

Record Main := {
  running : bool;
  message_queue : list Receiver.QItem;
  app : State
}.

Definition set_app (st : State) (m : Main) : Main :=
  {| running := running m; message_queue := message_queue m; app := st |}.

Definition set_message_queue (q : list Receiver.QItem) (m : Main) : Main :=
  {| running := running m; message_queue := q; app := app m |}.

(** [stop_can] with the flag and the queue: the flag is cleared and the
    queue is drained. *)
Definition stop_can (m : Main) : Main :=
  {| running := false; message_queue := []; app := stop_can (app m) |}.

Definition batch_size : nat := 5.

(** The [while processed < batch_size] loop; [budget] is
    [batch_size - processed]. Leaving the recursion is [break], an empty
    queue ([queue.Empty]) or an exception out of [display_message]. *)
Fixpoint check_queue_loop (budget processed : nat) (clock : nat -> Q)
    (m : Main) : Main :=
  match budget with
  | 0 => m
  | S budget =>
      match message_queue m with
      | [] => m
      | item :: rest =>
          let m := set_message_queue rest m in
          match item with
          | Receiver.QError _ => if running m then stop_can m else m
          | Receiver.QFrame msg =>
              if paused (app m)
              then check_queue_loop budget (S processed) clock m
              else
                match display_message (clock processed) msg RX (app m) with
                | (Ok, st) =>
                    check_queue_loop budget (S processed) clock (set_app st m)
                | (Raise _, st) => set_app st m
                end
          end
      end
  end.

Definition check_queue (clock : nat -> Q) (m : Main) : Main :=
  check_queue_loop batch_size 0 clock m.

(** The frames [msgs] as events of the main loop, the first one being
    item number [processed] of its batch. *)
Fixpoint frame_events (clock : nat -> Q) (processed : nat)
    (msgs : list Frame) : list Event :=
  match msgs with
  | [] => []
  | msg :: rest =>
      EvFrame (clock processed) msg :: frame_events clock (S processed) rest
  end.

(** Line 712 accepts the timestamp of every frame of the list. *)
Definition accepted (msgs : list Frame) : Prop :=
  Forall (fun msg => fromtimestamp_ok (timestamp msg) = true) msgs.

End MainLoop.

(** ** The identifier filter *)

(** [f"{z:X}"] for an integer of either sign. *)
Definition format_Z (z : Z) : string :=
  if (z <? 0)%Z then String "-"%char (format_X (Z.to_N (- z)))
  else format_X (Z.to_N z).

(** The filter entry as [apply_filter] reads it: blank after [strip], or
    the pieces between its commas, each with the value of
    [int(piece.strip(), 16)], [None] when that raises [ValueError]. *)
Inductive FilterText :=
  | FilterBlank
  | FilterPieces (pieces : list (option Z)).

(** The set comprehension of line 552; [None] when it raises. *)
Fixpoint filter_set (max : Z) (pieces : list (option Z))
    : option (gset string) :=
  match pieces with
  | [] => Some ∅
  | None :: _ => None
  | Some z :: rest =>
      match filter_set max rest with
      | None => None
      | Some ids =>
          Some (if (z <=? max)%Z then {[format_Z z]} ∪ ids else ids)
      end
  end.

(** [apply_filter]: on [ValueError] the dialog is shown and the entry is
    cleared, the filter stays as it was. *)
Definition apply_filter (text : FilterText) (st : State) : State :=
  match text with
  | FilterBlank => set_filter_ids ∅ st
  | FilterPieces pieces =>
      match filter_set (max_id st) pieces with
      | Some ids => set_filter_ids ids st
      | None => st
      end
  end.

(** ** Quiet stretches of the receiver

    A result of [recv] that puts nothing on the queue by itself: a
    timeout or a CAN error; and the number of CAN errors among results. *)
Definition quiet (r : Receiver.RecvResult) : bool :=
  match r with
  | Receiver.RecvNone | Receiver.RecvCanError _ => true
  | _ => false
  end.

Fixpoint can_errors (rs : list Receiver.RecvResult) : nat :=
  match rs with
  | [] => 0
  | Receiver.RecvCanError _ :: rest => S (can_errors rest)
  | _ :: rest => can_errors rest
  end.

(** The two gauges of the status line and the configured bitrate; the
    range the gauges stay in. *)
Definition gauges (st : State) := (message_rate st, bus_load st, bitrate st).

Definition gauges_ok (st : State) : Prop :=
  (0 <= message_rate st)%Q
  /\ (bus_load st <= 100)%Q
  /\ ((0 < bitrate st)%Z -> (0 <= bus_load st)%Q).

(** ** Byte analysis

    [update_analysis] inside [analyze_bytes], over the history list of
    the selected identifier; [now] is the clock, read only when the
    history is empty. The window is what [float] makes of the entry, so
    it can be infinite or not a number. *)

(** [x <= window] on floats. *)
Definition float_ge (window : PyFloat) (x : Q) : bool :=
  match window with
  | Finite q => Qle_bool x q
  | PosInf => true
  | NegInf | NaN => false
  end.

(** [max((t for t, _ in history), default=time.time())]. *)
Definition latest_time (history : list (Q * list byte)) (now : Q) : Q :=
  match history with
  | [] => now
  | entry :: rest =>
      fold_left (fun m e => if Qlt_bool m e.1 then e.1 else m) rest entry.1
  end.

(** [data[i]] as an integer. *)
Definition byte_at (i : nat) (payload : list byte) : Z :=
  Z.of_N (Byte.to_N (nth i payload x00)).

(** The inner loop: the values of byte [i] in the frames that have it and
    are not older than [window] seconds. *)
Definition byte_values (i : nat) (window : PyFloat) (latest : Q)
    (history : list (Q * list byte)) : list Z :=
  omap (fun e => if (i <? length e.2)%nat && float_ge window (latest - e.1)
                 then Some (byte_at i e.2) else None) history.

Definition sum_Z (vs : list Z) : Z := fold_right Z.add 0%Z vs.

Record ByteStats := {
  min_val : Z;
  max_val : Z;
  mean_val : Q
}.

(** The label of byte [i]; [None] is the label "No data". The mean is
    the exact quotient, which the label shows with two decimals. *)
Definition byte_stats (i : nat) (window : PyFloat) (now : Q)
    (history : list (Q * list byte)) : option ByteStats :=
  match byte_values i window (latest_time history now) history with
  | [] => None
  | v :: vs =>
      Some {| min_val := fold_left Z.min vs v;
              max_val := fold_left Z.max vs v;
              mean_val := (inject_Z (sum_Z (v :: vs))
                           / inject_Z (Z.of_nat (length (v :: vs))))%Q |}
  end.

(** One run of [update_analysis]. [analysis_open] is the flag of the
    window, [time_window] the entry as [float] reads it, [None] where
    [float] raises, [history] is [self.message_history.get(can_id)] and
    [byte_labels] the labels as they are. The result is the labels and
    whether the next run was queued: a closed window, a window length that
    does not parse or is not above 0, and a history that is gone (the
    [KeyError] is swallowed) all leave the labels alone and end the
    updates. *)
Definition update_analysis (analysis_open : bool) (max_bytes : nat)
    (time_window : option PyFloat) (now : Q)
    (history : option (list (Q * list byte)))
    (byte_labels : list (option ByteStats))
    : list (option ByteStats) * bool :=
  if negb analysis_open then (byte_labels, false)
  else
    match time_window with
    | None => (byte_labels, false)
    | Some window =>
        if float_le0 window then (byte_labels, false)
        else
          match history with
          | None => (byte_labels, false)
          | Some history =>
              (map (fun i => byte_stats i window now history)
                 (seq 0 max_bytes), true)
          end
    end.

(** ** The Decoded column

    [display_message], lines 715-741: the text of the fourth column in the
    display mode of the identifier. [big_endian] is [self.endian_var];
    [dbc] is the loaded database, as the function from a frame to the
    decoded text, [None] where looking up or decoding the frame raises. *)

(** [f"{n:d}"] and [format(b, '08b')]. *)
Definition format_d (n : N) : string := NilEmpty.string_of_uint (N.to_uint n).

Definition format_08b (b : byte) : string :=
  let bit i := if N.testbit (Byte.to_N b) i then "1"%char else "0"%char in
  String (bit 7%N) (String (bit 6%N) (String (bit 5%N) (String (bit 4%N)
    (String (bit 3%N) (String (bit 2%N) (String (bit 1%N)
      (String (bit 0%N) ""))))))).

(** [struct.unpack('>H' if endian == 'big' else '<H', bytes([b0, b1]))[0]]. *)
Definition unpack_H (big_endian : bool) (b0 b1 : byte) : N :=
  if big_endian then 256 * Byte.to_N b0 + Byte.to_N b1
  else Byte.to_N b0 + 256 * Byte.to_N b1.

(** The loop over [range(0, len(msg.data), 2)]. *)
Fixpoint words16 (big_endian : bool) (d : list byte) : list N :=
  match d with
  | b0 :: b1 :: rest => unpack_H big_endian b0 b1 :: words16 big_endian rest
  | _ => []
  end.

Definition display_data (mode : Mode) (big_endian : bool)
    (dbc : option (N -> list byte -> option string))
    (can_id : N) (d : list byte) : string :=
  match mode with
  | Binary => join_sp (map format_08b d)
  | Dec8 => join_sp (map (fun b => format_d (Byte.to_N b)) d)
  | Dec16 =>
      if negb (length d mod 2 =? 0)%nat then "N/A (Odd bytes)"
      else join_sp (map format_d (words16 big_endian d))
  | Decoded =>
      match dbc with
      | Some decode => default "DBC decode error" (decode can_id d)
      | None => "No DBC loaded"
      end
  end.

(** Texts without a space, and the value of a text of binary digits;
    both serve to read a column text back. *)
Fixpoint no_space (s : string) : bool :=
  match s with
  | "" => true
  | String c rest => negb (Ascii.eqb c " ") && no_space rest
  end.

Definition word (s : string) : Prop := s <> "" /\ no_space s = true.

Fixpoint binary_value (acc : N) (s : string) : N :=
  match s with
  | "" => acc
  | String c rest =>
      binary_value (2 * acc + if Ascii.eqb c "1" then 1 else 0) rest
  end.

(** * Properties *)

(** ** Comparisons of rationals *)

Lemma Qlt_bool_iff (x y : Q) : Qlt_bool x y = true <-> (x < y)%Q.
Proof.
  unfold Qlt_bool. rewrite negb_true_iff, <- not_true_iff_false, Qle_bool_iff.
  split; [apply Qnot_le_lt | apply Qlt_not_le].
Qed.

Lemma Qlt_bool_false (x y : Q) : Qlt_bool x y = false <-> (y <= x)%Q.
Proof.
  unfold Qlt_bool. rewrite negb_false_iff. apply Qle_bool_iff.
Qed.

(** ** The receiver loop *)

Module ReceiverFacts.
Import Receiver.

Lemma body_queue (r : RecvResult) (running : bool) (s : Rx) :
  match body r running s with
  | (Continue, s') =>
      exists frames, message_queue s' = message_queue s ++ map QFrame frames
  | (Break, s') =>
      message_queue s' = message_queue s
      \/ exists text, message_queue s' = message_queue s ++ [QError text]
  end.
Proof.
  unfold body. destruct r as [msg| |text|text].
  - exists [msg]. reflexivity.
  - exists []. cbn. by rewrite app_nil_r.
  - destruct (10 <? _)%nat; [right; eauto|].
    destruct running; [|by left].
    exists (@nil Frame). cbn. by rewrite app_nil_r.
  - destruct running; [right; eauto|].
    exists (@nil Frame). cbn. by rewrite app_nil_r.
Qed.

Lemma receive_loop_queue (passes : list Pass) (s : Rx) :
  exists frames errs,
    message_queue (receive_loop passes s).2
      = message_queue s ++ map QFrame frames ++ errs
    /\ (errs = []
        \/ exists text, errs = [QError text]
                        /\ (receive_loop passes s).1 = true).
Proof.
  revert s. induction passes as [|p rest IH]; intros s; cbn.
  - exists [], []. cbn. rewrite app_nil_r. auto.
  - destruct (running_head p); cbn.
    2: { exists [], []. cbn. rewrite app_nil_r. auto. }
    pose proof (body_queue (result p) (running_handler p) s) as Hb.
    destruct (body (result p) (running_handler p) s) as [[|] s'].
    + destruct Hb as [fs Hfs].
      destruct (IH s') as (frames & errs & Hq & Herr).
      exists (fs ++ frames), errs. split; [|exact Herr].
      rewrite Hq, Hfs, map_app, <- !app_assoc. reflexivity.
    + cbn. destruct Hb as [Hb|[text Hb]]; rewrite Hb.
      * exists [], []. cbn. rewrite app_nil_r. auto.
      * exists [], [QError text]. cbn. eauto.
Qed.

(** C9. In the receiver loop a received frame is enqueued and resets the
    error counter; a CAN error increments the counter, and when the
    counter then exceeds 10 the loop enqueues the fatal error and ends;
    another exception while running is enqueued and ends the loop. The
    loop enqueues at most one error, as its last item, and has ended when
    it did. Ten CAN errors in a row leave the loop running, the eleventh
    ends it. *)
Theorem receive_loop_error_handling :
  (forall msg running s,
      body (RecvFrame msg) running s
      = (Continue, {| can_error_count := 0;
                      message_queue := message_queue s ++ [QFrame msg] |}))
  /\ (forall text running s,
        let n := S (can_error_count s) in
        (10 < n ->
         body (RecvCanError text) running s
         = (Break,
            {| can_error_count := n;
               message_queue :=
                 message_queue s
                 ++ [QError ("Excessive CAN errors: " ++ text)%string] |}))
        /\ (n <= 10 ->
            body (RecvCanError text) running s
            = (if running then Continue else Break,
               {| can_error_count := n;
                  message_queue := message_queue s |})))
  /\ (forall text s,
        body (RecvError text) true s
        = (Break, {| can_error_count := can_error_count s;
                     message_queue := message_queue s ++ [QError text] |}))
  /\ (forall passes s,
        exists frames errs,
          message_queue (receive_loop passes s).2
            = message_queue s ++ map QFrame frames ++ errs
          /\ (errs = []
              \/ exists text, errs = [QError text]
                              /\ (receive_loop passes s).1 = true))
  /\ (forall text q,
        let s := {| can_error_count := 0; message_queue := q |} in
        receive_loop (replicate 10 (live (RecvCanError text))) s
        = (false, {| can_error_count := 10; message_queue := q |})
        /\ receive_loop (replicate 11 (live (RecvCanError text))) s
           = (true,
              {| can_error_count := 11;
                 message_queue :=
                   q ++ [QError ("Excessive CAN errors: " ++ text)%string] |})).
Proof.
  split; [reflexivity|].
  split.
  { intros text running s n. subst n. unfold body.
    change (can_error_count (set_can_error_count _ s))
      with (S (can_error_count s)).
    split; intros Hn.
    - destruct (Nat.ltb_spec 10 (S (can_error_count s))); [reflexivity|lia].
    - destruct (Nat.ltb_spec 10 (S (can_error_count s))); [lia|].
      destruct running; reflexivity. }
  split; [reflexivity|].
  split; [apply receive_loop_queue|].
  intros text q s. split; reflexivity.
Qed.

Lemma receive_loop_error_handling_witness :
  body (RecvCanError "bus off") true
    {| can_error_count := 10; message_queue := [] |}
  = (Break,
     {| can_error_count := 11;
        message_queue := [QError "Excessive CAN errors: bus off"] |})
  /\ body (RecvCanError "bus off") true
       {| can_error_count := 3; message_queue := [] |}
     = (Continue, {| can_error_count := 4; message_queue := [] |}).
Proof.
  destruct receive_loop_error_handling as (_ & Hcan & _).
  split.
  - apply (Hcan "bus off" true
             {| can_error_count := 10; message_queue := [] |}).
    cbn. lia.
  - apply (Hcan "bus off" true
             {| can_error_count := 3; message_queue := [] |}).
    cbn. lia.
Defined.

End ReceiverFacts.

(** ** Statistics *)

Lemma Qdiv_nonneg (a b : Q) : (0 <= a)%Q -> (0 <= b)%Q -> (0 <= a / b)%Q.
Proof.
  intros Ha Hb. unfold Qdiv. apply Qmult_le_0_compat; [exact Ha|].
  by apply Qinv_le_0_compat.
Qed.

Lemma inject_nat_nonneg (n : nat) : (0 <= inject_Z (Z.of_nat n))%Q.
Proof. change 0%Q with (inject_Z 0). rewrite <- Zle_Qle. lia. Qed.

(** C5. The frequency shown for an identifier is [count / (last - first)]
    when the count is at least 2 and the duration is positive, and 0
    otherwise; the computation never raises. Five frames over 2 seconds
    give 2.5. *)
Theorem frequency_formula :
  (forall stats,
      let duration := (last_timestamp stats - first_timestamp stats)%Q in
      (2 <= count stats -> (0 < duration)%Q ->
       frequency stats
       = inr (inject_Z (Z.of_nat (count stats)) / duration)%Q)
      /\ (count stats < 2 \/ (duration <= 0)%Q -> frequency stats = inr 0%Q)
      /\ exists f, frequency stats = inr f)
  /\ (exists stats f,
         id_stats (run five_frames (init 0 500000 false false)) !! "1A0"
         = Some stats
         /\ count stats = 5
         /\ (last_timestamp stats - first_timestamp stats == 2)%Q
         /\ frequency stats = inr f
         /\ (f == 2.5)%Q).
Proof.
  split.
  - intros stats duration. unfold frequency, truediv. fold duration.
    destruct (Nat.leb_spec 2 (count stats)) as [Hc|Hc].
    + destruct (Qlt_bool 0 duration) eqn:Hd.
      * apply Qlt_bool_iff in Hd.
        assert (Qeq_bool duration 0 = false) as ->.
        { apply not_true_iff_false. intros He. apply Qeq_bool_iff in He.
          rewrite He in Hd. by apply Qlt_irrefl in Hd. }
        split; [reflexivity|]. split; [|eauto].
        intros [?|Hle]; [lia|]. by apply Qle_not_lt in Hle.
      * apply Qlt_bool_false in Hd. split; [|split; [reflexivity|eauto]].
        intros _ Hlt. by apply Qlt_not_le in Hlt.
    + split; [lia|]. split; [reflexivity|eauto].
  - eexists _, _. split; [by vm_compute|].
    repeat split.
Qed.

Lemma frequency_formula_witness :
  frequency {| count := 5; first_timestamp := 10; last_timestamp := 12 |}
  = inr (inject_Z (Z.of_nat 5) / (12 - 10))%Q
  /\ frequency {| count := 2; first_timestamp := 7; last_timestamp := 7 |}
     = inr 0%Q.
Proof.
  destruct frequency_formula as [H _]. split.
  - apply (H {| count := 5; first_timestamp := 10; last_timestamp := 12 |});
      [cbn; lia | reflexivity].
  - apply (H {| count := 2; first_timestamp := 7; last_timestamp := 7 |}).
    right. by vm_compute.
Defined.

(** C6, counterexample. There is no lower clamp: with a negative
    configured bitrate one frame gives a negative bus load. *)
Lemma bus_load_negative :
  (bus_load (run [EvStart true; EvFrame 1 (frame 0x123 [] 1)]
               (init 0 (-500000) false false)) < 0)%Q.
Proof. by vm_compute. Qed.

(** C6, as amended. With a positive configured bitrate the recompute sets
    the bus load to [rate * bits_per_message / bitrate * 100], with 47 + 64
    bits per classic frame and 128 + 64 per FD frame, replaced by exactly
    100 when it exceeds 100; the result lies in [0, 100]. *)
Theorem bus_load_recompute (now : Q) (st : State) :
  (last_stats_update st < now)%Q ->
  (0 < bitrate st)%Z ->
  let rate :=
    (inject_Z (Z.of_nat (message_count st)) / (now - last_stats_update st))%Q in
  let computed :=
    (rate * bits_per_message st / inject_Z (bitrate st) * 100)%Q in
  let st' := (update_stats now st).2 in
  (update_stats now st).1 = Ok
  /\ message_rate st' = rate
  /\ bits_per_message st = (if can_fd_var st then 128 + 64 else 47 + 64)%Q
  /\ ((100 < computed)%Q -> bus_load st' = 100%Q)
  /\ ((computed <= 100)%Q -> bus_load st' = computed)
  /\ (0 <= bus_load st' <= 100)%Q.
Proof.
  intros Hnow Hbit rate computed st'.
  assert (Qlt_bool 0 (now - last_stats_update st) = true) as Hel.
  { apply Qlt_bool_iff. unfold Qminus. by apply -> Qlt_minus_iff. }
  assert ((bitrate st =? 0)%Z = false) as Hb0 by lia.
  assert (0 <= computed)%Q as Hpos.
  { unfold computed. apply Qmult_le_0_compat; [|done].
    apply Qdiv_nonneg.
    - apply Qmult_le_0_compat.
      + apply Qdiv_nonneg; [apply inject_nat_nonneg|].
        apply Qlt_le_weak. unfold Qminus. by apply -> Qlt_minus_iff.
      + unfold bits_per_message. by destruct (can_fd_var st).
    - change 0%Q with (inject_Z 0). rewrite <- Zle_Qle. lia. }
  subst st'. unfold update_stats. rewrite Hel. cbn [set_message_rate bitrate].
  rewrite Hb0. cbn -[Qlt_bool Qmult Qdiv Qminus Qplus inject_Z].
  fold rate.
  change (bits_per_message (set_message_rate rate st))
    with (bits_per_message st).
  fold computed.
  destruct (Qlt_bool 100 computed) eqn:Hc;
    cbn -[Qlt_bool Qmult Qdiv Qminus Qplus inject_Z].
  - apply Qlt_bool_iff in Hc.
    split; [reflexivity|]. split; [reflexivity|]. split; [reflexivity|].
    split; [reflexivity|]. split; [|done].
    intros Hle. by apply Qle_not_lt in Hle.
  - apply Qlt_bool_false in Hc.
    split; [reflexivity|]. split; [reflexivity|]. split; [reflexivity|].
    split; [|split; [reflexivity|by split]].
    intros Hlt. by apply Qlt_not_le in Hlt.
Qed.

Lemma bus_load_recompute_witness :
  let st := set_message_count 5000 (init 0 500000 false false) in
  bus_load (update_stats 1 st).2 = 100%Q.
Proof.
  intros st.
  apply (bus_load_recompute 1 st); [reflexivity | reflexivity | reflexivity].
Defined.

(** ** Clearing *)

(** C7, counterexample. After a frame and "Clear Treeview" the statistics
    of the identifier are still there. *)
Lemma clear_keeps_id_stats :
  count <$> id_stats (run [EvFrame 1 (frame 0x123 [] 1); EvClear]
                        (init 0 500000 false false)) !! "123"
  = Some 1.
Proof. by vm_compute. Qed.

(** C7, as amended. [clear_treeview] empties the message store, the
    histories, the last payloads, the highlight entries and the display
    modes, and forgets the last timestamp; it leaves the per-identifier
    statistics as they are. Those are emptied by [reset_stats]. *)
Theorem clear_treeview_clears (st : State) :
  let st' := clear_treeview st in
  messages st' = []
  /\ message_history st' = ∅
  /\ last_data st' = ∅
  /\ highlighted_rows st' = ∅
  /\ display_mode st' = ∅
  /\ last_message_timestamp st' = None
  /\ id_stats st' = id_stats st
  /\ forall now, id_stats (reset_stats now st).2 = ∅.
Proof.
  repeat split. intros now. unfold reset_stats, update_stats.
  repeat case_match; reflexivity.
Qed.

(** ** Send-input validation *)

Lemma hex_val_bound (c : ascii) (h : N) : hex_val c = Some h -> (h < 16)%N.
Proof.
  destruct c as [[] [] [] [] [] [] [] []]; vm_compute; intros [= <-];
    reflexivity.
Qed.

Lemma unhex2_is_Some (c1 c2 : ascii) :
  is_hex_char c1 = true -> is_hex_char c2 = true -> is_Some (unhex2 c1 c2).
Proof.
  unfold is_hex_char, unhex2.
  destruct (hex_val c1) as [h|] eqn:H1; [|done].
  destruct (hex_val c2) as [l|] eqn:H2; [|done].
  intros _ _. apply hex_val_bound in H1, H2.
  destruct (Byte.of_N (16 * h + l)) eqn:Hb; [eauto|].
  apply Byte.of_N_None_iff in Hb. lia.
Qed.

Lemma fromhex_all_hex (n : nat) (s : string) :
  String.length s = 2 * n -> all_hex s = true ->
  exists bs, fromhex s = Some bs /\ length bs = n.
Proof.
  revert s. induction n as [|n IH]; intros s Hlen Hhex.
  - destruct s; [|done]. exists []. done.
  - destruct s as [|c1 [|c2 rest]]; cbn in Hlen; try lia.
    cbn in Hhex. apply andb_prop in Hhex as [Hc1 Hhex].
    apply andb_prop in Hhex as [Hc2 Hhex].
    destruct (unhex2_is_Some c1 c2 Hc1 Hc2) as [b Hb].
    destruct (IH rest) as (bs & Hbs & Hl); [lia|done|].
    exists (b :: bs). cbn. rewrite Hb, Hbs. split; [done|cbn; lia].
Qed.

Lemma fromhex_length (bs : list byte) (s : string) :
  fromhex s = Some bs -> String.length s = 2 * length bs.
Proof.
  revert s. induction bs as [|b bs IH]; intros s H.
  - destruct s as [|c1 [|c2 rest]]; [done|done|]. cbn in H.
    destruct (unhex2 c1 c2), (fromhex rest); done.
  - destruct s as [|c1 [|c2 rest]]; [done|done|]. cbn in H.
    destruct (unhex2 c1 c2); [|done].
    destruct (fromhex rest) as [bs'|] eqn:Hr; [|done].
    injection H as -> ->. cbn. rewrite (IH rest Hr). lia.
Qed.

Lemma stop_periodic_tx_log (st : State) : tx_log (stop_periodic st) = tx_log st.
Proof. unfold stop_periodic. repeat case_match; reflexivity. Qed.

(** ** Payload formatting is injective *)

Lemma hex2_unhex2 (b : byte) :
  exists c1 c2, hex2 b = String c1 (String c2 "") /\ unhex2 c1 c2 = Some b.
Proof. destruct b; eexists _, _; split; reflexivity. Qed.

Lemma data_str_cons (b : byte) (rest : list byte) :
  exists c1 c2,
    unhex2 c1 c2 = Some b
    /\ data_str (b :: rest)
       = String c1 (String c2 (match rest with
                               | [] => ""
                               | _ => String " "%char (data_str rest)
                               end)).
Proof.
  destruct (hex2_unhex2 b) as (c1 & c2 & Hh & Hu). exists c1, c2.
  split; [exact Hu|]. destruct rest; cbn [data_str]; rewrite Hh; reflexivity.
Qed.

Lemma data_str_inj (d1 d2 : list byte) : data_str d1 = data_str d2 -> d1 = d2.
Proof.
  revert d2. induction d1 as [|b1 r1 IH]; intros [|b2 r2] H.
  - reflexivity.
  - destruct (data_str_cons b2 r2) as (? & ? & _ & E). rewrite E in H. done.
  - destruct (data_str_cons b1 r1) as (? & ? & _ & E). rewrite E in H. done.
  - destruct (data_str_cons b1 r1) as (c1 & c2 & U1 & E1).
    destruct (data_str_cons b2 r2) as (c3 & c4 & U2 & E2).
    rewrite E1, E2 in H. injection H as -> -> H.
    assert (b1 = b2) as -> by congruence. f_equal.
    destruct r1 as [|x r1], r2 as [|y r2]; [done|done|done|].
    injection H as H. by apply IH.
Qed.

(** ** Insertion-ordered dictionaries *)

Module ODictFacts.
Section ODictFacts.
Context {V : Type}.
Implicit Types (d : list (string * V)) (k : string) (v : V).

Lemma get_set_eq k v d : ODict.get k (ODict.set k v d) = Some v.
Proof.
  induction d as [|[k' v'] d IH]; cbn.
  - by rewrite decide_True.
  - destruct (decide (k' = k)) as [->|Hne]; cbn.
    + by rewrite decide_True.
    + by rewrite decide_False.
Qed.

Lemma get_set_ne k k' v d :
  k <> k' -> ODict.get k' (ODict.set k v d) = ODict.get k' d.
Proof.
  intros Hne. induction d as [|[k0 v0] d IH]; cbn.
  - by rewrite decide_False.
  - destruct (decide (k0 = k)) as [->|Hne0]; cbn.
    + by rewrite !decide_False.
    + by rewrite IH.
Qed.

Lemma get_del_eq k d : ODict.get k (ODict.del k d) = None.
Proof.
  unfold ODict.del. induction d as [|[k' v'] d IH]; [done|].
  rewrite filter_cons. cbn. destruct (decide (k' <> k)) as [Hne|Heq]; cbn.
  - by rewrite decide_False.
  - exact IH.
Qed.

Lemma get_del_ne k k' d :
  k <> k' -> ODict.get k' (ODict.del k d) = ODict.get k' d.
Proof.
  intros Hne. unfold ODict.del. induction d as [|[k0 v0] d IH]; [done|].
  rewrite filter_cons. cbn. destruct (decide (k0 <> k)) as [Hne0|Heq]; cbn.
  - by rewrite IH.
  - apply dec_stable in Heq. subst k0. by rewrite decide_False.
Qed.

Lemma length_set k v d :
  length (ODict.set k v d)
  = match ODict.get k d with
    | Some _ => length d
    | None => S (length d)
    end.
Proof.
  induction d as [|[k' v'] d IH]; cbn; [done|].
  destruct (decide (k' = k)); cbn; [done|].
  rewrite IH. by destruct (ODict.get k d).
Qed.

Lemma length_set_le k v d : length (ODict.set k v d) <= S (length d).
Proof. rewrite length_set. destruct (ODict.get k d); lia. Qed.

Lemma keys_set_present k v d :
  is_Some (ODict.get k d) -> ODict.keys (ODict.set k v d) = ODict.keys d.
Proof.
  unfold ODict.keys. induction d as [|[k' v'] d IH]; cbn.
  - by intros [? ?].
  - destruct (decide (k' = k)) as [->|Hne]; cbn; [done|].
    intros H. by rewrite IH.
Qed.

Lemma keys_set_absent k v d :
  ODict.get k d = None -> ODict.keys (ODict.set k v d) = ODict.keys d ++ [k].
Proof.
  unfold ODict.keys. induction d as [|[k' v'] d IH]; cbn; [done|].
  destruct (decide (k' = k)) as [->|Hne]; cbn; [done|].
  intros H. by rewrite IH.
Qed.

Lemma length_del_first k d :
  ODict.first_key d = Some k -> length (ODict.del k d) < length d.
Proof.
  destruct d as [|[k' v'] d]; [done|]. intros [= ->].
  unfold ODict.del. rewrite filter_cons_False by (cbn; auto).
  apply Nat.lt_succ_r, length_filter.
Qed.

Lemma first_key_None d : ODict.first_key d = None -> d = [].
Proof. by destruct d as [|[? ?] ?]. Qed.
End ODictFacts.
End ODictFacts.

(** ** What each method leaves alone *)

Ltac case_all := repeat case_match; simplify_eq/=; try done.

(** Splits the conjunctions of the goal, and nothing else. *)
Ltac splits := repeat match goal with |- _ /\ _ => split end.

Lemma update_stats_controls now st :
  controls (update_stats now st).2 = controls st.
Proof. unfold update_stats. case_all. Qed.

Lemma update_stats_store now st :
  messages (update_stats now st).2 = messages st
  /\ highlighted_rows (update_stats now st).2 = highlighted_rows st
  /\ id_stats (update_stats now st).2 = id_stats st
  /\ timers (update_stats now st).2 = timers st
  /\ next_after (update_stats now st).2 = next_after st.
Proof. unfold update_stats. case_all. Qed.

Lemma highlight_update_frame can_id payload direction tag st :
  let st' := (highlight_update can_id payload direction tag st).2 in
  controls st' = controls st
  /\ messages st' = messages st
  /\ id_stats st' = id_stats st
  /\ last_data st' = last_data st.
Proof. unfold highlight_update, after, after_cancel. case_all. Qed.

Lemma evict_oldest_frame st :
  controls (evict_oldest st).2 = controls st
  /\ timers (evict_oldest st).2 = timers st
  /\ next_after (evict_oldest st).2 = next_after st
  /\ last_data (evict_oldest st).2 = last_data st.
Proof. unfold evict_oldest. case_all. Qed.

(** ** The frame path, field by field *)

Lemma highlight_update_spec can_id payload direction tag st :
  let starts := starts_highlight can_id payload direction st in
  let r := highlight_update can_id payload direction tag st in
  r.1 = (if starts then Changed 1 else tag)
  /\ highlighted_rows r.2
     = (if starts
        then <[can_id := {| level := 1; after_id := next_after st |}]>
               (highlighted_rows st)
        else highlighted_rows st)
  /\ timers r.2
     = (if starts
        then <[next_after st := CbFade can_id]>
               (match highlighted_rows st !! can_id with
                | Some h => delete (after_id h) (timers st)
                | None => timers st
                end)
        else timers st)
  /\ next_after r.2 = (if starts then S (next_after st) else next_after st).
Proof.
  unfold highlight_update, starts_highlight, after, after_cancel.
  destruct (is_RX direction && highlight_changes_var st); [|done].
  destruct (should_highlight can_id payload st); [|done].
  destruct (highlighted_rows st !! can_id); done.
Qed.

Lemma record_frame_spec can_id msg direction st :
  let payload := data_str (data msg) in
  let starts := starts_highlight can_id payload direction st in
  let st1 := (record_frame can_id msg direction st).2 in
  controls st1 = controls st
  /\ messages st1 = messages st
  /\ (record_frame can_id msg direction st).1
     = (delta_of msg st,
        if starts then Changed 1
        else match ODict.get can_id (messages st) with
             | Some r => tags r
             | None => NoTag
             end)
  /\ highlighted_rows st1
     = (if starts
        then <[can_id := {| level := 1; after_id := next_after st |}]>
               (highlighted_rows st)
        else highlighted_rows st)
  /\ timers st1
     = (if starts
        then <[next_after st := CbFade can_id]>
               (match highlighted_rows st !! can_id with
                | Some h => delete (after_id h) (timers st)
                | None => timers st
                end)
        else timers st)
  /\ next_after st1 = (if starts then S (next_after st) else next_after st)
  /\ last_data st1
     = (if is_RX direction then <[can_id := payload]> (last_data st)
        else last_data st)
  /\ id_stats st1 = id_stats (count_frame can_id msg st).
Proof.
  intros payload starts st1. subst st1. unfold record_frame.
  set (st0 := count_frame can_id msg _).
  set (tag0 := match ODict.get can_id (messages st0) with
               | Some r => tags r
               | None => NoTag
               end).
  fold payload.
  pose proof (highlight_update_spec can_id payload direction tag0 st0)
    as (Ht & Hh & Htm & Hn).
  pose proof (highlight_update_frame can_id payload direction tag0 st0)
    as (Hc & Hm & Hi & Hl).
  change (starts_highlight can_id payload direction st0) with starts in *.
  destruct (highlight_update can_id payload direction tag0 st0) as [tag sth].
  cbn [fst snd] in *.
  assert (forall f : State -> State,
             (f = (fun x => x)
              \/ f = set_last_data (<[can_id := payload]> (last_data sth))) ->
             controls (f sth) = controls st
             /\ messages (f sth) = messages st
             /\ highlighted_rows (f sth) = highlighted_rows sth
             /\ timers (f sth) = timers sth
             /\ next_after (f sth) = next_after sth
             /\ id_stats (f sth) = id_stats (count_frame can_id msg st))
    as Hf.
  { intros f [->| ->]; (split; [exact Hc|]); (split; [exact Hm|]);
      (repeat split; try reflexivity); exact Hi. }
  destruct (is_RX direction).
  - destruct (Hf (set_last_data (<[can_id := payload]> (last_data sth))))
      as (H1 & H2 & H3 & H4 & H5 & H6); [by right|].
    rewrite H3, H4, H5.
    split; [exact H1|]. split; [exact H2|]. split; [by rewrite Ht|].
    split; [exact Hh|]. split; [exact Htm|]. split; [exact Hn|].
    split; [|exact H6]. cbn [last_data set_last_data]. by rewrite Hl.
  - destruct (Hf (fun x => x)) as (H1 & H2 & H3 & H4 & H5 & H6); [by left|].
    split; [exact H1|]. split; [exact H2|]. split; [by rewrite Ht|].
    split; [exact Hh|]. split; [exact Htm|]. split; [exact Hn|].
    split; [exact Hl|exact H6].
Qed.

Lemma evict_oldest_spec st :
  let st' := (evict_oldest st).2 in
  messages st'
  = match evicted st with
    | Some o => ODict.del o (messages st)
    | None => messages st
    end
  /\ id_stats st'
     = match evicted st with
       | Some o => delete o (id_stats st)
       | None => id_stats st
       end
  /\ highlighted_rows st'
     = match evicted st with
       | Some o => delete o (highlighted_rows st)
       | None => highlighted_rows st
       end
  /\ ((evict_oldest st).1 = Ok
      <-> (max_messages st <= length (messages st) -> messages st <> [])).
Proof.
  unfold evict_oldest, evicted.
  destruct (Nat.leb_spec (max_messages st) (length (messages st))) as [Hle|Hlt].
  - destruct (ODict.first_key (messages st)) as [o|] eqn:Hk; cbn.
    + split; [done|]. split; [done|]. split; [done|].
      split; [|done]. intros _ _ E. by rewrite E in Hk.
    + apply ODictFacts.first_key_None in Hk.
      split; [done|]. split; [done|]. split; [done|].
      split; [done|]. intros H. by apply H in Hle.
  - cbn. split; [done|]. split; [done|]. split; [done|].
    split; [|done]. intros _ Hle. lia.
Qed.

Lemma controls_max_messages st st' :
  controls st' = controls st -> max_messages st' = max_messages st.
Proof. unfold controls. by intros [= -> _ _ _ _ _ _ _]. Qed.

Lemma update_stats_ok now st :
  bitrate st <> 0%Z -> (update_stats now st).1 = Ok.
Proof.
  intros Hb. unfold update_stats. destruct (Qlt_bool _ _); [|done].
  cbn [bitrate set_message_rate].
  destruct (Z.eqb_spec (bitrate st) 0); [done|]. done.
Qed.

Lemma display_message_dropped now msg direction st :
  dropped (format_X (arbitration_id msg)) direction st = true ->
  display_message now msg direction st = (Ok, st).
Proof. intros H. unfold display_message. by rewrite H. Qed.

Lemma display_message_rejected now msg direction st :
  dropped (format_X (arbitration_id msg)) direction st = false ->
  fromtimestamp_ok (timestamp msg) = false ->
  display_message now msg direction st = (Raise ValueError, note_frame msg st).
Proof. intros Hd Hts. unfold display_message. by rewrite Hd, Hts. Qed.

Lemma note_frame_controls msg st : controls (note_frame msg st) = controls st.
Proof. reflexivity. Qed.

Lemma note_frame_core msg st : core (note_frame msg st) = core st.
Proof. reflexivity. Qed.

Lemma display_message_spec now msg direction st :
  let can_id := format_X (arbitration_id msg) in
  let payload := data_str (data msg) in
  dropped can_id direction st = false ->
  fromtimestamp_ok (timestamp msg) = true ->
  let starts := starts_highlight can_id payload direction st in
  let st' := (display_message now msg direction st).2 in
  let hl1 := if starts
             then <[can_id := {| level := 1; after_id := next_after st |}]>
                    (highlighted_rows st)
             else highlighted_rows st in
  let tag := if starts then Changed 1
             else match ODict.get can_id (messages st) with
                  | Some r => tags r
                  | None => NoTag
                  end in
  controls st' = controls st
  /\ highlighted_rows st'
     = match evicted st with Some o => delete o hl1 | None => hl1 end
  /\ timers st'
     = (if starts
        then <[next_after st := CbFade can_id]>
               (match highlighted_rows st !! can_id with
                | Some h => delete (after_id h) (timers st)
                | None => timers st
                end)
        else timers st)
  /\ next_after st' = (if starts then S (next_after st) else next_after st)
  /\ last_data st'
     = (if is_RX direction then <[can_id := payload]> (last_data st)
        else last_data st)
  /\ id_stats st'
     = match evicted st with
       | Some o => delete o (id_stats (count_frame can_id msg st))
       | None => id_stats (count_frame can_id msg st)
       end
  /\ (messages st <> [] \/ length (messages st) < max_messages st ->
      messages st'
      = ODict.set can_id
          {| rec_timestamp := timestamp msg; rec_delta := delta_of msg st;
             tags := tag |}
          match evicted st with
          | Some o => ODict.del o (messages st)
          | None => messages st
          end
      /\ (bitrate st <> 0%Z -> (display_message now msg direction st).1 = Ok))
  /\ (messages st = [] -> max_messages st <= length (messages st) ->
      messages st' = []).
Proof.
  intros can_id payload Hdrop Hts starts st' hl1 tag. subst st'.
  unfold display_message. fold can_id. rewrite Hdrop, Hts. cbn [negb].
  pose proof (record_frame_spec can_id msg direction st)
    as (Hc & Hm & H1 & Hh & Ht & Hn & Hl & Hi).
  fold payload in H1, Hh, Ht, Hn, Hl. fold starts in H1, Hh, Ht, Hn.
  destruct (record_frame can_id msg direction st) as [[delta tag'] st1].
  cbn [fst snd] in *. injection H1 as -> ->. fold tag. fold hl1 in Hh.
  assert (evicted st1 = evicted st) as Hev.
  { unfold evicted. by rewrite Hm, (controls_max_messages _ _ Hc). }
  pose proof (evict_oldest_spec st1) as (Em & Ei & Eh & Eok).
  pose proof (evict_oldest_frame st1) as (Ec & Et & En & El).
  rewrite Hev in Em, Ei, Eh.
  rewrite Hm, (controls_max_messages _ _ Hc) in Eok.
  rewrite Hm in Em. rewrite Hi in Ei. rewrite Hh in Eh.
  destruct (evict_oldest st1) as [[|e] st2]; cbn [fst snd] in *.
  - pose proof (update_stats_controls now (upsert can_id msg (delta_of msg st) tag st2)) as Uc.
    pose proof (update_stats_store now (upsert can_id msg (delta_of msg st) tag st2))
      as (Um & Uh & Ui & Ut & Un).
    assert (last_data
              (update_stats now
                 (upsert can_id msg (delta_of msg st) tag st2)).2
            = last_data st2) as Ul.
    { unfold update_stats. case_all. }
    rewrite Uc, Um, Uh, Ui, Ut, Un, Ul.
    unfold upsert.
    cbn [messages highlighted_rows id_stats timers next_after last_data
           set_messages].
    change (controls (set_messages _ st2)) with (controls st2).
    rewrite Ec, Hc, Eh, Et, Ht, En, Hn, El, Hl, Ei, Em.
    repeat (split; [reflexivity|]).
    split.
    + intros _. split; [reflexivity|]. intros Hb. apply update_stats_ok.
      change (bitrate (set_messages _ st2)) with (bitrate st2).
      assert (bitrate st2 = bitrate st) as ->; [|done].
      assert (controls st2 = controls st) as E by congruence.
      unfold controls in E. by injection E.
    + intros E Hle. destruct Eok as [Eok _]. specialize (Eok eq_refl Hle).
      by rewrite E in Eok.
  - rewrite Ec, Hc, Eh, Et, Ht, En, Hn, El, Hl, Ei, Em.
    repeat (split; [reflexivity|]).
    split.
    + intros Hne. exfalso. destruct Eok as [_ Eok].
      enough (Raise e = Ok) by done. apply Eok. intros Hle.
      destruct Hne as [Hne|Hlt]; [done|lia].
    + intros E _. unfold evicted. rewrite E.
      by destruct (max_messages st <=? length [])%nat.
Qed.

Lemma fade_highlight_idle can_id st :
  ODict.get can_id (messages st) = None
  \/ highlighted_rows st !! can_id = None ->
  fade_highlight can_id st = st.
Proof.
  unfold fade_highlight. intros [-> | ->]; [done|].
  by destruct (ODict.get can_id (messages st)).
Qed.

Lemma fade_highlight_spec can_id st r h :
  ODict.get can_id (messages st) = Some r ->
  highlighted_rows st !! can_id = Some h ->
  let st' := fade_highlight can_id st in
  controls st' = controls st
  /\ id_stats st' = id_stats st
  /\ last_data st' = last_data st
  /\ (level h <= 7 ->
      highlighted_rows st'
      = <[can_id := {| level := S (level h); after_id := next_after st |}]>
          (highlighted_rows st)
      /\ timers st' = <[next_after st := CbFade can_id]> (timers st)
      /\ next_after st' = S (next_after st)
      /\ messages st'
         = ODict.set can_id (set_tag (Changed (S (level h))) r) (messages st))
  /\ (8 <= level h ->
      highlighted_rows st' = delete can_id (highlighted_rows st)
      /\ timers st' = timers st
      /\ next_after st' = next_after st
      /\ messages st' = ODict.set can_id (set_tag NoTag r) (messages st)).
Proof.
  intros Hr Hh. unfold fade_highlight, after. rewrite Hr, Hh.
  destruct (Nat.leb_spec (level h) 7) as [Hle|Hgt].
  - do 3 (split; [reflexivity|]). split; [|lia]. intros _.
    repeat split; reflexivity.
  - do 3 (split; [reflexivity|]). split; [lia|]. intros _.
    repeat split; reflexivity.
Qed.

(** ** Preservation of the invariants *)

Lemma extends_refl st : extends st st.
Proof. split; [lia|auto]. Qed.

Lemma no_periodic_extends st st' :
  extends st st' -> no_periodic st -> no_periodic st'.
Proof.
  intros [_ He] Hn t id payload interval Ht.
  destruct (He _ _ Ht) as [Hold|[k Hk]]; [by apply Hn in Hold|done].
Qed.

Lemma periodic_ok_extends st st' :
  controls st' = controls st -> extends st st' ->
  periodic_ok st -> periodic_ok st'.
Proof.
  intros Hc [_ He] Hp t id payload interval Ht.
  destruct (He _ _ Ht) as [Hold|[k Hk]]; [|done].
  apply Hp in Hold. unfold controls in Hc.
  injection Hc as _ _ _ _ -> -> -> _. exact Hold.
Qed.

Lemma highlight_ok_mono st st' :
  highlighted_rows st' = highlighted_rows st ->
  next_after st <= next_after st' ->
  highlight_ok st -> highlight_ok st'.
Proof.
  intros Hh Hn Hok k h Hk. rewrite Hh in Hk.
  destruct (Hok k h Hk). split; [done|lia].
Qed.

Lemma highlight_ok_delete st st' o :
  highlighted_rows st' = delete o (highlighted_rows st) ->
  next_after st <= next_after st' ->
  highlight_ok st -> highlight_ok st'.
Proof.
  intros Hh Hn Hok k h Hk. rewrite Hh in Hk.
  apply lookup_delete_Some in Hk as [_ Hk].
  destruct (Hok k h Hk). split; [done|lia].
Qed.

Lemma highlight_ok_insert st st' k n :
  highlighted_rows st'
  = <[k := {| level := n; after_id := next_after st |}]> (highlighted_rows st) ->
  next_after st < next_after st' ->
  1 <= n <= 8 ->
  highlight_ok st -> highlight_ok st'.
Proof.
  intros Hh Hn Hlv Hok k' h Hk. rewrite Hh in Hk.
  apply lookup_insert_Some in Hk as [[_ <-]|[_ Hk]]; cbn; [lia|].
  destruct (Hok k' h Hk). split; [done|lia].
Qed.

Lemma display_message_extends now msg direction st :
  extends st (display_message now msg direction st).2.
Proof.
  destruct (dropped (format_X (arbitration_id msg)) direction st) eqn:Hd.
  - rewrite display_message_dropped by done. apply extends_refl.
  - destruct (fromtimestamp_ok (timestamp msg)) eqn:Hts;
      [|rewrite display_message_rejected by done; exact (extends_refl st)].
    destruct (display_message_spec now msg direction st Hd Hts)
      as (_ & _ & Ht & Hn & _).
    split; [rewrite Hn; destruct (starts_highlight _ _ _ _); lia|].
    intros t cb. rewrite Ht.
    destruct (starts_highlight _ _ _ _); [|auto].
    intros Hx. apply lookup_insert_Some in Hx as [[_ <-]|[_ Hx]]; [eauto|].
    destruct (highlighted_rows st !! _); [|auto].
    apply lookup_delete_Some in Hx as [_ Hx]. auto.
Qed.

Lemma display_message_highlight_ok now msg direction st :
  highlight_ok st -> highlight_ok (display_message now msg direction st).2.
Proof.
  intros Hok.
  destruct (dropped (format_X (arbitration_id msg)) direction st) eqn:Hd.
  - by rewrite display_message_dropped.
  - destruct (fromtimestamp_ok (timestamp msg)) eqn:Hts;
      [|by rewrite display_message_rejected].
    destruct (display_message_spec now msg direction st Hd Hts)
      as (_ & Hh & _ & Hn & _).
    intros k h. rewrite Hh, Hn. intros Hk.
    assert ((if starts_highlight (format_X (arbitration_id msg))
                  (data_str (data msg)) direction st
             then <[format_X (arbitration_id msg) :=
                      {| level := 1; after_id := next_after st |}]>
                    (highlighted_rows st)
             else highlighted_rows st) !! k = Some h) as Hk1.
    { destruct (evicted st); [|done].
      by apply lookup_delete_Some in Hk as [_ Hk]. }
    clear Hk. destruct (starts_highlight _ _ _ _).
    + apply lookup_insert_Some in Hk1 as [[_ <-]|[_ Hk]]; cbn; [lia|].
      destruct (Hok k h Hk). split; [done|lia].
    + exact (Hok k h Hk1).
Qed.

Lemma display_message_bounded now msg direction st :
  bounded st -> bounded (display_message now msg direction st).2.
Proof.
  unfold bounded. intros Hb.
  destruct (dropped (format_X (arbitration_id msg)) direction st) eqn:Hd.
  - by rewrite display_message_dropped.
  - destruct (fromtimestamp_ok (timestamp msg)) eqn:Hts;
      [|by rewrite display_message_rejected].
    destruct (display_message_spec now msg direction st Hd Hts)
      as (Hc & _ & _ & _ & _ & _ & Hm & He).
    rewrite (controls_max_messages _ _ Hc).
    destruct (decide (messages st = [])) as [E|Hne].
    + destruct (Nat.le_gt_cases (max_messages st) (length (messages st)))
        as [Hle|Hlt].
      * rewrite (He E Hle). cbn. lia.
      * destruct (Hm (or_intror Hlt)) as [-> _].
        etrans; [apply ODictFacts.length_set_le|].
        unfold evicted.
        destruct (Nat.leb_spec (max_messages st) (length (messages st)));
          [lia|]. lia.
    + destruct (Hm (or_introl Hne)) as [-> _].
      etrans; [apply ODictFacts.length_set_le|].
      unfold evicted.
      destruct (Nat.leb_spec (max_messages st) (length (messages st)))
        as [Hle|Hlt]; [|lia].
      destruct (ODict.first_key (messages st)) as [o|] eqn:Hk.
      * pose proof (ODictFacts.length_del_first o (messages st) Hk). lia.
      * by apply ODictFacts.first_key_None in Hk.
Qed.

Lemma fade_highlight_preserves can_id st :
  let st' := fade_highlight can_id st in
  controls st' = controls st
  /\ extends st st'
  /\ (highlight_ok st -> highlight_ok st')
  /\ (bounded st -> bounded st').
Proof.
  intros st'. subst st'.
  destruct (ODict.get can_id (messages st)) as [r|] eqn:Hr.
  2: { rewrite fade_highlight_idle by auto. auto using extends_refl. }
  destruct (highlighted_rows st !! can_id) as [h|] eqn:Hh.
  2: { rewrite fade_highlight_idle by auto. auto using extends_refl. }
  destruct (fade_highlight_spec can_id st r h Hr Hh)
    as (Hc & _ & _ & Hlo & Hhi).
  split; [exact Hc|].
  assert (max_messages (fade_highlight can_id st) = max_messages st) as Hmax
    by exact (controls_max_messages _ _ Hc).
  unfold bounded. rewrite Hmax.
  destruct (Nat.le_gt_cases (level h) 7) as [Hle|Hgt].
  - destruct (Hlo Hle) as (Eh & Et & En & Em). split; [|split].
    + split; [lia|]. intros t cb. rewrite Et. intros Hx.
      apply lookup_insert_Some in Hx as [[_ <-]|[_ Hx]]; eauto.
    + intros Hok. eapply highlight_ok_insert; [exact Eh|lia| |exact Hok].
      lia.
    + rewrite Em, ODictFacts.length_set, Hr. done.
  - destruct (Hhi Hgt) as (Eh & Et & En & Em). split; [|split].
    + split; [lia|]. intros t cb. rewrite Et. auto.
    + intros Hok. eapply highlight_ok_delete; [exact Eh|lia|exact Hok].
    + rewrite Em, ODictFacts.length_set, Hr. done.
Qed.

Lemma no_periodic_periodic_ok st : no_periodic st -> periodic_ok st.
Proof. intros Hn t id payload interval Ht. by apply Hn in Ht. Qed.

Lemma stop_periodic_spec st :
  let st' := stop_periodic st in
  messages st' = messages st
  /\ max_messages st' = max_messages st
  /\ highlighted_rows st' = highlighted_rows st
  /\ next_after st' = next_after st
  /\ bus st' = bus st
  /\ tx_log st' = tx_log st
  /\ send_periodic_var st' = false
  /\ periodic_task_id st' = None
  /\ timers st'
     = match periodic_task_id st with
       | Some t => delete t (timers st)
       | None => timers st
       end.
Proof.
  unfold stop_periodic, after_cancel.
  destruct (periodic_task_id st) eqn:Ht;
    cbn [send_periodic_var set_periodic_task_id set_timers];
    destruct (send_periodic_var st) eqn:Hv; cbn; rewrite ?Ht, ?Hv; done.
Qed.

(** Once the pending cycle, if any, is the one [periodic_task_id] names,
    [stop_periodic] leaves no cycle pending. *)
Lemma stop_periodic_no_periodic st :
  (forall t id payload interval,
      timers st !! t = Some (CbPeriodic id payload interval) ->
      periodic_task_id st = Some t) ->
  no_periodic (stop_periodic st).
Proof.
  intros Hp t id payload interval.
  destruct (stop_periodic_spec st) as (_ & _ & _ & _ & _ & _ & _ & _ & ->).
  destruct (periodic_task_id st) as [t0|] eqn:Ht0; intros Hx.
  - apply lookup_delete_Some in Hx as [Hne Hx].
    apply Hp in Hx. congruence.
  - by apply Hp in Hx.
Qed.

Lemma bus_send_core msg outcome st : core (bus_send msg outcome st) = core st.
Proof. reflexivity. Qed.

Lemma invariant_core st st' : core st' = core st -> invariant st -> invariant st'.
Proof.
  unfold core. intros [= Hm Hx Hh Hn Ht Hp Hv Hb] [I1 I2 I3 I4]. split.
  - unfold bounded. by rewrite Hm, Hx.
  - by rewrite Hx.
  - apply (highlight_ok_mono st); [done|lia|done].
  - intros t id payload interval. rewrite Ht, Hp, Hv, Hb. apply I4.
Qed.

Lemma display_message_TX now msg st :
  timers (display_message now msg TX st).2 = timers st
  /\ next_after (display_message now msg TX st).2 = next_after st.
Proof.
  destruct (dropped (format_X (arbitration_id msg)) TX st) eqn:Hd.
  - by rewrite display_message_dropped.
  - destruct (fromtimestamp_ok (timestamp msg)) eqn:Hts;
      [|by rewrite display_message_rejected].
    destruct (display_message_spec now msg TX st Hd Hts) as (_ & _ & Ht & Hn & _).
    by rewrite Ht, Hn.
Qed.

Lemma controls_fields st st' :
  controls st' = controls st ->
  send_periodic_var st' = send_periodic_var st
  /\ bus st' = bus st
  /\ periodic_task_id st' = periodic_task_id st
  /\ tx_log st' = tx_log st
  /\ bitrate st' = bitrate st.
Proof. unfold controls. by intros [= _ -> _ _ -> -> -> ->]. Qed.

Lemma display_message_controls now msg direction st :
  controls (display_message now msg direction st).2 = controls st.
Proof.
  destruct (dropped (format_X (arbitration_id msg)) direction st) eqn:Hd.
  - by rewrite display_message_dropped.
  - destruct (fromtimestamp_ok (timestamp msg)) eqn:Hts;
      [|by rewrite display_message_rejected].
    by destruct (display_message_spec now msg direction st Hd Hts) as (Hc & _).
Qed.

Lemma keeps_display now msg direction st x :
  keeps st x -> keeps st (display_message now msg direction x).2.
Proof.
  intros (K1 & K2 & K3 & K4 & K5 & K6).
  pose proof (display_message_controls now msg direction x) as Dc.
  pose proof (controls_max_messages _ _ Dc) as Dx.
  destruct (controls_fields _ _ Dc) as (Dv & Db & _).
  split; [intros; by apply display_message_bounded, K1|].
  split; [congruence|].
  split; [intros; by apply display_message_highlight_ok, K3|].
  split; [|split; congruence].
  intros Hn. eapply no_periodic_extends; [apply display_message_extends|].
  by apply K4.
Qed.

Lemma keeps_refl st : keeps st st.
Proof. unfold keeps. tauto. Qed.

Lemma keeps_core st x : core x = core st -> keeps st x.
Proof.
  unfold core. intros [= Hm Hx Hh Hn Ht Hp Hv Hb].
  split; [unfold bounded; by rewrite Hm, Hx|].
  split; [done|].
  split; [apply highlight_ok_mono; [done|lia]|].
  split; [|done].
  intros Hnp t id p iv. rewrite Ht. apply Hnp.
Qed.

Lemma stop_periodic_keeps st x :
  keeps st x ->
  (bounded st -> bounded (stop_periodic x))
  /\ max_messages (stop_periodic x) = max_messages st
  /\ (highlight_ok st -> highlight_ok (stop_periodic x))
  /\ (no_periodic st -> no_periodic (stop_periodic x)).
Proof.
  intros (K1 & K2 & K3 & K4 & _).
  destruct (stop_periodic_spec x) as (Sm & Sx & Sh & Sn & _ & _ & _ & _ & St).
  split; [unfold bounded in *; rewrite Sm, Sx; auto|].
  split; [congruence|].
  split; [intros; apply (highlight_ok_mono x); [done|lia|auto]|].
  intros Hn t id p iv. rewrite St. intros Hq.
  apply (K4 Hn t id p iv).
  destruct (periodic_task_id x); [|done].
  by apply lookup_delete_Some in Hq as [_ Hq].
Qed.

Lemma finite_or_not (interval : PyFloat) :
  (exists q, interval = Finite q) \/ forall q, interval <> Finite q.
Proof. destruct interval; eauto. Qed.

(** A cycle with a finite interval returns normally. *)
Lemma schedule_periodic_send_finite can_id payload interval ts now outcome st :
  (schedule_periodic_send can_id payload (Finite interval) ts now outcome
     st).1 = Ok.
Proof.
  unfold schedule_periodic_send.
  destruct (negb (send_periodic_var st) || negb (bus st)); [done|].
  destruct outcome; [|done|done].
  by destruct (display_message _ _ _ _) as [[|e] std].
Qed.

(** What [toggle_periodic] makes of a cycle: the state the cycle left,
    with the job stopped when the cycle raised. *)
Lemma toggled_finite can_id payload interval ts now outcome st :
  match schedule_periodic_send can_id payload (Finite interval) ts now
          outcome st with
  | (Ok, st') => st'
  | (Raise _, st') => stop_periodic st'
  end
  = (schedule_periodic_send can_id payload (Finite interval) ts now outcome
       st).2.
Proof.
  pose proof (schedule_periodic_send_finite can_id payload interval ts now
                outcome st) as H.
  destruct (schedule_periodic_send _ _ _ _ _ _ _) as [r st']. cbn in *.
  by subst r.
Qed.

(** With an interval that is not finite the first cycle sends, when the
    job is on and the bus open, and the job is stopped either way. *)
Lemma toggled_not_finite can_id payload interval ts now outcome st :
  (forall q, interval <> Finite q) ->
  let msg := make_message can_id payload ts st in
  let st1 := bus_send msg outcome st in
  let std := (display_message now msg TX st1).2 in
  match schedule_periodic_send can_id payload interval ts now outcome st with
  | (Ok, st') => st'
  | (Raise _, st') => stop_periodic st'
  end
  = stop_periodic
      (if send_periodic_var st && bus st
       then match outcome with SendOk => std | _ => st1 end
       else st).
Proof.
  intros Hnf msg st1 std. subst std. unfold schedule_periodic_send.
  fold msg. fold st1.
  destruct (send_periodic_var st), (bus st); cbn [negb orb andb]; try done.
  destruct outcome; [|done|done].
  destruct (display_message now msg TX st1) as [[|e] std]; cbn [snd];
    [|done].
  destruct interval as [q| | |]; [by destruct (Hnf q)|done|done|done].
Qed.

(** The four ways a cycle of the periodic job can end. *)
Lemma schedule_periodic_send_cases can_id payload interval ts now outcome st :
  let st' := (schedule_periodic_send can_id payload (Finite interval) ts now
                outcome st).2 in
  let msg := make_message can_id payload ts st in
  let st1 := bus_send msg outcome st in
  let std := (display_message now msg TX st1).2 in
  (send_periodic_var st && bus st = false /\ st' = stop_periodic st)
  \/ (send_periodic_var st && bus st = true /\ outcome <> SendOk
      /\ st' = stop_periodic st1)
  \/ (send_periodic_var st && bus st = true /\ outcome = SendOk
      /\ (display_message now msg TX st1).1 <> Ok
      /\ st' = stop_periodic std)
  \/ (send_periodic_var st && bus st = true /\ outcome = SendOk
      /\ (display_message now msg TX st1).1 = Ok
      /\ st' = set_periodic_task_id (Some (next_after std))
                 (set_next_after (S (next_after std))
                    (set_timers
                       (<[next_after std
                          := CbPeriodic can_id payload interval]>
                          (timers std)) std))).
Proof.
  intros st' msg st1 std. subst st' std. unfold schedule_periodic_send.
  fold msg. fold st1.
  destruct (send_periodic_var st), (bus st); cbn [negb orb andb]; auto.
  destruct outcome; [|right; left; done|right; left; done].
  right. right.
  destruct (display_message now msg TX st1) as [[|e] std]; cbn [fst snd].
  - right. done.
  - left. done.
Qed.

Lemma schedule_periodic_send_spec can_id payload interval ts now outcome st :
  let st' := (schedule_periodic_send can_id payload (Finite interval) ts now
                outcome st).2 in
  let msg := make_message can_id payload ts st in
  (bounded st -> bounded st')
  /\ max_messages st' = max_messages st
  /\ (highlight_ok st -> highlight_ok st')
  /\ (no_periodic st -> periodic_ok st')
  /\ tx_log st'
     = (if send_periodic_var st && bus st
        then tx_log st ++ [(msg, outcome)] else tx_log st)
  /\ (outcome <> SendOk \/ send_periodic_var st && bus st = false ->
      no_periodic st ->
      no_periodic st'
      /\ send_periodic_var st' = false /\ periodic_task_id st' = None)
  /\ (send_periodic_var st && bus st = true -> outcome = SendOk ->
      (display_message now msg TX (bus_send msg outcome st)).1 = Ok ->
      periodic_task_id st' = Some (next_after st)
      /\ timers st' !! next_after st
         = Some (CbPeriodic can_id payload interval)
      /\ send_periodic_var st' = true)
  /\ (no_periodic st' -> send_periodic_var st' = false).
Proof.
  intros st' msg.
  set (st1 := bus_send msg outcome st).
  set (std := (display_message now msg TX st1).2).
  assert (keeps st st1) as K1 by (by apply keeps_core).
  assert (keeps st std) as Kd by (by apply keeps_display).
  assert (forall x, keeps st x -> tx_log x = tx_log st ++ [(msg, outcome)] ->
            st' = stop_periodic x ->
            (bounded st -> bounded st')
            /\ max_messages st' = max_messages st
            /\ (highlight_ok st -> highlight_ok st')
            /\ (no_periodic st -> periodic_ok st')
            /\ tx_log st' = tx_log st ++ [(msg, outcome)]
            /\ (no_periodic st ->
                no_periodic st'
                /\ send_periodic_var st' = false
                /\ periodic_task_id st' = None)
            /\ send_periodic_var st' = false) as Hstop.
  { intros x Kx Hlog ->.
    destruct (stop_periodic_keeps st x Kx) as (H1 & H2 & H3 & H4).
    destruct (stop_periodic_spec x) as (_ & _ & _ & _ & _ & Sl & Sv & Sp & _).
    splits; auto using no_periodic_periodic_ok. congruence. }
  pose proof (schedule_periodic_send_cases can_id payload interval ts now
                outcome st) as Hcases.
  cbv zeta in Hcases. fold msg in Hcases. fold st1 in Hcases.
  fold std in Hcases. fold st' in Hcases.
  destruct Hcases as [(Hc & E)|[(Hc & Ho & E)|[(Hc & Ho & Hd & E)
                                              |(Hc & Ho & Hd & E)]]];
    rewrite Hc.
  - destruct (stop_periodic_keeps st st (keeps_refl st)) as (H1 & H2 & H3 & H4).
    destruct (stop_periodic_spec st) as (_ & _ & _ & _ & _ & Sl & Sv & Sp & _).
    rewrite E.
    splits; auto using no_periodic_periodic_ok; done.
  - destruct (Hstop st1 K1 eq_refl E) as (H1 & H2 & H3 & H4 & H5 & H6 & H7).
    splits; auto; done.
  - assert (tx_log std = tx_log st ++ [(msg, outcome)]) as Hlog.
    { destruct (controls_fields _ _ (display_message_controls now msg TX st1))
        as (_ & _ & _ & Dl & _). exact Dl. }
    destruct (Hstop std Kd Hlog E) as (H1 & H2 & H3 & H4 & H5 & H6 & H7).
    splits; auto; done.
  - destruct Kd as (D1 & D2 & D3 & D4 & D5 & D6).
    destruct (display_message_TX now msg st1) as (Dt & Dn).
    fold std in Dt, Dn.
    change (timers st1) with (timers st) in Dt.
    change (next_after st1) with (next_after st) in Dn.
    destruct (controls_fields _ _ (display_message_controls now msg TX st1))
      as (_ & _ & _ & Dl & _). fold std in Dl.
    apply andb_prop in Hc as [Hv Hb].
    rewrite E.
    split; [unfold bounded in *; cbn; auto|].
    split; [exact D2|].
    split.
    { intros Hok. apply (highlight_ok_mono std); [done|cbn; lia|auto]. }
    split.
    { intros Hnp t id p iv. cbn. intros Hq.
      apply lookup_insert_Some in Hq as [[<- _]|[_ Hq]];
        [by rewrite D5, D6|by apply (D4 Hnp) in Hq]. }
    split; [exact Dl|].
    split; [intros [?|?]; done|].
    split.
    { intros _ _ _. cbn. rewrite Dn.
      split; [done|]. split; [by rewrite lookup_insert_eq|congruence]. }
    intros Hnp. exfalso. apply (Hnp (next_after std) can_id payload interval).
    cbn. by rewrite lookup_insert_eq.
Qed.

Lemma update_stats_core now st : core (update_stats now st).2 = core st.
Proof.
  destruct (update_stats_store now st) as (Hm & Hh & _ & Ht & Hn).
  pose proof (update_stats_controls now st) as Hc.
  pose proof (controls_max_messages _ _ Hc) as Hx.
  destruct (controls_fields _ _ Hc) as (Hv & Hb & Hp & _).
  unfold core. by rewrite Hm, Hx, Hh, Hn, Ht, Hp, Hv, Hb.
Qed.

Lemma display_message_invariant now msg direction st :
  invariant st -> invariant (display_message now msg direction st).2.
Proof.
  intros [I1 I2 I3 I4].
  pose proof (display_message_controls now msg direction st) as Hc.
  split.
  - by apply display_message_bounded.
  - by rewrite (controls_max_messages _ _ Hc).
  - by apply display_message_highlight_ok.
  - eapply periodic_ok_extends; [exact Hc|apply display_message_extends|done].
Qed.

(** With the fired timer taken out of the queue, no cycle of the periodic
    job is pending. *)
Lemma fired_no_periodic st t id payload interval :
  periodic_ok st ->
  timers st !! t = Some (CbPeriodic id payload interval) ->
  no_periodic (set_timers (delete t (timers st)) st).
Proof.
  intros Hp Ht t' id' p' iv' Hq. cbn in Hq.
  apply lookup_delete_Some in Hq as [Hne Hq].
  apply Hp in Ht as [Ht _]. apply Hp in Hq as [Hq _]. congruence.
Qed.

Lemma fire_invariant t ts now outcome st :
  invariant st -> invariant (fire t ts now outcome st).
Proof.
  intros Hinv. unfold fire.
  destruct (timers st !! t) as [cb|] eqn:Ht; [|done].
  set (st0 := set_timers (delete t (timers st)) st).
  destruct Hinv as [I1 I2 I3 I4].
  assert (bounded st0) as B0 by exact I1.
  assert (highlight_ok st0) as H0 by exact I3.
  destruct cb as [k|id payload interval].
  - assert (periodic_ok st0) as P0.
    { intros t' id p iv Hq. cbn in Hq.
      apply lookup_delete_Some in Hq as [_ Hq]. by apply I4 in Hq. }
    destruct (fade_highlight_preserves k st0) as (Hc & He & Hh & Hb).
    split; [auto| |auto|].
    + by rewrite (controls_max_messages _ _ Hc).
    + by eapply periodic_ok_extends.
  - pose proof (fired_no_periodic st t id payload interval I4 Ht) as N0.
    fold st0 in N0.
    destruct (schedule_periodic_send_spec id payload interval ts now outcome
                st0) as (S1 & S2 & S3 & S4 & _).
    split; auto. by rewrite S2.
Qed.

Lemma stop_periodic_invariant st :
  bounded st -> max_messages st = 500 -> highlight_ok st ->
  (forall t id payload interval,
      timers st !! t = Some (CbPeriodic id payload interval) ->
      periodic_task_id st = Some t) ->
  invariant (stop_periodic st) /\ no_periodic (stop_periodic st).
Proof.
  intros I1 I2 I3 I4.
  pose proof (stop_periodic_no_periodic st I4) as Hn.
  destruct (stop_periodic_spec st) as (Sm & Sx & Sh & Sn & _).
  split; [|done]. split.
  - unfold bounded. by rewrite Sm, Sx.
  - by rewrite Sx.
  - apply (highlight_ok_mono st); [done|lia|done].
  - by apply no_periodic_periodic_ok.
Qed.

Lemma keeps_sent now msg outcome st :
  keeps st match outcome with
           | SendOk => (display_message now msg TX (bus_send msg outcome st)).2
           | _ => bus_send msg outcome st
           end.
Proof.
  assert (keeps st (bus_send msg outcome st)) as K by (by apply keeps_core).
  destruct outcome; [by apply keeps_display|done|done].
Qed.

Lemma stop_kept_invariant st x :
  bounded st -> max_messages st = 500 -> highlight_ok st -> no_periodic st ->
  keeps st x ->
  invariant (stop_periodic x) /\ no_periodic (stop_periodic x).
Proof.
  intros I1 I2 I3 N (K1 & K2 & K3 & K4 & _).
  apply stop_periodic_invariant; [auto|congruence|auto|].
  intros t id p iv Hq. by apply (K4 N) in Hq.
Qed.

Lemma toggle_periodic_invariant form ts now outcome st :
  invariant st ->
  invariant (toggle_periodic form ts now outcome
               (set_send_periodic_var (negb (send_periodic_var st)) st)).
Proof.
  intros [I1 I2 I3 I4].
  set (st0 := set_send_periodic_var (negb (send_periodic_var st)) st).
  assert (forall t id payload interval,
             timers st0 !! t = Some (CbPeriodic id payload interval) ->
             periodic_task_id st0 = Some t) as J0.
  { intros t id p iv Hq. by apply I4 in Hq as [Hq _]. }
  unfold toggle_periodic.
  destruct (bus st0) eqn:Hb; cbn [negb].
  2: { split; [exact I1|exact I2|exact I3|].
       intros t id p iv Hq. apply I4 in Hq as (_ & _ & Hq).
       change (bus st0) with (bus st) in Hb. congruence. }
  destruct (send_periodic_var st0) eqn:Hv.
  2: { by apply stop_periodic_invariant. }
  assert (no_periodic st0) as N0.
  { intros t id p iv Hq. apply I4 in Hq as (_ & Hq & _).
    change (send_periodic_var st0) with (negb (send_periodic_var st)) in Hv.
    rewrite Hq in Hv. done. }
  destruct (validate_send_inputs form st0) as [[[can_id payload] interval]|].
  2: { by apply stop_periodic_invariant. }
  destruct (float_lt interval 10).
  { by apply stop_periodic_invariant. }
  destruct (finite_or_not interval) as [[q ->]|Hnf].
  - rewrite toggled_finite.
    destruct (schedule_periodic_send_spec can_id payload q ts now outcome
                st0) as (S1 & S2 & S3 & S4 & _).
    split; auto. by rewrite S2.
  - rewrite toggled_not_finite by done.
    rewrite Hv, Hb. cbn [andb].
    by apply (stop_kept_invariant st0), keeps_sent.
Qed.

Lemma step_invariant ev st : invariant st -> invariant (step ev st).
Proof.
  intros Hinv. destruct ev; cbn [step].
  - destruct (paused st); [done|]. by apply display_message_invariant.
  - by apply fire_invariant.
  - eapply invariant_core; [apply update_stats_core|done].
  - destruct Hinv as [I1 I2 I3 I4]. split.
    + unfold bounded. cbn. lia.
    + exact I2.
    + intros k h Hk. cbn in Hk. by rewrite lookup_empty in Hk.
    + exact I4.
  - eapply invariant_core; [|exact Hinv]. unfold reset_stats.
    by rewrite update_stats_core.
  - by apply (invariant_core st).
  - by apply (invariant_core st).
  - by apply (invariant_core st).
  - by apply (invariant_core st).
  - by apply (invariant_core st).
  - by apply (invariant_core st).
  - unfold start_can. destruct (bus st) eqn:Hb; [done|].
    destruct connected; [|done].
    destruct Hinv as [I1 I2 I3 I4]. split; [exact I1|exact I2|exact I3|].
    intros t id p iv Hq. apply I4 in Hq as (_ & _ & Hq). congruence.
  - destruct Hinv as [I1 I2 I3 I4].
    destruct (stop_periodic_invariant st I1 I2 I3) as [[J1 J2 J3 J4] Hn].
    { intros t id p iv Hq. by apply I4 in Hq as [Hq _]. }
    unfold stop_can. split; [exact J1|exact J2|exact J3|].
    intros t id p iv Hq. by apply Hn in Hq.
  - unfold send_once. destruct (negb (bus st)); [done|].
    destruct (validate_send_inputs form st) as [[[can_id payload] interval]|];
      [|done].
    set (st1 := bus_send _ _ st).
    assert (invariant st1) as Hinv1 by (by apply (invariant_core st)).
    destruct outcome; [|done|done].
    by apply display_message_invariant.
  - by apply toggle_periodic_invariant.
Qed.

Lemma run_invariant evs st : invariant st -> invariant (run evs st).
Proof.
  revert st. induction evs as [|ev evs IH]; intros st Hinv; [done|].
  cbn. apply IH. by apply step_invariant.
Qed.

Lemma init_invariant start cfg_bitrate cfg_extended_id cfg_can_fd :
  invariant (init start cfg_bitrate cfg_extended_id cfg_can_fd).
Proof.
  split.
  - unfold bounded. cbn. lia.
  - reflexivity.
  - intros k h Hk. cbn in Hk. by rewrite lookup_empty in Hk.
  - intros t id p iv Hq. cbn in Hq. by rewrite lookup_empty in Hq.
Qed.

Lemma reachable_invariant st : reachable st -> invariant st.
Proof.
  intros (start & b & e & f & evs & ->).
  apply run_invariant, init_invariant.
Qed.

Lemma reachable_step ev st : reachable st -> reachable (step ev st).
Proof.
  intros (start & b & e & f & evs & ->).
  exists start, b, e, f, (evs ++ [ev]). unfold run. by rewrite fold_left_app.
Qed.

(** ** The message store *)

Lemma display_all_invariant calls st :
  invariant st -> invariant (display_all calls st).
Proof.
  revert st. induction calls as [|[[now msg] direction] calls IH];
    intros st Hinv; [done|].
  cbn. apply IH. by apply display_message_invariant.
Qed.

(** C1. A call of [display_message] on a store of at most [max_messages]
    records leaves at most [max_messages] records; so after any sequence of
    calls, and in every state the application can reach, the store holds
    at most 500 records. *)
Theorem store_never_exceeds_capacity :
  (forall now msg direction st,
      length (messages st) <= max_messages st ->
      let st' := (display_message now msg direction st).2 in
      length (messages st') <= max_messages st'
      /\ max_messages st' = max_messages st)
  /\ (forall calls start cfg_bitrate cfg_extended_id cfg_can_fd,
        length (messages
                  (display_all calls
                     (init start cfg_bitrate cfg_extended_id cfg_can_fd)))
        <= 500)
  /\ (forall st, reachable st -> length (messages st) <= 500).
Proof.
  split; [|split].
  - intros now msg direction st Hb st'.
    pose proof (display_message_bounded now msg direction st Hb) as Hb'.
    pose proof (controls_max_messages _ _
                  (display_message_controls now msg direction st)) as Hx.
    split; [exact Hb'|exact Hx].
  - intros calls start b e f.
    destruct (display_all_invariant calls (init start b e f)
                (init_invariant start b e f)) as [I1 I2 _ _].
    unfold bounded in I1. by rewrite I2 in I1.
  - intros st Hr. destruct (reachable_invariant st Hr) as [I1 I2 _ _].
    unfold bounded in I1. by rewrite I2 in I1.
Qed.

Lemma store_never_exceeds_capacity_witness :
  length (messages (run (fill 0 500 ++ [rx 500 x00]) started)) <= 500.
Proof.
  destruct store_never_exceeds_capacity as (_ & _ & H).
  apply (H (run (fill 0 500 ++ [rx 500 x00]) started)).
  exists 0%Q, 500000%Z, false, false, (fill 0 500 ++ [rx 500 x00]).
  reflexivity.
Defined.

(** C2. What the code does when a frame of an identifier that is already
    in the store arrives while the store is full: the eviction block runs
    before the presence test, so the update drops the oldest identifier.
    With room for three, after A, B, C the first update of A moves A to
    the end and forgets its statistics, the second update of A drops B,
    and D then finds room without dropping anything. With the real
    capacity, 500 identifiers followed by the first one again drop that
    identifier's record and statistics and append it anew; one more such
    frame drops the second identifier. *)
Theorem update_at_capacity_evicts :
  let A := rx 0xA x01 in
  let B := rx 0xB x01 in
  let C := rx 0xC x01 in
  let D := rx 0xD x01 in
  ODict.keys (messages (run [A; B; C] cap3)) = ["A"; "B"; "C"]
  /\ ODict.keys (messages (run [A; B; C; A] cap3)) = ["B"; "C"; "A"]
  /\ count <$> id_stats (run [A; B; C] cap3) !! "A" = Some 1
  /\ id_stats (run [A; B; C; A] cap3) !! "A" = None
  /\ ODict.keys (messages (run [A; B; C; A; A] cap3)) = ["C"; "A"]
  /\ ODict.keys (messages (run [A; B; C; A; A; D] cap3)) = ["C"; "A"; "D"]
  /\ (let full := run (fill 0 500) started in
      let again := run [rx 0 x00] full in
      let twice := run [rx 0 x00] again in
      length (messages full) = 500
      /\ ODict.first_key (messages full) = Some "0"
      /\ count <$> id_stats full !! "0" = Some 1
      /\ length (messages again) = 500
      /\ ODict.first_key (messages again) = Some "1"
      /\ last (ODict.keys (messages again)) = Some "0"
      /\ id_stats again !! "0" = None
      /\ length (messages twice) = 499
      /\ ODict.first_key (messages twice) = Some "2"
      /\ ODict.get "1" (messages twice) = None).
Proof. vm_compute. splits; reflexivity. Qed.

(** ** Eviction and the highlight state *)

Lemma evicted_Some st o :
  evicted st = Some o ->
  max_messages st <= length (messages st)
  /\ ODict.first_key (messages st) = Some o
  /\ messages st <> [].
Proof.
  unfold evicted.
  destruct (Nat.leb_spec (max_messages st) (length (messages st))); [|done].
  intros Hk. splits; [done|done|]. intros E. by rewrite E in Hk.
Qed.

(** C3, counterexample. Identifier 0 is highlighted (its fade is timer 0)
    and then evicted by the 501st identifier: its record, statistics and
    highlight entry are gone, and timer 0 is still pending. *)
Lemma eviction_keeps_fade_timer :
  let before := run ([rx 0 x00; rx 0 x01] ++ fill 1 499) started in
  let after_eviction := run [rx 500 x00] before in
  highlighted_rows before !! "0" = Some {| level := 1; after_id := 0 |}
  /\ timers before !! 0 = Some (CbFade "0")
  /\ ODict.get "0" (messages after_eviction) = None
  /\ id_stats after_eviction !! "0" = None
  /\ highlighted_rows after_eviction !! "0" = None
  /\ timers after_eviction !! 0 = Some (CbFade "0").
Proof. vm_compute. splits; reflexivity. Qed.

(** C3, as amended. When a frame evicts another identifier (it is not
    held back by pause or filter, line 712 accepts its timestamp, and the
    eviction block drops [o]), that identifier's record, statistics entry
    and highlight entry are removed together. No timer is cancelled for
    it: the eviction block leaves the timer queue alone, and the only
    timer the call cancels is the pending fade of the arriving frame's own
    identifier. When a fade timer of the evicted identifier fires
    afterwards it is only taken off the queue: [fade_highlight] changes
    nothing for an identifier that is absent from the store or from the
    highlight entries. *)
Theorem eviction_removes_identifier now msg direction st o :
  let can_id := format_X (arbitration_id msg) in
  dropped can_id direction st = false ->
  fromtimestamp_ok (timestamp msg) = true ->
  evicted st = Some o ->
  o <> can_id ->
  let st' := (display_message now msg direction st).2 in
  ODict.get o (messages st') = None
  /\ id_stats st' !! o = None
  /\ highlighted_rows st' !! o = None
  /\ timers (evict_oldest st).2 = timers st
  /\ (forall t cb,
         timers st !! t = Some cb -> t < next_after st ->
         (forall h, highlighted_rows st !! can_id = Some h -> after_id h <> t) ->
         timers st' !! t = Some cb)
  /\ fade_highlight o st' = st'
  /\ (forall t ts now' outcome,
         timers st' !! t = Some (CbFade o) ->
         fire t ts now' outcome st' = set_timers (delete t (timers st')) st').
Proof.
  intros can_id Hd Hts Hev Hne st'.
  destruct (display_message_spec now msg direction st Hd Hts)
    as (_ & Hh & Ht & _ & _ & Hi & Hm & _).
  fold can_id in Hh, Ht, Hi, Hm. fold st' in Hh, Ht, Hi, Hm.
  destruct (evicted_Some st o Hev) as (_ & _ & Hnil).
  destruct (Hm (or_introl Hnil)) as [Hm' _]. rewrite Hev in Hh, Hi, Hm'.
  assert (ODict.get o (messages st') = None) as Hgone.
  { rewrite Hm', ODictFacts.get_set_ne by done. apply ODictFacts.get_del_eq. }
  splits.
  - exact Hgone.
  - rewrite Hi. apply lookup_delete_eq.
  - rewrite Hh. apply lookup_delete_eq.
  - by destruct (evict_oldest_frame st) as (_ & E & _).
  - intros t cb Hcb Hlt Hown. rewrite Ht.
    destruct (starts_highlight _ _ _ _); [|done].
    rewrite lookup_insert_ne by lia.
    destruct (highlighted_rows st !! can_id) as [h|] eqn:Hhl; [|done].
    rewrite lookup_delete_ne; [done|]. by apply Hown.
  - apply fade_highlight_idle. by left.
  - intros t ts now' outcome Hq. unfold fire. rewrite Hq.
    apply fade_highlight_idle. by left.
Qed.

Lemma eviction_removes_identifier_witness :
  let st := run ([rx 0 x00; rx 0 x01] ++ fill 1 499) started in
  let st' := (display_message 1 (frame 500 [x00] 1) RX st).2 in
  ODict.get "0" (messages st') = None
  /\ id_stats st' !! "0" = None
  /\ highlighted_rows st' !! "0" = None
  /\ timers (evict_oldest st).2 = timers st
  /\ (forall t cb,
         timers st !! t = Some cb -> t < next_after st ->
         (forall h, highlighted_rows st !! "1F4" = Some h -> after_id h <> t) ->
         timers st' !! t = Some cb)
  /\ fade_highlight "0" st' = st'
  /\ (forall t ts now' outcome,
         timers st' !! t = Some (CbFade "0") ->
         fire t ts now' outcome st' = set_timers (delete t (timers st')) st').
Proof.
  intros st st'.
  apply (eviction_removes_identifier 1 (frame 500 [x00] 1) RX st "0");
    [by vm_compute | by vm_compute | by vm_compute | by vm_compute].
Defined.

(** ** The highlight machine *)

Lemma starts_highlight_iff can_id payload direction st :
  starts_highlight can_id payload direction st = true
  <-> direction = RX
      /\ highlight_changes_var st = true
      /\ exists previous,
           last_data st !! can_id = Some previous /\ previous <> payload.
Proof.
  unfold starts_highlight, should_highlight.
  change (String.eqb highlight_mode "Message") with false.
  change (String.eqb highlight_mode "Message Change") with true.
  cbv iota.
  destruct direction, (highlight_changes_var st); cbn [is_RX andb];
    try (split; [done|intros (? & ? & ?); done]).
  destruct (last_data st !! can_id) as [previous|].
  - destruct (String.eqb_spec previous payload) as [->|Hne]; cbn [negb].
    + split; [done|]. by intros (_ & _ & p & [= <-] & Hp).
    + split; [eauto 6|done].
  - split; [done|]. by intros (_ & _ & p & ? & _).
Qed.

(** The highlight machine where it works as described. (1)
    [display_message] creates or replaces a highlight entry only
    at level 1, only for an RX frame, only with highlighting switched on,
    and only when the payload text differs from the one recorded for the
    identifier by the previous RX frame; (2) payload texts are equal
    exactly when the payload bytes are, and an RX frame records its text
    while a TX frame records nothing; (3) when such a change arrives for
    an identifier whose fade is pending, the pending timer is cancelled, a
    new fade timer is queued, the row is tagged [changed1], and the entry
    restarts at level 1 with the new timer, provided line 712 accepts the
    timestamp and the call does not evict the identifier itself (that
    case is evaluated after this theorem); the highlight block itself
    always leaves the entry at level 1; (4) a fade step at a level up to 7
    raises the level by one and queues the next step, and at level 8
    removes the entry without queueing anything; (5) in every reachable
    state all levels lie between 1 and 8. *)
Theorem highlight_machine :
  (forall now msg direction st k h,
      let st' := (display_message now msg direction st).2 in
      highlighted_rows st' !! k = Some h ->
      highlighted_rows st !! k <> Some h ->
      level h = 1
      /\ direction = RX
      /\ k = format_X (arbitration_id msg)
      /\ highlight_changes_var st = true
      /\ exists previous,
           last_data st !! k = Some previous
           /\ previous <> data_str (data msg))
  /\ (forall d1 d2, data_str d1 = data_str d2 <-> d1 = d2)
  /\ (forall now msg direction st,
         let can_id := format_X (arbitration_id msg) in
         dropped can_id direction st = false ->
         fromtimestamp_ok (timestamp msg) = true ->
         last_data (display_message now msg direction st).2 !! can_id
         = match direction with
           | RX => Some (data_str (data msg))
           | TX => last_data st !! can_id
           end)
  /\ (forall now msg st h previous,
         let can_id := format_X (arbitration_id msg) in
         reachable st ->
         dropped can_id RX st = false ->
         fromtimestamp_ok (timestamp msg) = true ->
         highlight_changes_var st = true ->
         last_data st !! can_id = Some previous ->
         previous <> data_str (data msg) ->
         highlighted_rows st !! can_id = Some h ->
         let st' := (display_message now msg RX st).2 in
         timers st' !! after_id h = None
         /\ timers st' !! next_after st = Some (CbFade can_id)
         /\ tags <$> ODict.get can_id (messages st') = Some (Changed 1)
         /\ (evicted st <> Some can_id ->
             highlighted_rows st' !! can_id
             = Some {| level := 1; after_id := next_after st |}))
  /\ (forall can_id payload tag st previous,
         highlight_changes_var st = true ->
         last_data st !! can_id = Some previous ->
         previous <> payload ->
         let r := highlight_update can_id payload RX tag st in
         r.1 = Changed 1
         /\ highlighted_rows r.2 !! can_id
            = Some {| level := 1; after_id := next_after st |}
         /\ timers r.2 !! next_after st = Some (CbFade can_id))
  /\ (forall can_id st r h,
         ODict.get can_id (messages st) = Some r ->
         highlighted_rows st !! can_id = Some h ->
         let st' := fade_highlight can_id st in
         (level h <= 7 ->
          highlighted_rows st' !! can_id
          = Some {| level := S (level h); after_id := next_after st |}
          /\ timers st' !! next_after st = Some (CbFade can_id))
         /\ (8 <= level h ->
             highlighted_rows st' !! can_id = None
             /\ timers st' = timers st))
  /\ (forall st k h,
         reachable st -> highlighted_rows st !! k = Some h ->
         1 <= level h <= 8).
Proof.
  splits.
  - intros now msg direction st k h st' Hk Hold. subst st'.
    destruct (dropped (format_X (arbitration_id msg)) direction st) eqn:Hd.
    { by rewrite display_message_dropped in Hk. }
    destruct (fromtimestamp_ok (timestamp msg)) eqn:Hts.
    2: { rewrite display_message_rejected in Hk by done. by destruct Hold. }
    destruct (display_message_spec now msg direction st Hd Hts)
      as (_ & Hh & _).
    rewrite Hh in Hk.
    assert ((if starts_highlight (format_X (arbitration_id msg))
                  (data_str (data msg)) direction st
             then <[format_X (arbitration_id msg) :=
                      {| level := 1; after_id := next_after st |}]>
                    (highlighted_rows st)
             else highlighted_rows st) !! k = Some h) as Hk1.
    { destruct (evicted st); [|done].
      by apply lookup_delete_Some in Hk as [_ Hk]. }
    clear Hk.
    destruct (starts_highlight _ _ _ _) eqn:Hs; [|done].
    apply starts_highlight_iff in Hs as (-> & Hv & previous & Hp & Hne).
    apply lookup_insert_Some in Hk1 as [[<- <-]|[_ Hk1]]; [|done].
    splits; eauto.
  - intros d1 d2. split; [apply data_str_inj|by intros ->].
  - intros now msg direction st can_id Hd Hts.
    destruct (display_message_spec now msg direction st Hd Hts)
      as (_ & _ & _ & _ & Hl & _).
    fold can_id in Hl. rewrite Hl.
    destruct direction; cbn [is_RX]; [by rewrite lookup_insert_eq|done].
  - intros now msg st h previous can_id Hr Hd Hts Hv Hp Hne Hh st'.
    destruct (reachable_invariant st Hr) as [_ Hcap Hok _].
    destruct (Hok _ _ Hh) as [_ Hfresh].
    assert (starts_highlight can_id (data_str (data msg)) RX st = true) as Hs.
    { apply starts_highlight_iff. eauto. }
    destruct (display_message_spec now msg RX st Hd Hts)
      as (_ & Eh & Et & _ & _ & _ & Em & _).
    fold can_id in Eh, Et, Em. fold st' in Eh, Et, Em.
    rewrite Hs in Eh, Et, Em. rewrite Hh in Et.
    splits.
    + rewrite Et, lookup_insert_ne by lia. apply lookup_delete_eq.
    + rewrite Et. apply lookup_insert_eq.
    + destruct Em as [-> _].
      { destruct (messages st); [right; cbn; lia|by left]. }
      by rewrite ODictFacts.get_set_eq.
    + intros Hev. rewrite Eh.
      destruct (evicted st) as [o|]; [|by rewrite lookup_insert_eq].
      rewrite lookup_delete_ne by congruence. by rewrite lookup_insert_eq.
  - intros can_id payload tag st previous Hv Hp Hne r. subst r.
    destruct (highlight_update_spec can_id payload RX tag st)
      as (Ht & Eh & Et & _).
    assert (starts_highlight can_id payload RX st = true) as Hs.
    { apply starts_highlight_iff. eauto. }
    rewrite Hs in Ht, Eh, Et. rewrite Ht, Eh, Et.
    by rewrite !lookup_insert_eq.
  - intros can_id st r h Hr Hh st'.
    destruct (fade_highlight_spec can_id st r h Hr Hh)
      as (_ & _ & _ & Hlo & Hhi). fold st' in Hlo, Hhi.
    split.
    + intros Hle. destruct (Hlo Hle) as (-> & -> & _).
      by rewrite !lookup_insert_eq.
    + intros Hge. destruct (Hhi Hge) as (-> & -> & _).
      by rewrite lookup_delete_eq.
  - intros st k h Hr Hk.
    destruct (reachable_invariant st Hr) as [_ _ Hok _].
    by destruct (Hok _ _ Hk).
Qed.

Lemma highlight_machine_witness :
  let st := run [rx 1 x00; rx 1 x01] started in
  let st' := (display_message 1 (frame 1 [x02] 1) RX st).2 in
  timers st' !! 0 = None
  /\ timers st' !! 1 = Some (CbFade "1")
  /\ tags <$> ODict.get "1" (messages st') = Some (Changed 1)
  /\ (evicted st <> Some "1" ->
      highlighted_rows st' !! "1" = Some {| level := 1; after_id := 1 |}).
Proof.
  intros st st'.
  destruct highlight_machine as (_ & _ & _ & H & _).
  apply (H 1%Q (frame 1 [x02] 1) st {| level := 1; after_id := 0 |} "01").
  - exists 0%Q, 500000%Z, false, false, [rx 1 x00; rx 1 x01]. reflexivity.
  - by vm_compute.
  - by vm_compute.
  - reflexivity.
  - by vm_compute.
  - done.
  - by vm_compute.
Defined.

(** The fade from start to end: a changed payload sets level 1, seven
    timer steps lead to level 8, the eighth returns to idle. A change
    during the fade restarts at level 1, and the timer it cancelled does
    nothing when its id comes up. *)
Example fade_chain :
  let changed := run [rx 1 x00; rx 1 x01] started in
  let faded := run (map tick (seq 0 7)) changed in
  let restarted := run [tick 0; tick 1; rx 1 x02] changed in
  level <$> highlighted_rows changed !! "1" = Some 1
  /\ level <$> highlighted_rows faded !! "1" = Some 8
  /\ highlighted_rows (run [tick 7] faded) !! "1" = None
  /\ timers (run [tick 7] faded) = ∅
  /\ level <$> highlighted_rows (run [tick 0; tick 1] changed) !! "1" = Some 3
  /\ level <$> highlighted_rows restarted !! "1" = Some 1
  /\ level <$> highlighted_rows (run [tick 2] restarted) !! "1" = Some 1
  /\ level <$> highlighted_rows (run [tick 3] restarted) !! "1" = Some 2.
Proof. vm_compute. splits; reflexivity. Qed.

(** C4. The code where the restart fails. The store is full, identifier
    0 is its oldest row and its fade is pending (timer 0). An RX frame of
    identifier 0 with a changed payload arrives. The highlight block
    cancels timer 0, queues timer 1 and writes the entry at level 1; the
    eviction block, which does not test that the identifier is new, then
    drops identifier 0 itself and its highlight entry with it; the row is
    stored again at the end, tagged [changed1]. So the sequence does not
    restart at level 1: there is no entry, timer 1 does nothing when it
    runs, and the row keeps its tag, also through a later frame with the
    same payload. *)
Theorem highlight_lost_on_self_eviction :
  let before := run ([rx 0 x00; rx 0 x01] ++ fill 1 499) started in
  let changed := run [rx 0 x02] before in
  let faded := run [tick 1] changed in
  let repeated := run [rx 0 x02] faded in
  length (messages before) = max_messages before
  /\ evicted before = Some "0"
  /\ highlighted_rows before !! "0" = Some {| level := 1; after_id := 0 |}
  /\ timers before !! 0 = Some (CbFade "0")
  /\ last_data before !! "0" = Some (data_str [x01])
  /\ timers changed !! 0 = None
  /\ timers changed !! 1 = Some (CbFade "0")
  /\ highlighted_rows changed !! "0" = None
  /\ tags <$> ODict.get "0" (messages changed) = Some (Changed 1)
  /\ timers faded !! 1 = None
  /\ highlighted_rows faded !! "0" = None
  /\ tags <$> ODict.get "0" (messages faded) = Some (Changed 1)
  /\ highlighted_rows repeated !! "0" = None
  /\ tags <$> ODict.get "0" (messages repeated) = Some (Changed 1).
Proof. vm_compute. splits; reflexivity. Qed.

(** ** The periodic job *)

Lemma display_message_ok now msg direction st :
  0 < max_messages st -> bitrate st <> 0%Z ->
  fromtimestamp_ok (timestamp msg) = true ->
  (display_message now msg direction st).1 = Ok.
Proof.
  intros Hmax Hb Hts.
  destruct (dropped (format_X (arbitration_id msg)) direction st) eqn:Hd.
  - by rewrite display_message_dropped.
  - destruct (display_message_spec now msg direction st Hd Hts)
      as (_ & _ & _ & _ & _ & _ & Hm & _).
    apply Hm; [|done].
    destruct (messages st); [right; cbn; lia|by left].
Qed.

Lemma passive_step ev st :
  passive ev = true -> no_periodic st ->
  no_periodic (step ev st) /\ tx_log (step ev st) = tx_log st.
Proof.
  intros Hp Hn. destruct ev; try done; cbn [step].
  - destruct (paused st); [done|].
    split; [eapply no_periodic_extends;
            [apply display_message_extends|done]|].
    by destruct (controls_fields _ _ (display_message_controls now msg RX st))
      as (_ & _ & _ & ? & _).
  - unfold fire. destruct (timers st !! t) as [[k|id p iv]|] eqn:Ht;
      [|by apply Hn in Ht|done].
    set (st0 := set_timers (delete t (timers st)) st).
    assert (no_periodic st0) as N0.
    { intros t' id p iv Hq. cbn in Hq.
      apply lookup_delete_Some in Hq as [_ Hq]. by apply Hn in Hq. }
    destruct (fade_highlight_preserves k st0) as (Hc & He & _).
    split; [by eapply no_periodic_extends|].
    by destruct (controls_fields _ _ Hc) as (_ & _ & _ & ? & _).
  - pose proof (update_stats_core now st) as Hc.
    destruct (controls_fields _ _ (update_stats_controls now st))
      as (_ & _ & _ & Hl & _).
    split; [|done]. intros t id p iv. unfold core in Hc.
    injection Hc as _ _ _ _ -> _ _ _. apply Hn.
  - unfold reset_stats.
    set (st0 := set_bus_load _ _).
    pose proof (update_stats_core now st0) as Hc.
    destruct (controls_fields _ _ (update_stats_controls now st0))
      as (_ & _ & _ & Hl & _).
    split; [|done]. intros t id p iv. unfold core in Hc.
    injection Hc as _ _ _ _ -> _ _ _. apply Hn.
  - unfold start_can. by destruct (bus st), connected.
  - unfold stop_can.
    destruct (stop_periodic_keeps st st (keeps_refl st)) as (_ & _ & _ & H4).
    split; [|apply stop_periodic_tx_log].
    intros t id p iv. apply (H4 Hn t id p iv).
Qed.

Lemma passive_run evs st :
  forallb passive evs = true -> no_periodic st ->
  no_periodic (run evs st) /\ tx_log (run evs st) = tx_log st.
Proof.
  revert st. induction evs as [|ev evs IH]; intros st Hp Hn; [done|].
  cbn in Hp. apply andb_prop in Hp as [Hev Hp].
  destruct (passive_step ev st Hev Hn) as [Hn' Hl].
  destruct (IH (step ev st) Hp Hn') as [Hn'' Hl'].
  change (run (ev :: evs) st) with (run evs (step ev st)).
  split; [done|congruence].
Qed.

Lemma validate_interval form st can_id payload interval :
  validate_send_inputs form st = Some (can_id, payload, interval) ->
  interval_entry form = Some interval /\ float_le0 interval = false.
Proof.
  unfold validate_send_inputs. intros H.
  destruct (id_entry form); [|done].
  destruct (_ || _); [done|].
  destruct (parse_data _ _); [|done].
  destruct (_ <? _)%nat; [done|].
  destruct (interval_entry form) as [iv|]; [|done].
  destruct (float_le0 iv) eqn:E; [done|]. by injection H as _ _ <-.
Qed.

(** C8. (1) Ticking "Send Periodically" with an interval entry below 10,
    also 0, a negative number or "-inf", and whatever the other entries
    hold, sends nothing, leaves the job switched off and no cycle
    pending. (2) Ticking it with the bus open, a valid form and a finite
    interval of at least 10 runs the first cycle, which returns normally.
    (3) Every cycle, the first and each one run by its timer, calls
    [bus.send] exactly once; when the send succeeds (and showing the
    frame does not raise) the next cycle is queued, and a cycle is
    pending afterwards only if the send succeeded; when the send fails
    the job is switched off, no cycle is pending, and nothing is sent by
    whatever happens afterwards, short of the user sending again.
    (4) The entries "inf" and "nan" pass the validation and the test
    against 10: the first cycle calls [bus.send] once, then
    [int(interval)] raises, the job is switched off, and no cycle is
    pending, so here too nothing more is sent. *)
Theorem periodic_job :
  (forall form ts now outcome st interval,
      reachable st ->
      interval_entry form = Some interval ->
      float_lt interval 10 = true ->
      let st' := step (EvClickPeriodic form ts now outcome) st in
      tx_log st' = tx_log st
      /\ send_periodic_var st' = false
      /\ no_periodic st')
  /\ (forall form ts now outcome st can_id payload interval,
         reachable st ->
         bus st = true -> send_periodic_var st = false ->
         validate_send_inputs form st
         = Some (can_id, payload, Finite interval) ->
         (10 <= interval)%Q ->
         (Ok, step (EvClickPeriodic form ts now outcome) st)
         = schedule_periodic_send can_id payload (Finite interval) ts now
             outcome (set_send_periodic_var true st))
  /\ (forall can_id payload interval ts now outcome st,
         reachable st ->
         bus st = true ->
         no_periodic st ->
         let st' := (schedule_periodic_send can_id payload (Finite interval)
                       ts now outcome (set_send_periodic_var true st)).2 in
         let msg := make_message can_id payload ts st in
         tx_log st' = tx_log st ++ [(msg, outcome)]
         /\ (outcome = SendOk -> bitrate st <> 0%Z ->
             fromtimestamp_ok ts = true ->
             periodic_task_id st' = Some (next_after st)
             /\ timers st' !! next_after st
                = Some (CbPeriodic can_id payload interval))
         /\ (~ no_periodic st' -> outcome = SendOk)
         /\ (outcome <> SendOk ->
             send_periodic_var st' = false
             /\ periodic_task_id st' = None
             /\ no_periodic st'
             /\ forall evs,
                  forallb passive evs = true ->
                  tx_log (run evs st') = tx_log st'))
  /\ (forall t ts now outcome st can_id payload interval,
         reachable st ->
         timers st !! t = Some (CbPeriodic can_id payload interval) ->
         let st' := step (EvTimer t ts now outcome) st in
         let msg := make_message can_id payload ts st in
         tx_log st' = tx_log st ++ [(msg, outcome)]
         /\ (outcome = SendOk -> bitrate st <> 0%Z ->
             fromtimestamp_ok ts = true ->
             periodic_task_id st' = Some (next_after st)
             /\ timers st' !! next_after st
                = Some (CbPeriodic can_id payload interval))
         /\ (~ no_periodic st' -> outcome = SendOk)
         /\ (outcome <> SendOk ->
             send_periodic_var st' = false
             /\ periodic_task_id st' = None
             /\ no_periodic st'
             /\ forall evs,
                  forallb passive evs = true ->
                  tx_log (run evs st') = tx_log st'))
  /\ (forall form ts now outcome st can_id payload interval,
         reachable st ->
         bus st = true -> send_periodic_var st = false ->
         validate_send_inputs form st = Some (can_id, payload, interval) ->
         (forall q, interval <> Finite q) ->
         let st' := step (EvClickPeriodic form ts now outcome) st in
         let msg := make_message can_id payload ts st in
         (interval = PosInf \/ interval = NaN)
         /\ float_lt interval 10 = false
         /\ tx_log st' = tx_log st ++ [(msg, outcome)]
         /\ send_periodic_var st' = false
         /\ periodic_task_id st' = None
         /\ no_periodic st'
         /\ forall evs,
              forallb passive evs = true ->
              tx_log (run evs st') = tx_log st').
Proof.
  assert (forall can_id payload interval ts now outcome st0 st,
             max_messages st0 = 500 -> bitrate st0 = bitrate st ->
             tx_log st0 = tx_log st -> next_after st0 = next_after st ->
             make_message can_id payload ts st0
             = make_message can_id payload ts st ->
             send_periodic_var st0 && bus st0 = true ->
             no_periodic st0 ->
             let st' := (schedule_periodic_send can_id payload
                           (Finite interval) ts now outcome st0).2 in
             let msg := make_message can_id payload ts st in
             tx_log st' = tx_log st ++ [(msg, outcome)]
             /\ (outcome = SendOk -> bitrate st <> 0%Z ->
                 fromtimestamp_ok ts = true ->
                 periodic_task_id st' = Some (next_after st)
                 /\ timers st' !! next_after st
                    = Some (CbPeriodic can_id payload interval))
             /\ (~ no_periodic st' -> outcome = SendOk)
             /\ (outcome <> SendOk ->
                 send_periodic_var st' = false
                 /\ periodic_task_id st' = None
                 /\ no_periodic st'
                 /\ forall evs,
                      forallb passive evs = true ->
                      tx_log (run evs st') = tx_log st')) as Hcycle.
  { intros can_id payload interval ts now outcome st0 st Hmax Hbit Hlog Hnext
      Hmsg Hvb N0 st' msg.
    destruct (schedule_periodic_send_spec can_id payload interval ts now
                outcome st0) as (_ & _ & _ & _ & Sl & Sfail & Sok & _).
    fold st' in Sl, Sfail, Sok. rewrite Hvb, Hmsg, Hlog in Sl.
    rewrite Hnext in Sok. fold msg in Sl.
    splits.
    - exact Sl.
    - intros Ho Hb Hts. destruct (Sok Hvb Ho) as (? & ? & _); [|done].
      apply display_message_ok.
      + change (max_messages (bus_send _ _ st0)) with (max_messages st0). lia.
      + change (bitrate (bus_send _ _ st0)) with (bitrate st0). congruence.
      + exact Hts.
    - intros Hnp. destruct outcome; [done| |];
        destruct Hnp; by apply Sfail; [left|].
    - intros Ho. destruct (Sfail (or_introl Ho) N0) as (Hn' & Hv' & Hp').
      splits; [done|done|done|].
      intros evs Hpass. by apply passive_run. }
  splits.
  - intros form ts now outcome st interval Hr Hiv Hlt st'.
    subst st'. cbn [step].
    set (st0 := set_send_periodic_var (negb (send_periodic_var st)) st).
    destruct (reachable_invariant st Hr) as [I1 I2 I3 I4].
    assert (forall t id p iv,
               timers st0 !! t = Some (CbPeriodic id p iv) ->
               periodic_task_id st0 = Some t) as J0.
    { intros t id p iv Hq. by apply I4 in Hq as [Hq _]. }
    pose proof (stop_periodic_no_periodic st0 J0) as Hstop.
    destruct (stop_periodic_spec st0)
      as (_ & _ & _ & _ & _ & Sl & Sv & _).
    unfold toggle_periodic.
    destruct (bus st0) eqn:Hb; cbn [negb].
    2: { splits; [done|done|].
         intros t id p iv Hq. apply I4 in Hq as (_ & _ & Hq).
         change (bus st0) with (bus st) in Hb. congruence. }
    destruct (send_periodic_var st0); [|done].
    destruct (validate_send_inputs form st0) as [[[c p] iv]|] eqn:Hval;
      [|done].
    apply validate_interval in Hval as [Hval _].
    rewrite Hiv in Hval. injection Hval as <-. by rewrite Hlt.
  - intros form ts now outcome st can_id payload interval Hr Hb Hv Hval Hge.
    cbn [step]. rewrite Hv. cbn [negb]. unfold toggle_periodic.
    change (bus (set_send_periodic_var true st)) with (bus st).
    change (validate_send_inputs form (set_send_periodic_var true st))
      with (validate_send_inputs form st).
    rewrite Hb, Hval. cbn [negb send_periodic_var set_send_periodic_var
                           float_lt].
    assert (Qlt_bool interval 10 = false) as -> by (by apply Qlt_bool_false).
    rewrite toggled_finite.
    pose proof (schedule_periodic_send_finite can_id payload interval ts now
                  outcome (set_send_periodic_var true st)) as Hok.
    destruct (schedule_periodic_send _ _ _ _ _ _ _) as [r s].
    cbn in Hok. by subst r.
  - intros can_id payload interval ts now outcome st Hr Hb N0.
    destruct (reachable_invariant st Hr) as [_ I2 _ _].
    apply Hcycle; try done.
  - intros t ts now outcome st can_id payload interval Hr Ht.
    destruct (reachable_invariant st Hr) as [_ I2 _ I4].
    cbn [step]. unfold fire. rewrite Ht.
    destruct (I4 _ _ _ _ Ht) as (_ & Hv & Hb).
    apply Hcycle; try done.
    + change (send_periodic_var (set_timers _ st) && bus (set_timers _ st))
        with (send_periodic_var st && bus st).
      by rewrite Hv, Hb.
    + by eapply fired_no_periodic.
  - intros form ts now outcome st can_id payload interval Hr Hb Hv Hval Hnf
      st' msg.
    destruct (reachable_invariant st Hr) as [I1 I2 I3 I4].
    destruct (validate_interval _ _ _ _ _ Hval) as [_ Hpos].
    assert (interval = PosInf \/ interval = NaN) as Hwhich.
    { destruct interval as [q| | |]; [by destruct (Hnf q)|auto|done|auto]. }
    assert (float_lt interval 10 = false) as Hlt.
    { by destruct Hwhich as [-> | ->]. }
    set (st0 := set_send_periodic_var true st).
    assert (no_periodic st0) as N0.
    { intros t id p iv Hq. apply I4 in Hq as (_ & Hq & _). congruence. }
    set (x := match outcome with
              | SendOk => (display_message now (make_message can_id payload ts
                                                  st0) TX
                             (bus_send (make_message can_id payload ts st0)
                                outcome st0)).2
              | _ => bus_send (make_message can_id payload ts st0) outcome st0
              end).
    assert (st' = stop_periodic x) as E.
    { subst st'. cbn [step]. rewrite Hv. cbn [negb]. fold st0.
      unfold toggle_periodic.
      change (bus st0) with (bus st).
      change (validate_send_inputs form st0)
        with (validate_send_inputs form st).
      rewrite Hb, Hval. cbn [negb]. change (send_periodic_var st0) with true.
      rewrite Hlt, toggled_not_finite by done.
      change (send_periodic_var st0) with true.
      change (bus st0) with (bus st). by rewrite Hb. }
    assert (keeps st0 x) as Kx by apply keeps_sent.
    assert (tx_log x = tx_log st ++ [(msg, outcome)]) as Hlog.
    { subst x. destruct outcome; [|done|done].
      by destruct (controls_fields _ _
                     (display_message_controls now
                        (make_message can_id payload ts st0) TX
                        (bus_send (make_message can_id payload ts st0)
                           SendOk st0))) as (_ & _ & _ & -> & _). }
    destruct (stop_kept_invariant st0 x I1 I2 I3 N0 Kx) as [_ Hn'].
    destruct (stop_periodic_spec x) as (_ & _ & _ & _ & _ & Sl & Sv & Sp & _).
    rewrite E. splits; [done|done|congruence|done|done|done|].
    intros evs Hpass. by apply passive_run.
Qed.

Lemma periodic_job_witness :
  let st := run [EvStart true; EvClickPeriodic (form_every 10) 1 1 SendOk]
              started in
  let st' := step (EvTimer 0 2 2 SendCanError) st in
  tx_log st'
  = tx_log st ++ [(make_message 0x123 [x01; x02] 2 st, SendCanError)]
  /\ send_periodic_var st' = false
  /\ periodic_task_id st' = None.
Proof.
  intros st st'.
  destruct periodic_job as (_ & _ & _ & H & _).
  destruct (H 0 2%Q 2%Q SendCanError st 0x123%Z [x01; x02] 10%Q)
    as (Hlog & _ & _ & Hfail).
  - exists 0%Q, 500000%Z, false, false,
      [EvStart true; EvClickPeriodic (form_every 10) 1 1 SendOk].
    reflexivity.
  - by vm_compute.
  - destruct Hfail as (Hv & Hp & _); [done|]. by splits.
Defined.

(** The job in action. An interval of 9 ms starts nothing. With 10 ms,
    three good cycles send three frames, which reach the store as TX
    traffic. When the second cycle fails, two sends have been tried, the
    job is off, and later timer and frame events send nothing more. *)
Example periodic_cycles :
  let connected := run [EvStart true] started in
  let rejected :=
    run [EvClickPeriodic (form_every 9) 1 1 SendOk] connected in
  let three :=
    run [EvClickPeriodic (form_every 10) 1 1 SendOk; tick 0; tick 1]
      connected in
  let failed :=
    run [EvClickPeriodic (form_every 10) 1 1 SendOk;
         EvTimer 0 2 2 SendCanError] connected in
  let later := run [tick 0; tick 1; tick 2; rx 1 x00; tick 3] failed in
  tx_log rejected = [] /\ timers rejected = ∅
  /\ send_periodic_var rejected = false
  /\ map snd (tx_log three) = [SendOk; SendOk; SendOk]
  /\ count <$> id_stats three !! "123" = Some 3
  /\ timers three !! 2 = Some (CbPeriodic 0x123 [x01; x02] 10)
  /\ map snd (tx_log failed) = [SendOk; SendCanError]
  /\ timers failed = ∅
  /\ send_periodic_var failed = false
  /\ map snd (tx_log later) = [SendOk; SendCanError].
Proof. vm_compute. splits; reflexivity. Qed.

(** ** Validated sends *)

(** The first cycle started by [toggle_periodic] calls [bus.send] once,
    with the frame built from the validated entries. *)
Lemma toggle_sends_once form ts now outcome st can_id payload interval :
  bus st = true -> send_periodic_var st = true ->
  validate_send_inputs form st = Some (can_id, payload, interval) ->
  float_lt interval 10 = false ->
  tx_log (toggle_periodic form ts now outcome st)
  = tx_log st ++ [(make_message can_id payload ts st, outcome)].
Proof.
  intros Hb Hv Hval Hlt. unfold toggle_periodic.
  rewrite Hb, Hv, Hval, Hlt. cbn [negb].
  set (msg := make_message can_id payload ts st).
  destruct (finite_or_not interval) as [[q ->]|Hnf].
  - rewrite toggled_finite.
    destruct (schedule_periodic_send_spec can_id payload q ts now outcome st)
      as (_ & _ & _ & _ & Sl & _).
    by rewrite Hv, Hb in Sl.
  - rewrite toggled_not_finite by done. rewrite Hv, Hb. cbn [andb].
    rewrite stop_periodic_tx_log. fold msg.
    destruct outcome; [|done|done].
    by destruct (controls_fields _ _
                   (display_message_controls now msg TX
                      (bus_send msg SendOk st))) as (_ & _ & _ & -> & _).
Qed.

(** C10. In [validate_send_inputs] a data entry that is empty (once its
    spaces are removed) is accepted, with the other fields valid, and
    yields [max_bytes] zero bytes: 8 in classic mode, 64 in FD mode. A
    non-empty entry is accepted only if it consists of an even number of
    hexadecimal digits giving at most [max_bytes] bytes, and then yields
    those bytes; otherwise the validation fails. When the validation fails
    neither [send_once] nor [toggle_periodic] sends anything. With a
    blank data entry and the bus open, [send_once] and the first cycle of
    the periodic job hand the bus one frame whose data are [max_bytes]
    zero bytes, with the identifier of the form, the clock as its
    timestamp and the frame format of the check boxes. *)
Theorem send_validation (form : SendForm) (st : State) :
  let text := remove_spaces (data_entry form) in
  let zeros := replicate (max_bytes st) x00 in
  (text = "" ->
   forall can_id interval,
     id_entry form = Some can_id -> (0 <= can_id <= max_id st)%Z ->
     interval_entry form = Some interval -> float_le0 interval = false ->
     validate_send_inputs form st = Some (can_id, zeros, interval))
  /\ max_bytes st = (if can_fd_var st then 64 else 8)
  /\ length zeros = max_bytes st
  /\ (forall b, In b zeros -> b = x00)
  /\ (text <> "" ->
      forall can_id payload interval,
        validate_send_inputs form st = Some (can_id, payload, interval) ->
        all_hex text = true
        /\ String.length text mod 2 = 0
        /\ fromhex text = Some payload
        /\ String.length text = 2 * length payload
        /\ length payload <= max_bytes st)
  /\ (text <> "" ->
      all_hex text = false
      \/ String.length text mod 2 <> 0
      \/ 2 * max_bytes st < String.length text ->
      validate_send_inputs form st = None)
  /\ (validate_send_inputs form st = None ->
      forall ts now outcome,
        send_once form ts now outcome st = st
        /\ tx_log (toggle_periodic form ts now outcome st) = tx_log st)
  /\ (text = "" ->
      forall can_id interval ts now outcome,
        id_entry form = Some can_id -> (0 <= can_id <= max_id st)%Z ->
        interval_entry form = Some interval -> float_le0 interval = false ->
        bus st = true ->
        let sent :=
          {| arbitration_id := Z.to_N can_id; data := zeros;
             timestamp := ts; is_extended_id := extended_id_var st;
             is_fd := can_fd_var st |} in
        tx_log (send_once form ts now outcome st)
        = tx_log st ++ [(sent, outcome)]
        /\ (send_periodic_var st = true -> float_lt interval 10 = false ->
            tx_log (toggle_periodic form ts now outcome st)
            = tx_log st ++ [(sent, outcome)])).
Proof.
  intros text zeros.
  assert (text = "" ->
          forall can_id interval,
            id_entry form = Some can_id -> (0 <= can_id <= max_id st)%Z ->
            interval_entry form = Some interval ->
            float_le0 interval = false ->
            validate_send_inputs form st
            = Some (can_id, zeros, interval)) as Hblank.
  { intros Htext can_id interval Hid [Hlo Hhi] Hiv Hpos.
    unfold validate_send_inputs, parse_data. fold text.
    rewrite Hid, Htext, Hiv. cbn [String.eqb].
    assert ((can_id <? 0)%Z || (max_id st <? can_id)%Z = false) as -> by lia.
    by rewrite length_replicate, Nat.ltb_irrefl, Hpos. }
  split; [exact Hblank|].
  split; [reflexivity|]. split; [apply length_replicate|].
  split.
  { intros b Hb. subst zeros. apply list_elem_of_In in Hb.
    by apply elem_of_replicate in Hb as [-> _]. }
  split; [|split; [|split]].
  - intros Htext can_id payload interval.
    unfold validate_send_inputs, parse_data. fold text.
    apply String.eqb_neq in Htext. rewrite Htext.
    destruct (id_entry form); [|done].
    destruct (_ || _); [done|].
    destruct (all_hex text); [|done]. cbn [negb].
    destruct (Nat.eqb_spec (String.length text mod 2) 0) as [Hev|]; [|done].
    cbn [negb].
    destruct (fromhex text) as [bs|] eqn:Hbs; [|done].
    destruct (Nat.ltb_spec (max_bytes st) (length bs)); [done|].
    destruct (interval_entry form); [|done].
    destruct (float_le0 _); [done|]. intros [= _ <- _].
    repeat split; auto using fromhex_length.
  - intros Htext Hbad.
    unfold validate_send_inputs, parse_data. fold text.
    apply String.eqb_neq in Htext. rewrite Htext.
    destruct (id_entry form); [|done].
    destruct (_ || _); [done|].
    destruct (all_hex text) eqn:Hhex; [|done]. cbn [negb].
    destruct (Nat.eqb_spec (String.length text mod 2) 0) as [Hev|]; [|done].
    cbn [negb].
    destruct Hbad as [?|[?|Hlong]]; [done|done|].
    destruct (fromhex_all_hex (String.length text / 2) text)
      as (bs & -> & Hl); [|done|].
    { pose proof (Nat.div_mod_eq (String.length text) 2). lia. }
    destruct (Nat.ltb_spec (max_bytes st) (length bs)); [done|].
    pose proof (Nat.div_mod_eq (String.length text) 2). lia.
  - intros Hnone ts now outcome. unfold send_once, toggle_periodic.
    rewrite Hnone. split; [by destruct (negb (bus st))|].
    destruct (negb (bus st)); [reflexivity|].
    destruct (send_periodic_var st); apply stop_periodic_tx_log.
  - intros Htext can_id interval ts now outcome Hid Hrange Hiv Hpos Hbus sent.
    pose proof (Hblank Htext can_id interval Hid Hrange Hiv Hpos) as Hval.
    change sent with (make_message can_id zeros ts st).
    split.
    + unfold send_once. rewrite Hbus, Hval. cbn [negb].
      set (msg := make_message _ _ _ _).
      destruct outcome; [|reflexivity|reflexivity].
      by destruct (controls_fields _ _
                     (display_message_controls now msg TX
                        (bus_send msg SendOk st))) as (_ & _ & _ & ? & _).
    + intros Hv Hlt. by apply (toggle_sends_once _ _ _ _ _ _ _ interval).
Qed.

Lemma send_validation_witness :
  let form := {| id_entry := Some 0x123%Z; data_entry := "  ";
                 interval_entry := Some (Finite 1000) |} in
  let st := run [EvStart true] started in
  validate_send_inputs form st
  = Some (0x123%Z, [x00; x00; x00; x00; x00; x00; x00; x00], Finite 1000)
  /\ tx_log (send_once form 5 5 SendOk st)
     = [({| arbitration_id := 0x123;
            data := [x00; x00; x00; x00; x00; x00; x00; x00];
            timestamp := 5; is_extended_id := false; is_fd := false |},
         SendOk)].
Proof.
  intros form st.
  destruct (send_validation form st) as (H1 & _ & _ & _ & _ & _ & _ & H8).
  split.
  - apply (H1 eq_refl 0x123%Z (Finite 1000)); [reflexivity|by vm_compute|
                                               reflexivity|reflexivity].
  - destruct (H8 eq_refl 0x123%Z (Finite 1000) 5%Q 5%Q SendOk) as [H _];
      [reflexivity|by vm_compute|reflexivity|reflexivity|reflexivity|].
    exact H.
Defined.

(** * Further properties *)

(** ** Identifier keys and payload texts *)

Lemma hex_uint_str_inj (u1 u2 : Hexadecimal.uint) :
  hex_uint_str u1 = hex_uint_str u2 -> u1 = u2.
Proof.
  revert u2. induction u1 as [|u1 IH|u1 IH|u1 IH|u1 IH|u1 IH|u1 IH|u1 IH|u1 IH
                             |u1 IH|u1 IH|u1 IH|u1 IH|u1 IH|u1 IH|u1 IH|u1 IH];
    intros [|u2|u2|u2|u2|u2|u2|u2|u2|u2|u2|u2|u2|u2|u2|u2|u2]; cbn;
    intros H; try discriminate H; try reflexivity;
    injection H as H; f_equal; by apply IH.
Qed.

(** X1. The dictionary key [f"{arbitration_id:X}"] determines the
    identifier: two frames share a key exactly when they have the same
    arbitration id. *)
Theorem can_id_identifies (n m : N) : format_X n = format_X m <-> n = m.
Proof.
  split; [|by intros ->]. unfold format_X. intros H.
  by apply HexadecimalN.Unsigned.to_uint_inj, hex_uint_str_inj.
Qed.

Lemma hex_val_space : hex_val " " = None.
Proof. reflexivity. Qed.

Lemma unhex2_chars (c1 c2 : ascii) (b : byte) :
  unhex2 c1 c2 = Some b ->
  is_hex_char c1 = true /\ is_hex_char c2 = true
  /\ c1 <> " "%char /\ c2 <> " "%char.
Proof.
  unfold unhex2, is_hex_char.
  destruct (hex_val c1) eqn:H1; [|done].
  destruct (hex_val c2) eqn:H2; [|done].
  intros _. splits; [done|done| |]; intros ->; by rewrite hex_val_space in *.
Qed.

Lemma data_str_parses (d : list byte) :
  let text := remove_spaces (data_str d) in
  fromhex text = Some d
  /\ all_hex text = true
  /\ String.length text = 2 * length d.
Proof.
  induction d as [|b rest IH]; [done|].
  destruct (data_str_cons b rest) as (c1 & c2 & Hu & ->).
  destruct (unhex2_chars c1 c2 b Hu) as (Hh1 & Hh2 & Hs1 & Hs2).
  cbn [remove_spaces].
  apply Ascii.eqb_neq in Hs1, Hs2. rewrite Hs1, Hs2.
  assert (remove_spaces
            match rest with
            | [] => ""
            | _ :: _ => String " " (data_str rest)
            end = remove_spaces (data_str rest)) as ->.
  { by destruct rest. }
  destruct IH as (Hf & Ha & Hl). cbn [fromhex all_hex String.length length].
  rewrite Hu, Hf, Hh1, Hh2, Ha, Hl. splits; [done|done|lia].
Qed.

(** X2. The payload text shown in the Data column parses back to the
    payload: [bytes.fromhex] of the text without its spaces gives the same
    bytes, and a non-empty payload typed into the data entry in that form
    is what [validate_send_inputs] hands to the send paths. *)
Theorem payload_text_round_trip :
  (forall d, fromhex (remove_spaces (data_str d)) = Some d)
  /\ (forall d st, d <> [] -> parse_data (data_str d) st = Some d)
  /\ (forall d form st can_id interval,
         d <> [] -> length d <= max_bytes st ->
         data_entry form = data_str d ->
         id_entry form = Some can_id -> (0 <= can_id <= max_id st)%Z ->
         interval_entry form = Some interval -> float_le0 interval = false ->
         validate_send_inputs form st = Some (can_id, d, interval)).
Proof.
  assert (forall d st, d <> [] -> parse_data (data_str d) st = Some d) as Hp.
  { intros d st Hne. unfold parse_data.
    destruct (data_str_parses d) as (Hf & Ha & Hl).
    destruct (String.eqb_spec (remove_spaces (data_str d)) "") as [E|_].
    { rewrite E in Hl. destruct d; [done|cbn in Hl; lia]. }
    rewrite Ha, Hl. cbn [negb].
    assert ((2 * length d) mod 2 = 0) as ->; [|done].
    rewrite Nat.mul_comm. apply Nat.Div0.mod_mul. }
  splits.
  - intros d. by destruct (data_str_parses d).
  - exact Hp.
  - intros d form st can_id interval Hne Hlen Hd Hid [Hlo Hhi] Hiv Hpos.
    unfold validate_send_inputs. rewrite Hid, Hd, (Hp d st Hne), Hiv.
    assert ((can_id <? 0)%Z || (max_id st <? can_id)%Z = false) as -> by lia.
    assert ((max_bytes st <? length d)%nat = false) as ->
        by (apply Nat.ltb_ge; lia).
    by rewrite Hpos.
Qed.

Lemma payload_text_round_trip_witness :
  parse_data (data_str [x01; xab; xff]) started = Some [x01; xab; xff].
Proof.
  destruct payload_text_round_trip as (_ & H & _).
  by apply (H [x01; xab; xff] started).
Defined.

(** ** Formatting the data entry *)

Lemma string_pair_ind (P : string -> Prop) :
  P "" -> (forall c, P (String c "")) ->
  (forall c1 c2 s, P s -> P (String c1 (String c2 s))) ->
  forall s, P s.
Proof.
  intros H0 H1 H2 s.
  enough (P s /\ forall c, P (String c s)) by tauto.
  induction s as [|c s [IH1 IH2]]; [by split|].
  split; [apply IH2|]. intros c'. by apply H2.
Qed.

Lemma is_lower_hex_facts (c : ascii) :
  is_lower_hex c = true ->
  is_hex_char c = true /\ lower_char c = c /\ Ascii.eqb c " " = false.
Proof. destruct c as [[] [] [] [] [] [] [] []]; by vm_compute. Qed.

Lemma all_lower_hex_facts (s : string) :
  all_lower_hex s = true ->
  all_hex s = true /\ lower s = s /\ remove_spaces s = s.
Proof.
  induction s as [|c s IH]; [done|]. cbn. intros H.
  apply andb_prop in H as [Hc Hs].
  destruct (is_lower_hex_facts c Hc) as (-> & -> & ->).
  destruct (IH Hs) as (-> & -> & ->). done.
Qed.

Lemma join_chunk2_spaces (s : string) :
  all_lower_hex s = true -> remove_spaces (join_sp (chunk2 s)) = s.
Proof.
  induction s as [| c | c1 c2 s IH] using string_pair_ind; cbn.
  - done.
  - rewrite andb_true_r. intros Hc.
    by destruct (is_lower_hex_facts c Hc) as (_ & _ & ->).
  - intros H. apply andb_prop in H as [H1 H]. apply andb_prop in H as [H2 H].
    destruct (is_lower_hex_facts c1 H1) as (_ & _ & E1).
    destruct (is_lower_hex_facts c2 H2) as (_ & _ & E2).
    specialize (IH H).
    destruct (chunk2 s) as [|x rest] eqn:Hch; cbn [join_sp].
    + cbn. rewrite E1, E2. cbn in IH. by rewrite <- IH.
    + change (remove_spaces
                (String c1 (String c2 (String " " (join_sp (x :: rest)))))
              = String c1 (String c2 s)).
      cbn [remove_spaces]. rewrite E1, E2.
      change (Ascii.eqb " " " ") with true. cbv iota. by rewrite IH.
Qed.

Lemma all_lower_hex_app (s t : string) :
  all_lower_hex (s ++ t)%string = all_lower_hex s && all_lower_hex t.
Proof.
  induction s as [|c s IH]; [done|].
  change (all_lower_hex (String c s ++ t)%string)
    with (is_lower_hex c && all_lower_hex (s ++ t)%string).
  rewrite IH. cbn [all_lower_hex]. by rewrite andb_assoc.
Qed.

Lemma fill_string_zero (n : nat) :
  all_lower_hex (fill_string n "0") = true
  /\ String.length (fill_string n "0") = n.
Proof. induction n as [|n [IH1 IH2]]; [done|]. cbn. by rewrite IH1, IH2. Qed.

Lemma string_length_app (s t : string) :
  String.length (s ++ t)%string = String.length s + String.length t.
Proof.
  induction s as [|c s IH]; [done|].
  change (String.length (String c s ++ t)%string)
    with (S (String.length (s ++ t)%string)).
  by rewrite IH.
Qed.

Lemma chunk2_zeros (m : nat) :
  chunk2 (fill_string (m * 2) "0") = replicate m "00".
Proof. induction m as [|m IH]; [done|]. cbn. by rewrite IH. Qed.

(** What [format_data_entry] writes is the two-character groups of a
    string of [2 * max_bytes] lower-case hexadecimal digits. *)
Lemma format_data_entry_shape raw st formatted :
  format_data_entry raw st = Some formatted ->
  exists padded,
    formatted = join_sp (chunk2 padded)
    /\ all_lower_hex padded = true
    /\ String.length padded = max_bytes st * 2.
Proof.
  unfold format_data_entry.
  destruct (String.eqb_spec (lower (remove_spaces raw)) "") as [_|_].
  { intros [= <-]. exists (fill_string (max_bytes st * 2) "0").
    destruct (fill_string_zero (max_bytes st * 2)) as [H1 H2].
    by rewrite chunk2_zeros. }
  destruct (all_lower_hex (lower (remove_spaces raw))) eqn:Hhex; [|done].
  cbn [negb].
  destruct (Nat.ltb_spec (max_bytes st * 2)
              (String.length (lower (remove_spaces raw)))) as [|Hle]; [done|].
  intros [= <-]. eexists. split; [reflexivity|].
  unfold ljust. rewrite all_lower_hex_app, string_length_app, Hhex.
  destruct (fill_string_zero
              (max_bytes st * 2 - String.length (lower (remove_spaces raw))))
    as [-> ->]. split; [done|lia].
Qed.

(** X3. Whatever [format_data_entry] writes into the data entry is
    accepted by the payload parser of [validate_send_inputs] and gives
    exactly [max_bytes] bytes; formatting an already formatted entry
    changes nothing; and the entry is refused exactly when, spaces
    removed and letters lowered, it is non-empty and has a character
    outside [0-9a-f] or more than [2 * max_bytes] characters. *)
Theorem format_data_entry_accepted (raw : string) (st : State) :
  (forall formatted,
      format_data_entry raw st = Some formatted ->
      (exists payload,
          parse_data formatted st = Some payload
          /\ length payload = max_bytes st)
      /\ format_data_entry formatted st = Some formatted)
  /\ (format_data_entry raw st = None <->
      let text := lower (remove_spaces raw) in
      text <> ""
      /\ (all_lower_hex text = false
          \/ max_bytes st * 2 < String.length text)).
Proof.
  split.
  - intros formatted Hf.
    destruct (format_data_entry_shape raw st formatted Hf)
      as (padded & -> & Hhex & Hlen).
    pose proof (join_chunk2_spaces padded Hhex) as Hsp.
    destruct (all_lower_hex_facts padded Hhex) as (Hall & Hlow & _).
    assert (padded <> "") as Hne.
    { intros ->. cbn in Hlen. unfold max_bytes in Hlen.
      destruct (can_fd_var st); lia. }
    split.
    + unfold parse_data. rewrite Hsp.
      apply String.eqb_neq in Hne. rewrite Hne, Hall, Hlen. cbn [negb].
      rewrite Nat.Div0.mod_mul. cbn [Nat.eqb negb].
      destruct (fromhex_all_hex (max_bytes st) padded) as (bs & Hbs & Hl);
        [lia|done|]. eauto.
    + unfold format_data_entry. rewrite Hsp, Hlow.
      apply String.eqb_neq in Hne. rewrite Hne, Hhex, Hlen. cbn [negb].
      rewrite Nat.ltb_irrefl. unfold ljust.
      rewrite Hlen, Nat.sub_diag. cbn [fill_string].
      assert ((padded ++ "")%string = padded) as ->; [|done].
      clear. induction padded as [|c s IH]; [done|].
      change (String c s ++ "")%string with (String c (s ++ "")%string).
      by rewrite IH.
  - unfold format_data_entry. cbv zeta.
    destruct (String.eqb_spec (lower (remove_spaces raw)) "") as [E|Hne].
    { split; [done|]. by intros [? _]. }
    destruct (all_lower_hex (lower (remove_spaces raw))); cbn [negb].
    2: { split; [auto|done]. }
    destruct (Nat.ltb_spec (max_bytes st * 2)
                (String.length (lower (remove_spaces raw)))) as [Hlt|Hle].
    + split; [auto|done].
    + split; [done|]. intros [_ [?|?]]; [done|lia].
Qed.

Lemma format_data_entry_accepted_witness :
  (exists payload,
      parse_data "1a 2b c0 00 00 00 00 00" started = Some payload
      /\ length payload = max_bytes started)
  /\ format_data_entry "1a 2b c0 00 00 00 00 00" started
     = Some "1a 2b c0 00 00 00 00 00".
Proof.
  destruct (format_data_entry_accepted "1A2 bC" started) as [H _].
  apply (H "1a 2b c0 00 00 00 00 00"). reflexivity.
Defined.

(** ** The counters along the frame path *)

Lemma highlight_update_meters can_id payload direction tag st :
  meters (highlight_update can_id payload direction tag st).2 = meters st.
Proof. unfold highlight_update, after, after_cancel. case_all. Qed.

Lemma evict_oldest_meters st : meters (evict_oldest st).2 = meters st.
Proof. unfold evict_oldest. case_all. Qed.

Lemma record_frame_meters can_id msg direction st :
  meters (record_frame can_id msg direction st).2
  = (message_history (count_frame can_id msg st), display_mode st,
     Some (timestamp msg), paused st, filter_ids st,
     highlight_changes_var st, S (message_count st), message_rate st,
     bus_load st, last_stats_update st).
Proof.
  unfold record_frame.
  set (st0 := count_frame can_id msg _).
  set (tag0 := match ODict.get can_id (messages st0) with
               | Some r => tags r
               | None => NoTag
               end).
  pose proof (highlight_update_meters can_id (data_str (data msg)) direction
                tag0 st0) as Hm.
  destruct (highlight_update can_id (data_str (data msg)) direction tag0 st0)
    as [tag sth].
  cbn [fst snd] in *.
  assert (meters (if is_RX direction
                  then set_last_data
                         (<[can_id := data_str (data msg)]> (last_data sth))
                         sth
                  else sth) = meters sth) as ->.
  { by destruct (is_RX direction). }
  rewrite Hm. reflexivity.
Qed.

(** A frame that is not dropped, passes line 712 and does not hit the
    empty-store corner of the eviction reaches [update_stats] with its
    counters as below. *)
Lemma display_message_reaches_update_stats now msg direction st :
  let can_id := format_X (arbitration_id msg) in
  dropped can_id direction st = false ->
  fromtimestamp_ok (timestamp msg) = true ->
  messages st <> [] \/ length (messages st) < max_messages st ->
  exists stu,
    display_message now msg direction st = update_stats now stu
    /\ controls stu = controls st
    /\ meters stu
       = (message_history (count_frame can_id msg st), display_mode st,
          Some (timestamp msg), paused st, filter_ids st,
          highlight_changes_var st, S (message_count st), message_rate st,
          bus_load st, last_stats_update st).
Proof.
  intros can_id Hd Hts Hne. unfold display_message. fold can_id.
  rewrite Hd, Hts. cbn [negb].
  pose proof (record_frame_meters can_id msg direction st) as Hm.
  pose proof (record_frame_spec can_id msg direction st) as (Hc & Hmsg & _).
  destruct (record_frame can_id msg direction st) as [[delta tag] st1].
  cbn [fst snd] in *.
  pose proof (evict_oldest_meters st1) as Em.
  pose proof (evict_oldest_frame st1) as (Ec & _).
  pose proof (evict_oldest_spec st1) as (_ & _ & _ & Eok).
  rewrite Hmsg, (controls_max_messages _ _ Hc) in Eok.
  destruct (evict_oldest st1) as [[|e] st2]; cbn [fst snd] in *.
  - exists (upsert can_id msg delta tag st2). split; [done|].
    split; [|by rewrite <- Hm, <- Em]. by rewrite <- Hc, <- Ec.
  - exfalso. destruct Eok as [_ Eok]. enough (Raise e = Ok) by done.
    apply Eok. intros Hle. destruct Hne as [?|?]; [done|lia].
Qed.

Lemma update_stats_meters now st :
  let st' := (update_stats now st).2 in
  message_history st' = message_history st
  /\ display_mode st' = display_mode st
  /\ last_message_timestamp st' = last_message_timestamp st
  /\ paused st' = paused st
  /\ filter_ids st' = filter_ids st
  /\ highlight_changes_var st' = highlight_changes_var st.
Proof. unfold update_stats. case_all. Qed.

Lemma update_stats_effect now st :
  ((last_stats_update st < now)%Q -> bitrate st <> 0%Z ->
   message_count (update_stats now st).2 = 0
   /\ message_rate (update_stats now st).2
      = (inject_Z (Z.of_nat (message_count st))
         / (now - last_stats_update st))%Q
   /\ last_stats_update (update_stats now st).2 = now)
  /\ ((now <= last_stats_update st)%Q -> update_stats now st = (Ok, st)).
Proof.
  unfold update_stats. split.
  - intros Hlt Hb.
    assert (Qlt_bool 0 (now - last_stats_update st) = true) as ->.
    { apply Qlt_bool_iff. unfold Qminus. by apply -> Qlt_minus_iff. }
    cbn [bitrate set_message_rate].
    destruct (Z.eqb_spec (bitrate st) 0) as [|_]; [done|].
    by destruct (Qlt_bool 100 _).
  - intros Hle.
    assert (Qlt_bool 0 (now - last_stats_update st) = false) as ->; [|done].
    apply Qlt_bool_false. unfold Qminus.
    apply (Qplus_le_l _ _ (last_stats_update st)). ring_simplify. exact Hle.
Qed.

(** X4. The rate is recomputed by every frame that is shown, not only
    by the one-second tick: [display_message] ends with [update_stats],
    so for a frame whose timestamp line 712 accepts, when the clock has
    moved since the last recompute the frame counter is back at 0 after
    the call and the rate is the count, this frame included, over the
    time since the last recompute; when the clock has not moved, the
    frame is only counted. A frame whose timestamp line 712 rejects
    makes the call raise before [update_stats]: it is counted and nothing
    is recomputed. *)
Theorem rate_recomputed_by_each_frame now msg direction st :
  dropped (format_X (arbitration_id msg)) direction st = false ->
  0 < max_messages st ->
  bitrate st <> 0%Z ->
  let st' := (display_message now msg direction st).2 in
  (fromtimestamp_ok (timestamp msg) = true ->
   (display_message now msg direction st).1 = Ok
   /\ ((last_stats_update st < now)%Q ->
       message_count st' = 0
       /\ message_rate st'
          = (inject_Z (Z.of_nat (S (message_count st)))
             / (now - last_stats_update st))%Q
       /\ last_stats_update st' = now)
   /\ ((now <= last_stats_update st)%Q ->
       message_count st' = S (message_count st)
       /\ message_rate st' = message_rate st
       /\ bus_load st' = bus_load st
       /\ last_stats_update st' = last_stats_update st))
  /\ (fromtimestamp_ok (timestamp msg) = false ->
      (display_message now msg direction st).1 = Raise ValueError
      /\ message_count st' = S (message_count st)
      /\ message_rate st' = message_rate st
      /\ bus_load st' = bus_load st
      /\ last_stats_update st' = last_stats_update st).
Proof.
  intros Hd Hmax Hb st'. subst st'. split.
  - intros Hts. split; [by apply display_message_ok|].
    destruct (display_message_reaches_update_stats now msg direction st Hd
                Hts) as (stu & -> & Hc & Hm).
    { destruct (messages st); [right; cbn; lia|by left]. }
    unfold meters in Hm. injection Hm as _ _ _ _ _ _ Hcount Hrate Hload Hlast.
    destruct (controls_fields _ _ Hc) as (_ & _ & _ & _ & Hbit).
    destruct (update_stats_effect now stu) as [Hmove Hstay].
    rewrite Hcount, Hlast, Hbit in Hmove. rewrite Hlast in Hstay.
    split.
    + intros Hlt. by apply Hmove.
    + intros Hle. rewrite (Hstay Hle). cbn [snd]. done.
  - intros Hts. by rewrite display_message_rejected.
Qed.

Lemma rate_recomputed_by_each_frame_witness :
  let st := run [rx 1 x00] started in
  let st' := (display_message 3 (frame 1 [x00] 3) RX st).2 in
  message_count st' = 0
  /\ message_rate st' = (inject_Z (Z.of_nat 1) / (3 - 1))%Q
  /\ last_stats_update st' = 3%Q.
Proof.
  intros st st'.
  destruct (rate_recomputed_by_each_frame 3 (frame 1 [x00] 3) RX st)
    as [H _]; [by vm_compute|vm_compute; lia|by vm_compute|].
  destruct H as (_ & H & _); [by vm_compute|].
  apply H. by vm_compute.
Defined.

(** ** Histories, deltas, tags and timers *)

Lemma consistent_core2 st st' :
  core2 st' = core2 st -> consistent st -> consistent st'.
Proof.
  unfold core2. intros [= Hm Hy Hh Ht Hn Hp] [I1 I2 I3 I4 I5 I6].
  split.
  - intros k h. rewrite Hy. apply I1.
  - intros k r. rewrite Hm. apply I2.
  - intros k h. rewrite Hh, Hm. apply I3.
  - intros k h. rewrite Hh, Ht. apply I4.
  - intros t. rewrite Hp, Hn, Ht. apply I5.
  - intros t cb. rewrite Ht, Hn. apply I6.
Qed.

Lemma delta_of_nonneg msg st : (0 <= delta_of msg st)%Q.
Proof.
  unfold delta_of. destruct (Qlt_bool _ 0) eqn:H; [done|].
  by apply Qlt_bool_false in H.
Qed.

Lemma display_message_history now msg direction st :
  let can_id := format_X (arbitration_id msg) in
  message_history (display_message now msg direction st).2
  = if dropped can_id direction st || negb (fromtimestamp_ok (timestamp msg))
    then message_history st
    else message_history (count_frame can_id msg st).
Proof.
  intros can_id. unfold display_message. fold can_id.
  destruct (dropped can_id direction st); [done|].
  destruct (fromtimestamp_ok (timestamp msg)); [|done]. cbn [negb orb].
  pose proof (record_frame_meters can_id msg direction st) as Hm.
  destruct (record_frame can_id msg direction st) as [[delta tag] st1].
  cbn [fst snd] in *.
  pose proof (evict_oldest_meters st1) as Em.
  destruct (evict_oldest st1) as [[|e] st2]; cbn [fst snd] in *.
  - destruct (update_stats_meters now (upsert can_id msg delta tag st2))
      as (-> & _).
    change (message_history (upsert can_id msg delta tag st2))
      with (message_history st2).
    rewrite Hm in Em. unfold meters in Em. by injection Em.
  - rewrite Hm in Em. unfold meters in Em. by injection Em.
Qed.

Lemma count_frame_history can_id msg st :
  message_history (count_frame can_id msg st)
  = <[can_id :=
        let history := default [] (message_history st !! can_id)
                       ++ [(timestamp msg, data msg)] in
        if (1000 <? length history)%nat then tail history else history]>
      (message_history st).
Proof. reflexivity. Qed.

Lemma history_step (old : list (Q * list byte)) (x : Q * list byte) :
  length old <= 1000 ->
  let history := old ++ [x] in
  let kept := if (1000 <? length history)%nat then tail history else history in
  kept <> [] /\ length kept <= 1000 /\ last kept = Some x
  /\ (length old < 1000 -> kept = old ++ [x])
  /\ (length old = 1000 -> kept = tail old ++ [x]).
Proof.
  intros Hlen history kept. subst history kept.
  rewrite length_app. cbn [length].
  destruct (Nat.ltb_spec 1000 (length old + 1)) as [Hfull|Hroom].
  - assert (length old = 1000) as E by lia.
    destruct old as [|y old]; [done|]. cbn [app tail].
    splits.
    + destruct old; [cbn in E; lia|done].
    + rewrite length_app. cbn in *. lia.
    + apply last_snoc.
    + lia.
    + done.
  - splits.
    + by destruct old.
    + rewrite length_app. cbn. lia.
    + apply last_snoc.
    + done.
    + lia.
Qed.

Lemma consistent_display now msg direction st :
  invariant st -> consistent st ->
  consistent (display_message now msg direction st).2.
Proof.
  intros [_ Hcap Hok _] [I1 I2 I3 I4 I5 I6].
  set (can_id := format_X (arbitration_id msg)).
  destruct (dropped can_id direction st) eqn:Hd.
  { by rewrite display_message_dropped. }
  destruct (fromtimestamp_ok (timestamp msg)) eqn:Hts.
  2: { rewrite display_message_rejected by done.
       split; [exact I1|exact I2|exact I3|exact I4|exact I5|exact I6]. }
  pose proof (display_message_history now msg direction st) as Hy.
  cbv zeta in Hy. fold can_id in Hy. rewrite Hd, Hts in Hy.
  cbn [negb orb] in Hy.
  destruct (display_message_spec now msg direction st Hd Hts)
    as (Hc & Hh & Ht & Hn & _ & _ & Hm & _).
  fold can_id in Hh, Ht, Hn, Hm.
  destruct Hm as [Hm _].
  { destruct (messages st); [right; cbn; lia|by left]. }
  destruct (controls_fields _ _ Hc) as (_ & _ & Hp & _).
  set (st' := (display_message now msg direction st).2) in *.
  set (starts := starts_highlight can_id (data_str (data msg)) direction st)
    in *.
  assert (next_after st <= next_after st') as Hmono.
  { rewrite Hn. destruct starts; lia. }
  assert (forall k,
             k <> can_id ->
             ODict.get k (messages st') = None
             \/ ODict.get k (messages st') = ODict.get k (messages st)) as Hget.
  { intros k Hk. rewrite Hm, ODictFacts.get_set_ne by done.
    destruct (evicted st) as [o|]; [|by right].
    destruct (decide (o = k)) as [->|Hne].
    - left. apply ODictFacts.get_del_eq.
    - right. by apply ODictFacts.get_del_ne. }
  assert (forall k h,
             highlighted_rows st' !! k = Some h ->
             evicted st <> Some k
             /\ ((starts = true /\ k = can_id
                  /\ h = {| level := 1; after_id := next_after st |})
                 \/ ((starts = false \/ k <> can_id)
                     /\ highlighted_rows st !! k = Some h))) as Hent.
  { intros k h. rewrite Hh. intros Hk.
    assert (evicted st <> Some k
            /\ (if starts
                then <[can_id := {| level := 1; after_id := next_after st |}]>
                       (highlighted_rows st)
                else highlighted_rows st) !! k = Some h) as [He Hk1].
    { destruct (evicted st) as [o|]; [|done].
      apply lookup_delete_Some in Hk as [Hne Hk]. split; [congruence|done]. }
    split; [done|]. destruct starts; [|auto].
    apply lookup_insert_Some in Hk1 as [[<- <-]|[Hne Hk1]]; [left|right];
      auto. }
  split.
  - intros k h. rewrite Hy, count_frame_history. intros Hk.
    apply lookup_insert_Some in Hk as [[_ <-]|[_ Hk]]; [|by apply I1 in Hk].
    assert (length (default [] (message_history st !! can_id)) <= 1000) as Hl.
    { destruct (message_history st !! can_id) as [old|] eqn:E; cbn; [|lia].
      by apply I1 in E as [_ ?]. }
    destruct (history_step _ (timestamp msg, data msg) Hl) as (? & ? & _).
    done.
  - intros k r. destruct (decide (k = can_id)) as [->|Hk].
    + rewrite Hm, ODictFacts.get_set_eq. intros [= <-]. cbn.
      apply delta_of_nonneg.
    + destruct (Hget k Hk) as [-> | ->]; [done|apply I2].
  - intros k h Hk. destruct (Hent k h Hk) as [He [(Hs & -> & ->)|[Hor Hold]]].
    + rewrite Hm, ODictFacts.get_set_eq. rewrite Hs. eauto.
    + destruct (I3 k h Hold) as (r & Hr & Htag).
      destruct (decide (k = can_id)) as [->|Hne].
      * destruct Hor as [Hs|?]; [|done].
        rewrite Hm, ODictFacts.get_set_eq, Hs, Hr. eauto.
      * exists r. split; [|done].
        rewrite Hm, ODictFacts.get_set_ne by done.
        destruct (evicted st) as [o|]; [|done].
        rewrite ODictFacts.get_del_ne; [done|congruence].
  - intros k h Hk. destruct (Hent k h Hk) as [He [(Hs & -> & ->)|[Hor Hold]]].
    + rewrite Ht, Hs. apply lookup_insert_eq.
    + pose proof (I4 k h Hold) as Htm. rewrite Ht.
      destruct starts eqn:Hs; [|done].
      destruct Hor as [?|Hne]; [done|].
      destruct (Hok k h Hold) as [_ Hlt].
      rewrite lookup_insert_ne by lia.
      destruct (highlighted_rows st !! can_id) as [h0|] eqn:E0; [|done].
      rewrite lookup_delete_ne; [done|].
      intros E. pose proof (I4 can_id h0 E0) as H0. rewrite E in H0. congruence.
  - intros t. rewrite Hp. intros Hq. destruct (I5 t Hq) as [Hlt Hnf].
    split; [lia|]. intros k. rewrite Ht.
    destruct starts; [|apply Hnf].
    rewrite lookup_insert_ne by lia.
    destruct (highlighted_rows st !! can_id) as [h0|]; [|apply Hnf].
    intros Hx. apply lookup_delete_Some in Hx as [_ Hx]. by apply Hnf in Hx.
  - intros t cb Hx.
    assert (t = next_after st /\ starts = true \/ timers st !! t = Some cb)
      as [[-> Hs]|Hold].
    { rewrite Ht in Hx. destruct starts; [|auto].
      apply lookup_insert_Some in Hx as [[<- _]|[_ Hx]]; [auto|right].
      destruct (highlighted_rows st !! can_id); [|done].
      by apply lookup_delete_Some in Hx as [_ Hx]. }
    + rewrite Hn, Hs. lia.
    + apply I6 in Hold. lia.
Qed.

Lemma consistent_stop_periodic st :
  consistent st -> consistent (stop_periodic st).
Proof.
  intros [I1 I2 I3 I4 I5 I6].
  destruct (stop_periodic_spec st)
    as (Sm & _ & Sh & Sn & _ & _ & _ & Sp & St).
  assert (message_history (stop_periodic st) = message_history st) as Sy.
  { unfold stop_periodic, after_cancel. case_all. }
  split.
  - intros k h. rewrite Sy. apply I1.
  - intros k r. rewrite Sm. apply I2.
  - intros k h. rewrite Sh, Sm. apply I3.
  - intros k h. rewrite Sh, St. intros Hk. pose proof (I4 k h Hk) as Htm.
    destruct (periodic_task_id st) as [t0|] eqn:E0; [|done].
    rewrite lookup_delete_ne; [done|].
    intros E. rewrite <- E in Htm.
    destruct (I5 _ eq_refl) as [_ Hnf]. by apply Hnf in Htm.
  - intros t. by rewrite Sp.
  - intros t cb. rewrite St, Sn. intros Hx. apply (I6 t cb).
    destruct (periodic_task_id st); [|done].
    by apply lookup_delete_Some in Hx as [_ Hx].
Qed.

(** Taking a fired periodic timer off the queue keeps the invariants. *)
Lemma consistent_dequeue_periodic st t id payload interval :
  timers st !! t = Some (CbPeriodic id payload interval) ->
  consistent st -> consistent (set_timers (delete t (timers st)) st).
Proof.
  intros Ht [I1 I2 I3 I4 I5 I6]. split; cbn.
  - exact I1.
  - exact I2.
  - exact I3.
  - intros k h Hk. pose proof (I4 k h Hk) as Htm.
    rewrite lookup_delete_ne; [done|]. intros E. rewrite <- E in Htm.
    congruence.
  - intros t0 Hq. destruct (I5 t0 Hq) as [Hlt Hnf]. split; [done|].
    intros k Hx. apply lookup_delete_Some in Hx as [_ Hx]. by apply Hnf in Hx.
  - intros t0 cb Hx. apply lookup_delete_Some in Hx as [_ Hx]. by apply I6 in Hx.
Qed.

Lemma consistent_sent now msg outcome st :
  invariant st -> consistent st ->
  consistent match outcome with
             | SendOk =>
                 (display_message now msg TX (bus_send msg outcome st)).2
             | _ => bus_send msg outcome st
             end.
Proof.
  intros Hinv Hcon.
  assert (invariant (bus_send msg outcome st)) as Hinv1
      by (by apply (invariant_core st)).
  assert (consistent (bus_send msg outcome st)) as Hcon1
      by (by apply (consistent_core2 st)).
  destruct outcome; [by apply consistent_display|done|done].
Qed.

Lemma consistent_schedule can_id payload interval ts now outcome st :
  invariant st -> consistent st ->
  consistent (schedule_periodic_send can_id payload (Finite interval) ts now
                outcome st).2.
Proof.
  intros Hinv Hcon.
  set (msg := make_message can_id payload ts st).
  set (st1 := bus_send msg outcome st).
  set (std := (display_message now msg TX st1).2).
  assert (invariant st1) as Hinv1 by (by apply (invariant_core st)).
  assert (consistent st1) as Hcon1 by (by apply (consistent_core2 st)).
  assert (invariant std) as Hinvd by (by apply display_message_invariant).
  assert (consistent std) as Hcond by (by apply consistent_display).
  pose proof (schedule_periodic_send_cases can_id payload interval ts now
                outcome st) as Hcases.
  cbv zeta in Hcases. fold msg in Hcases. fold st1 in Hcases.
  fold std in Hcases.
  destruct Hcases as [(_ & ->)|[(_ & _ & ->)|[(_ & _ & _ & ->)
                                             |(_ & _ & _ & ->)]]];
    [by apply consistent_stop_periodic..|].
  destruct Hcond as [I1 I2 I3 I4 I5 I6]. destruct Hinvd as [_ _ Hok _].
  split; cbn.
  - exact I1.
  - exact I2.
  - exact I3.
  - intros k h Hk. destruct (Hok k h Hk) as [_ Hlt].
    rewrite lookup_insert_ne by lia. by apply I4.
  - intros t [= <-]. split; [lia|]. intros k. by rewrite lookup_insert_eq.
  - intros t cb Hx. apply lookup_insert_Some in Hx as [[<- _]|[_ Hx]]; [lia|].
    apply I6 in Hx. lia.
Qed.

Lemma timer_owner st k h k0 :
  consistent st ->
  highlighted_rows st !! k = Some h ->
  timers st !! after_id h = Some (CbFade k0) ->
  k = k0.
Proof. intros [_ _ _ I4 _ _] Hk Ht. rewrite (I4 k h Hk) in Ht. congruence. Qed.

Lemma consistent_fire t ts now outcome st :
  invariant st -> consistent st -> consistent (fire t ts now outcome st).
Proof.
  intros Hinv Hcon. unfold fire.
  destruct (timers st !! t) as [[k0|id payload interval]|] eqn:Ht; [| |done].
  2: { apply consistent_schedule.
       - pose proof (fire_invariant t ts now outcome st Hinv) as _.
         destruct Hinv as [J1 J2 J3 J4]. split; [exact J1|exact J2|exact J3|].
         intros t' id' p' iv' Hq. cbn in Hq.
         apply lookup_delete_Some in Hq as [_ Hq]. by apply J4 in Hq.
       - by eapply consistent_dequeue_periodic. }
  set (st0 := set_timers (delete t (timers st)) st).
  pose proof Hcon as [I1 I2 I3 I4 I5 I6]. destruct Hinv as [_ _ Hok _].
  assert (forall k h, highlighted_rows st !! k = Some h -> k <> k0 ->
                      t <> after_id h) as Hother.
  { intros k h Hk Hne E. subst t. by apply Hne, (timer_owner st k h k0). }
  assert (forall t0, periodic_task_id st = Some t0 ->
                     forall k, delete t (timers st) !! t0 <> Some (CbFade k))
    as Htask.
  { intros t0 Hq k Hx. apply lookup_delete_Some in Hx as [_ Hx].
    destruct (I5 t0 Hq) as [_ Hnf]. by apply Hnf in Hx. }
  destruct (highlighted_rows st !! k0) as [h0|] eqn:Hh0.
  2: { rewrite fade_highlight_idle by (right; exact Hh0).
       split; cbn; [exact I1|exact I2|exact I3| | |].
       - intros k h Hk. rewrite lookup_delete_ne; [by apply I4|].
         apply (Hother k h Hk). congruence.
       - intros t0 Hq. split; [by apply I5|by apply Htask].
       - intros t0 cb Hx. apply lookup_delete_Some in Hx as [_ Hx].
         by apply I6 in Hx. }
  destruct (I3 k0 h0 Hh0) as (r0 & Hr0 & Htag0).
  destruct (fade_highlight_spec k0 st0 r0 h0 Hr0 Hh0)
    as (Hc & _ & _ & Hlo & Hhi).
  assert (message_history (fade_highlight k0 st0) = message_history st) as Hy.
  { unfold fade_highlight, after. case_all. }
  destruct (controls_fields _ _ Hc) as (_ & _ & Hp & _).
  change (periodic_task_id st0) with (periodic_task_id st) in Hp.
  destruct (Nat.le_gt_cases (level h0) 7) as [Hle|Hgt].
  - destruct (Hlo Hle) as (Eh & Et & En & Em).
    change (highlighted_rows st0) with (highlighted_rows st) in Eh.
    change (timers st0) with (delete t (timers st)) in Et.
    change (next_after st0) with (next_after st) in Eh, Et, En.
    change (messages st0) with (messages st) in Em.
    split.
    + intros k h. rewrite Hy. apply I1.
    + intros k r. rewrite Em. destruct (decide (k = k0)) as [->|Hne].
      * rewrite ODictFacts.get_set_eq. intros [= <-]. cbn. by apply (I2 k0).
      * rewrite ODictFacts.get_set_ne by done. apply I2.
    + intros k h. rewrite Eh, Em. intros Hk.
      apply lookup_insert_Some in Hk as [[<- <-]|[Hne Hk]].
      * rewrite ODictFacts.get_set_eq. eauto.
      * rewrite ODictFacts.get_set_ne by done. by apply I3.
    + intros k h. rewrite Eh, Et. intros Hk.
      apply lookup_insert_Some in Hk as [[<- <-]|[Hne Hk]].
      * apply lookup_insert_eq.
      * destruct (Hok k h Hk) as [_ Hlt].
        rewrite lookup_insert_ne by lia.
        rewrite lookup_delete_ne; [by apply I4|].
        apply (Hother k h Hk). congruence.
    + intros t0. rewrite Hp, En, Et. intros Hq.
      destruct (I5 t0 Hq) as [Hlt _]. split; [lia|]. intros k.
      rewrite lookup_insert_ne by lia. by apply Htask.
    + intros t0 cb. rewrite Et, En. intros Hx.
      apply lookup_insert_Some in Hx as [[<- _]|[_ Hx]]; [lia|].
      apply lookup_delete_Some in Hx as [_ Hx]. apply I6 in Hx. lia.
  - destruct (Hhi Hgt) as (Eh & Et & En & Em).
    change (highlighted_rows st0) with (highlighted_rows st) in Eh.
    change (timers st0) with (delete t (timers st)) in Et.
    change (next_after st0) with (next_after st) in En.
    change (messages st0) with (messages st) in Em.
    split.
    + intros k h. rewrite Hy. apply I1.
    + intros k r. rewrite Em. destruct (decide (k = k0)) as [->|Hne].
      * rewrite ODictFacts.get_set_eq. intros [= <-]. cbn. by apply (I2 k0).
      * rewrite ODictFacts.get_set_ne by done. apply I2.
    + intros k h. rewrite Eh, Em. intros Hk.
      apply lookup_delete_Some in Hk as [Hne Hk].
      rewrite ODictFacts.get_set_ne by done. by apply I3.
    + intros k h. rewrite Eh, Et. intros Hk.
      apply lookup_delete_Some in Hk as [Hne Hk].
      rewrite lookup_delete_ne; [by apply I4|].
      apply (Hother k h Hk). congruence.
    + intros t0. rewrite Hp, En, Et. intros Hq.
      split; [by apply I5|by apply Htask].
    + intros t0 cb. rewrite Et, En. intros Hx.
      apply lookup_delete_Some in Hx as [_ Hx]. by apply I6 in Hx.
Qed.

Lemma consistent_toggle form ts now outcome st :
  invariant st -> consistent st ->
  consistent (toggle_periodic form ts now outcome
                (set_send_periodic_var (negb (send_periodic_var st)) st)).
Proof.
  intros Hinv Hcon.
  set (st0 := set_send_periodic_var (negb (send_periodic_var st)) st).
  assert (consistent st0) as Hcon0 by (by apply (consistent_core2 st)).
  unfold toggle_periodic.
  destruct (bus st0) eqn:Hb; cbn [negb].
  2: { by apply (consistent_core2 st). }
  destruct (send_periodic_var st0) eqn:Hv;
    [|by apply consistent_stop_periodic].
  destruct (validate_send_inputs form st0) as [[[can_id payload] interval]|];
    [|by apply consistent_stop_periodic].
  destruct (float_lt interval 10); [by apply consistent_stop_periodic|].
  assert (invariant st0) as Hinv0.
  { destruct Hinv as [J1 J2 J3 J4]. split; [exact J1|exact J2|exact J3|].
    intros t id p iv Hq. apply J4 in Hq as (? & Hq & ?).
    change (send_periodic_var st0) with (negb (send_periodic_var st)) in Hv.
    rewrite Hq in Hv. done. }
  destruct (finite_or_not interval) as [[q ->]|Hnf].
  - rewrite toggled_finite. by apply consistent_schedule.
  - rewrite toggled_not_finite by done. rewrite Hv, Hb. cbn [andb].
    by apply consistent_stop_periodic, consistent_sent.
Qed.

Lemma update_stats_core2 now st :
  core2 (update_stats now st).2 = core2 st.
Proof.
  unfold core2.
  destruct (update_stats_store now st) as (-> & -> & _ & -> & ->).
  destruct (update_stats_meters now st) as (-> & _).
  by destruct (controls_fields _ _ (update_stats_controls now st))
    as (_ & _ & -> & _).
Qed.

Lemma step_consistent ev st :
  invariant st -> consistent st -> consistent (step ev st).
Proof.
  intros Hinv Hcon. destruct ev; cbn [step].
  - destruct (paused st); [done|]. by apply consistent_display.
  - by apply consistent_fire.
  - apply (consistent_core2 st); [apply update_stats_core2|done].
  - destruct Hcon as [I1 I2 I3 I4 I5 I6]. split; cbn; try done.
  - unfold reset_stats. apply (consistent_core2 st); [|done].
    by rewrite update_stats_core2.
  - by apply (consistent_core2 st).
  - by apply (consistent_core2 st).
  - by apply (consistent_core2 st).
  - by apply (consistent_core2 st).
  - by apply (consistent_core2 st).
  - by apply (consistent_core2 st).
  - unfold start_can. destruct (bus st); [done|].
    destruct connected; [|done]. by apply (consistent_core2 st).
  - unfold stop_can.
    apply (consistent_core2 (stop_periodic st)); [done|].
    by apply consistent_stop_periodic.
  - unfold send_once. destruct (negb (bus st)); [done|].
    destruct (validate_send_inputs form st) as [[[can_id payload] interval]|];
      [|done].
    set (st1 := bus_send _ _ st).
    assert (invariant st1) as Hinv1 by (by apply (invariant_core st)).
    assert (consistent st1) as Hcon1 by (by apply (consistent_core2 st)).
    destruct outcome; [|done|done]. by apply consistent_display.
  - by apply consistent_toggle.
Qed.

Lemma reachable_consistent st : reachable st -> consistent st.
Proof.
  intros (start & b & e & f & evs & ->).
  assert (forall evs st, invariant st -> consistent st ->
                         consistent (run evs st)) as Hrun.
  { clear. induction evs as [|ev evs IH]; intros st Hinv Hcon; [done|].
    cbn. apply IH; [by apply step_invariant|by apply step_consistent]. }
  apply Hrun; [apply init_invariant|].
  split; cbn; try done.
Qed.

(** ** What holds in every state the application reaches *)

Lemma reachable_room st :
  reachable st -> messages st <> [] \/ length (messages st) < max_messages st.
Proof.
  intros Hr. destruct (reachable_invariant st Hr) as [_ Hcap _ _].
  destruct (messages st); [right; cbn; lia|by left].
Qed.

(** X5. The per-identifier history is a window of the last 1000 frames.
    In every reachable state each history holds between 1 and 1000
    entries. A frame that is shown (pause and filter let it pass and
    line 712 accepts its timestamp) is appended as the newest entry of its
    identifier's history; when that history already holds 1000 entries the
    oldest one is dropped. Nothing on the frame path touches the history
    of another identifier: the eviction of a row keeps the evicted
    identifier's history. A frame whose timestamp line 712 rejects leaves
    every history as it is. *)
Theorem history_window st :
  reachable st ->
  (forall k h, message_history st !! k = Some h -> 1 <= length h <= 1000)
  /\ forall now msg direction,
       let can_id := format_X (arbitration_id msg) in
       let entry := (timestamp msg, data msg) in
       let old := default [] (message_history st !! can_id) in
       let st' := (display_message now msg direction st).2 in
       dropped can_id direction st = false ->
       (fromtimestamp_ok (timestamp msg) = true ->
        (exists kept,
            message_history st' !! can_id = Some kept
            /\ last kept = Some entry
            /\ (length old < 1000 -> kept = old ++ [entry])
            /\ (length old = 1000 -> kept = tail old ++ [entry]))
        /\ (forall k, k <> can_id ->
              message_history st' !! k = message_history st !! k))
       /\ (fromtimestamp_ok (timestamp msg) = false ->
           message_history st' = message_history st).
Proof.
  intros Hr. pose proof (reachable_consistent st Hr) as [I1 _ _ _ _ _].
  split.
  - intros k h Hk. destruct (I1 k h Hk) as [Hne Hlen].
    destruct h; [done|]. cbn in *. lia.
  - intros now msg direction can_id entry old st' Hd.
    pose proof (display_message_history now msg direction st) as Hh.
    cbv zeta in Hh. fold can_id st' in Hh. rewrite Hd in Hh.
    split; intros Hts; rewrite Hts in Hh; cbn [negb orb] in Hh; [|done].
    rewrite count_frame_history in Hh. cbv zeta in Hh. fold old entry in Hh.
    assert (length old <= 1000) as Hlen.
    { subst old. destruct (message_history st !! can_id) as [h|] eqn:E.
      - by destruct (I1 can_id h E).
      - cbn. lia. }
    destruct (history_step old entry Hlen) as (_ & _ & Hlast & Hroom & Hfull).
    rewrite Hh. split.
    + eexists. rewrite lookup_insert_eq. split; [reflexivity|].
      split; [exact Hlast|]. split; [exact Hroom|exact Hfull].
    + intros k Hne. by rewrite lookup_insert_ne.
Qed.

Lemma history_window_witness :
  let st := run [rx 1 x00] started in
  let st' := (display_message 2 (frame 1 [x02] 2) RX st).2 in
  exists kept,
    message_history st' !! "1" = Some kept
    /\ last kept = Some (2%Q, [x02])
    /\ (1 < 1000 -> kept = [(1%Q, [x00]); (2%Q, [x02])])
    /\ (1 = 1000 -> kept = [(2%Q, [x02])]).
Proof.
  intros st st'.
  assert (reachable st) as Hr.
  { exists 0%Q, 500000%Z, false, false, [rx 1 x00]. reflexivity. }
  destruct (history_window st Hr) as [_ H].
  destruct (H 2%Q (frame 1 [x02] 2) RX) as [Hk _]; [by vm_compute|].
  destruct Hk as [Hk _]; [by vm_compute|].
  exact Hk.
Defined.

(** X6. The delta shown for a frame is never negative. A frame that
    pause and filter let pass makes its timestamp the previous one for
    the next frame, also when line 712 then rejects it. When line 712 accepts the
    timestamp the frame becomes the row of its identifier with its own
    timestamp; the row's delta is the time since the previous timestamp;
    it is 0 when there is no previous timestamp, when the previous
    timestamp is 0 (which the code reads as none), and when the frame is
    not later than the previous one. When line 712 rejects the timestamp
    the call raises and the rows stay as they are. So in every reachable
    state every row has a delta of at least 0. *)
Theorem delta_never_negative st :
  reachable st ->
  (forall k r, ODict.get k (messages st) = Some r -> (0 <= rec_delta r)%Q)
  /\ forall now msg direction,
       let can_id := format_X (arbitration_id msg) in
       let st' := (display_message now msg direction st).2 in
       dropped can_id direction st = false ->
       last_message_timestamp st' = Some (timestamp msg)
       /\ (fromtimestamp_ok (timestamp msg) = true ->
           exists r,
             ODict.get can_id (messages st') = Some r
             /\ rec_timestamp r = timestamp msg
             /\ match last_message_timestamp st with
                | None => (rec_delta r == 0)%Q
                | Some prev =>
                    ((timestamp msg <= prev)%Q \/ (prev == 0)%Q ->
                     (rec_delta r == 0)%Q)
                    /\ ((prev < timestamp msg)%Q -> ~ (prev == 0)%Q ->
                        (rec_delta r == timestamp msg - prev)%Q)
                end)
       /\ (fromtimestamp_ok (timestamp msg) = false ->
           (display_message now msg direction st).1 = Raise ValueError
           /\ messages st' = messages st).
Proof.
  intros Hr. pose proof (reachable_consistent st Hr) as [_ I2 _ _ _ _].
  split; [exact I2|].
  intros now msg direction can_id st' Hd.
  pose proof (reachable_room st Hr) as Hroom.
  splits.
  - destruct (fromtimestamp_ok (timestamp msg)) eqn:Hts.
    2: { subst st'. by rewrite display_message_rejected. }
    destruct (display_message_reaches_update_stats now msg direction st Hd
                Hts Hroom) as (stu & Hu & _ & Hm).
    subst st'. rewrite Hu.
    destruct (update_stats_meters now stu) as (_ & _ & -> & _).
    unfold meters in Hm. by injection Hm as _ _ -> _.
  - intros Hts.
    destruct (display_message_spec now msg direction st Hd Hts)
      as (_ & _ & _ & _ & _ & _ & Hmsg & _).
    destruct (Hmsg Hroom) as [Hm _]. fold st' in Hm.
    eexists. rewrite Hm. fold can_id. rewrite ODictFacts.get_set_eq.
    split; [reflexivity|]. split; [reflexivity|].
    cbn [rec_delta]. unfold delta_of.
    destruct (last_message_timestamp st) as [prev|]; [|done].
    destruct (Qeq_bool prev 0) eqn:Ez.
    + apply Qeq_bool_iff in Ez. split; [done|]. intros _ Hnz. by destruct Hnz.
    + assert (~ (prev == 0)%Q) as Hnz.
      { intros E. apply Qeq_bool_iff in E. congruence. }
      destruct (Qlt_bool (timestamp msg - prev) 0) eqn:El.
      * apply Qlt_bool_iff in El. split; [done|]. intros Hlt _.
        exfalso. apply (Qlt_irrefl 0).
        apply Qlt_trans with (timestamp msg - prev)%Q; [|exact El].
        unfold Qminus. by apply -> Qlt_minus_iff.
      * apply Qlt_bool_false in El. split; [|done].
        intros [Hle|Hz]; [|by destruct Hnz].
        apply Qle_antisym; [|exact El].
        apply (Qplus_le_l _ _ prev). ring_simplify. exact Hle.
  - intros Hts. subst st'. by rewrite display_message_rejected.
Qed.

Lemma delta_never_negative_witness :
  let st := run [EvFrame 5 (frame 1 [x00] 5)] started in
  let st' := (display_message 5 (frame 1 [x02] 3) RX st).2 in
  last_message_timestamp st' = Some 3%Q
  /\ exists r,
       ODict.get "1" (messages st') = Some r
       /\ rec_timestamp r = 3%Q
       /\ ((3 <= 5)%Q \/ (5 == 0)%Q -> (rec_delta r == 0)%Q)
       /\ ((5 < 3)%Q -> ~ (5 == 0)%Q -> (rec_delta r == 3 - 5)%Q).
Proof.
  intros st st'.
  assert (reachable st) as Hr.
  { exists 0%Q, 500000%Z, false, false, [EvFrame 5 (frame 1 [x00] 5)].
    reflexivity. }
  destruct (delta_never_negative st Hr) as [_ H].
  destruct (H 5%Q (frame 1 [x02] 3) RX) as (H1 & H2 & _); [by vm_compute|].
  split; [exact H1|]. apply H2. by vm_compute.
Defined.

(** X7. A highlight is always backed by a row and a pending timer. In
    every reachable state an identifier with a highlight entry has a row
    in the store, the row's tag is the tag of the entry's level, the timer
    named by the entry is pending and will call [fade_highlight] for this
    identifier, no other highlight shares that timer, and the timer is not
    the one of the periodic job. *)
Theorem highlight_is_backed st k h :
  reachable st ->
  highlighted_rows st !! k = Some h ->
  (exists r, ODict.get k (messages st) = Some r /\ tags r = Changed (level h))
  /\ timers st !! after_id h = Some (CbFade k)
  /\ (forall k' h', highlighted_rows st !! k' = Some h' ->
                    after_id h' = after_id h -> k' = k)
  /\ periodic_task_id st <> Some (after_id h).
Proof.
  intros Hr Hk. pose proof (reachable_consistent st Hr) as Hcon.
  pose proof Hcon as [_ _ I3 I4 I5 _]. splits.
  - by apply I3.
  - by apply I4.
  - intros k' h' Hk' E. apply (timer_owner st k' h' k Hcon Hk').
    rewrite E. by apply I4.
  - intros Hq. destruct (I5 _ Hq) as [_ Hnf]. by apply (Hnf k), I4.
Qed.

Lemma highlight_is_backed_witness :
  let st := run [rx 1 x00; rx 1 x01; tick 0] started in
  (exists r, ODict.get "1" (messages st) = Some r /\ tags r = Changed 2)
  /\ timers st !! 1 = Some (CbFade "1").
Proof.
  intros st.
  destruct (highlight_is_backed st "1" {| level := 2; after_id := 1 |})
    as (H1 & H2 & _).
  - exists 0%Q, 500000%Z, false, false, [rx 1 x00; rx 1 x01; tick 0].
    reflexivity.
  - by vm_compute.
  - split; [exact H1|exact H2].
Defined.

(** X8. What a fade timer does when it runs. In a reachable state, when
    the main loop runs the timer of a highlight entry, the guard of
    [fade_highlight] passes: below level 8 the entry moves one level up,
    the row takes the tag of the new level and a new fade timer is pending
    for the identifier; at level 8 the entry is removed and the row's tag
    is cleared. The timer that ran is no longer pending, and the rows and
    highlights of other identifiers are as before. A fade timer of an
    identifier that has no highlight entry is only taken off the queue:
    the row, when there is one, keeps the tag it has. So an entry always
    reaches its end, while a row that lost its entry (see C4) stays
    tagged until the next frame of its identifier rewrites the row. *)
Theorem fade_timer_effect st ts now outcome :
  reachable st ->
  (forall k h,
     highlighted_rows st !! k = Some h ->
     let st' := step (EvTimer (after_id h) ts now outcome) st in
     (level h <= 7 ->
      highlighted_rows st' !! k
      = Some {| level := S (level h); after_id := next_after st |}
      /\ timers st' !! next_after st = Some (CbFade k)
      /\ tags <$> ODict.get k (messages st') = Some (Changed (S (level h))))
     /\ (8 <= level h ->
         highlighted_rows st' !! k = None
         /\ tags <$> ODict.get k (messages st') = Some NoTag)
     /\ timers st' !! after_id h = None
     /\ (forall k', k' <> k ->
           highlighted_rows st' !! k' = highlighted_rows st !! k'
           /\ ODict.get k' (messages st') = ODict.get k' (messages st)))
  /\ (forall k t,
       highlighted_rows st !! k = None ->
       timers st !! t = Some (CbFade k) ->
       step (EvTimer t ts now outcome) st
       = set_timers (delete t (timers st)) st).
Proof.
  intros Hr. split.
  2: { intros k t Hk Ht. cbn [step]. unfold fire. rewrite Ht.
       apply fade_highlight_idle. by right. }
  intros k h Hk st'.
  pose proof (reachable_consistent st Hr) as [_ _ I3 I4 _ _].
  destruct (reachable_invariant st Hr) as [_ _ Hok _].
  destruct (I3 k h Hk) as (r & Hrow & _). pose proof (I4 k h Hk) as Ht.
  destruct (Hok k h Hk) as [_ Hfresh].
  subst st'. cbn [step]. unfold fire. rewrite Ht.
  set (st0 := set_timers (delete (after_id h) (timers st)) st).
  destruct (fade_highlight_spec k st0 r h Hrow Hk)
    as (_ & _ & _ & Hlo & Hhi).
  change (highlighted_rows st0) with (highlighted_rows st) in Hlo, Hhi.
  change (timers st0) with (delete (after_id h) (timers st)) in Hlo, Hhi.
  change (next_after st0) with (next_after st) in Hlo, Hhi.
  change (messages st0) with (messages st) in Hlo, Hhi.
  destruct (Nat.le_gt_cases (level h) 7) as [Hle|Hgt].
  - destruct (Hlo Hle) as (Eh & Et & _ & Em). rewrite Eh, Et, Em. splits.
    + intros _. rewrite !lookup_insert_eq, ODictFacts.get_set_eq. done.
    + lia.
    + rewrite lookup_insert_ne by lia. apply lookup_delete_eq.
    + intros k' Hne. rewrite lookup_insert_ne by done.
      by rewrite ODictFacts.get_set_ne.
  - destruct (Hhi Hgt) as (Eh & Et & _ & Em). rewrite Eh, Et, Em. splits.
    + lia.
    + intros _. rewrite lookup_delete_eq, ODictFacts.get_set_eq. done.
    + apply lookup_delete_eq.
    + intros k' Hne. rewrite lookup_delete_ne by done.
      by rewrite ODictFacts.get_set_ne.
Qed.

Lemma fade_timer_effect_witness :
  let st := run [rx 1 x00; rx 1 x01] started in
  let st' := step (EvTimer 0 1 1 SendOk) st in
  highlighted_rows st' !! "1" = Some {| level := 2; after_id := 1 |}
  /\ timers st' !! 1 = Some (CbFade "1")
  /\ tags <$> ODict.get "1" (messages st') = Some (Changed 2).
Proof.
  intros st st'.
  destruct (fade_timer_effect st 1 1 SendOk) as [H _].
  - exists 0%Q, 500000%Z, false, false, [rx 1 x00; rx 1 x01]. reflexivity.
  - destruct (H "1" {| level := 1; after_id := 0 |}) as (H1 & _);
      [by vm_compute|].
    apply H1. cbn. lia.
Defined.

(** ** Sending and the connection *)

Lemma periodic_needs_bus st :
  periodic_ok st -> bus st = false -> no_periodic st.
Proof.
  intros Hp Hb t id payload interval Ht.
  destruct (Hp t id payload interval Ht) as (_ & _ & Hbus). congruence.
Qed.

Lemma offline_step ev st :
  offline ev = true -> bus st = false -> no_periodic st ->
  bus (step ev st) = false
  /\ no_periodic (step ev st)
  /\ tx_log (step ev st) = tx_log st.
Proof.
  intros Ho Hb Hn.
  assert (passive ev = true -> bus (step ev st) = false ->
          bus (step ev st) = false /\ no_periodic (step ev st)
          /\ tx_log (step ev st) = tx_log st) as Hpassive.
  { intros Hp Hbus. destruct (passive_step ev st Hp Hn). done. }
  destruct ev; cbn [offline passive] in *.
  - apply Hpassive; [done|]. cbn [step]. destruct (paused st); [done|].
    destruct (controls_fields _ _ (display_message_controls now msg RX st))
      as (_ & -> & _). done.
  - apply Hpassive; [done|]. cbn [step]. unfold fire.
    destruct (timers st !! t) as [[k|id p iv]|] eqn:Ht;
      [|by apply Hn in Ht|done].
    destruct (fade_highlight_preserves k
                (set_timers (delete t (timers st)) st)) as (Hc & _).
    destruct (controls_fields _ _ Hc) as (_ & -> & _). done.
  - apply Hpassive; [done|]. cbn [step].
    destruct (controls_fields _ _ (update_stats_controls now st))
      as (_ & -> & _). done.
  - by apply Hpassive.
  - apply Hpassive; [done|]. cbn [step]. unfold reset_stats.
    set (st0 := set_bus_load _ _).
    destruct (controls_fields _ _ (update_stats_controls now st0))
      as (_ & -> & _). done.
  - by apply Hpassive.
  - by apply Hpassive.
  - by apply Hpassive.
  - by apply Hpassive.
  - by apply Hpassive.
  - by apply Hpassive.
  - apply Hpassive; [done|]. cbn [step]. unfold start_can. rewrite Hb.
    by destruct connected.
  - by apply Hpassive.
  - cbn [step]. unfold send_once. rewrite Hb. done.
  - cbn [step]. unfold toggle_periodic.
    change (bus (set_send_periodic_var _ st)) with (bus st). rewrite Hb.
    done.
Qed.

(** X9. Nothing is sent while the bus is closed. In a reachable state
    with the bus closed no cycle of the periodic job is pending, and
    whatever happens next, short of [start_can] opening the bus, calls
    [bus.send] not once: "Send Once", ticking "Send Periodically", timers,
    frames still in the queue and the other handlers leave the bus closed,
    the job off and the list of sends as it is. *)
Theorem nothing_sent_while_disconnected st evs :
  reachable st ->
  bus st = false ->
  forallb offline evs = true ->
  no_periodic st
  /\ bus (run evs st) = false
  /\ no_periodic (run evs st)
  /\ tx_log (run evs st) = tx_log st.
Proof.
  intros Hr Hb Ho.
  destruct (reachable_invariant st Hr) as [_ _ _ Hp].
  pose proof (periodic_needs_bus st Hp Hb) as Hn. clear Hr Hp.
  split; [exact Hn|].
  revert st Hb Hn. induction evs as [|ev evs IH]; intros st Hb Hn; [done|].
  cbn in Ho. apply andb_prop in Ho as [Hev Ho].
  destruct (offline_step ev st Hev Hb Hn) as (Hb' & Hn' & Hl).
  change (run (ev :: evs) st) with (run evs (step ev st)).
  destruct (IH Ho (step ev st) Hb' Hn') as (? & ? & Hl').
  splits; [done|done|congruence].
Qed.

Lemma nothing_sent_while_disconnected_witness :
  let evs := [EvSendOnce (form_every 100) 1 1 SendOk;
              EvClickPeriodic (form_every 100) 2 2 SendOk;
              rx 1 x00; tick 0; EvStart false] in
  tx_log (run evs started) = [].
Proof.
  intros evs.
  destruct (nothing_sent_while_disconnected started evs) as (_ & _ & _ & H).
  - exists 0%Q, 500000%Z, false, false, []. reflexivity.
  - reflexivity.
  - reflexivity.
  - exact H.
Defined.

Lemma stop_can_idempotent st : stop_can (stop_can st) = stop_can st.
Proof.
  destruct st as [m ids ld mh hr dm lmt pa fi mx hcv mc mr bl lsu br fd ex
                   spv b pti tm na tx].
  unfold stop_can, stop_periodic, after_cancel.
  destruct pti, spv; cbv -[delete]; reflexivity.
Qed.

(** X10. Disconnecting ends the periodic job and resets the counters. In
    a reachable state [stop_can] closes the bus without sending, switches
    the job off, leaves no cycle pending, clears the frame counter, the
    rate, the bus load and the previous timestamp, and keeps the rows and
    their highlights. A second [stop_can] changes nothing. *)
Theorem disconnect_ends_periodic_job st :
  reachable st ->
  let st' := step EvStop st in
  bus st' = false
  /\ send_periodic_var st' = false
  /\ periodic_task_id st' = None
  /\ no_periodic st'
  /\ tx_log st' = tx_log st
  /\ (message_count st', message_rate st', bus_load st',
      last_message_timestamp st') = (0, 0%Q, 0%Q, None)
  /\ messages st' = messages st
  /\ highlighted_rows st' = highlighted_rows st
  /\ step EvStop st' = st'.
Proof.
  intros Hr st'. subst st'. cbn [step].
  destruct (reachable_invariant st Hr) as [_ _ _ Hp].
  destruct (stop_periodic_spec st)
    as (Sm & _ & Sh & _ & _ & Sl & Sv & Sp & _).
  assert (no_periodic (stop_periodic st)) as Hn.
  { apply stop_periodic_no_periodic. intros t id p iv Ht.
    by destruct (Hp t id p iv Ht). }
  unfold stop_can at 1 2 3 4 5 6 7 8. cbn. splits; try done.
  apply stop_can_idempotent.
Qed.

Lemma disconnect_ends_periodic_job_witness :
  let st := run [EvStart true; EvClickPeriodic (form_every 100) 1 1 SendOk]
              started in
  timers st !! 0 = Some (CbPeriodic 0x123 [x01; x02] 100)
  /\ bus (step EvStop st) = false
  /\ no_periodic (step EvStop st).
Proof.
  intros st. split; [reflexivity|].
  destruct (disconnect_ends_periodic_job st) as (H1 & _ & _ & H4 & _).
  - exists 0%Q, 500000%Z, false, false,
      [EvStart true; EvClickPeriodic (form_every 100) 1 1 SendOk].
    reflexivity.
  - split; [exact H1|exact H4].
Defined.

(** X11. There is at most one periodic job. In a reachable state at most
    one cycle of the job is pending, it is the one [periodic_task_id]
    names, and then the box is ticked and the bus is open. Unticking the
    box cancels the pending cycle without sending. *)
Theorem single_periodic_job st :
  reachable st ->
  (forall t1 t2 id1 id2 p1 p2 iv1 iv2,
      timers st !! t1 = Some (CbPeriodic id1 p1 iv1) ->
      timers st !! t2 = Some (CbPeriodic id2 p2 iv2) ->
      t1 = t2 /\ periodic_task_id st = Some t1
      /\ send_periodic_var st = true /\ bus st = true)
  /\ (forall form ts now outcome,
        send_periodic_var st = true ->
        let st' := step (EvClickPeriodic form ts now outcome) st in
        tx_log st' = tx_log st
        /\ send_periodic_var st' = false
        /\ no_periodic st').
Proof.
  intros Hr. destruct (reachable_invariant st Hr) as [_ _ _ Hp]. split.
  - intros t1 t2 id1 id2 p1 p2 iv1 iv2 H1 H2.
    destruct (Hp _ _ _ _ H1) as (E1 & Hv & Hb).
    destruct (Hp _ _ _ _ H2) as (E2 & _). split; [congruence|done].
  - intros form ts now outcome Hv st'. subst st'. cbn [step].
    rewrite Hv. cbn [negb]. set (st0 := set_send_periodic_var false st).
    assert (forall t id p iv,
               timers st0 !! t = Some (CbPeriodic id p iv) ->
               periodic_task_id st0 = Some t) as Hp0.
    { intros t id p iv Ht. by destruct (Hp t id p iv Ht). }
    unfold toggle_periodic. change (bus st0) with (bus st).
    change (send_periodic_var st0) with false.
    destruct (bus st) eqn:Hbus; cbn [negb].
    + destruct (stop_periodic_spec st0)
        as (_ & _ & _ & _ & _ & Sl & Sv & Sp & _).
      splits; [done|done|by apply stop_periodic_no_periodic].
    + splits; [done|done|].
      intros t id p iv Ht. cbn in Ht.
      destruct (Hp t id p iv Ht) as (_ & _ & Hb). congruence.
Qed.

Lemma single_periodic_job_witness :
  let st := run [EvStart true; EvClickPeriodic (form_every 100) 1 1 SendOk]
              started in
  let st' := step (EvClickPeriodic (form_every 100) 2 2 SendOk) st in
  tx_log st' = tx_log st /\ send_periodic_var st' = false /\ no_periodic st'.
Proof.
  intros st st'.
  destruct (single_periodic_job st) as [_ H].
  - exists 0%Q, 500000%Z, false, false,
      [EvStart true; EvClickPeriodic (form_every 100) 1 1 SendOk].
    reflexivity.
  - apply H. reflexivity.
Defined.

(** ** The queue pump *)

Module MainLoopFacts.
Import MainLoop.

Lemma check_queue_loop_bound budget processed clock m :
  let m' := check_queue_loop budget processed clock m in
  exists n,
    n <= budget /\ n <= length (message_queue m)
    /\ ((message_queue m' = drop n (message_queue m)
         /\ running m' = running m)
        \/ (running m = true /\ message_queue m' = [] /\ running m' = false
            /\ bus (app m') = false)).
Proof.
  revert processed m.
  induction budget as [|budget IH]; intros processed m; cbn [check_queue_loop].
  { exists 0. splits; [lia|lia|left; by rewrite drop_0]. }
  destruct m as [r q st]. cbn [message_queue running app].
  destruct q as [|item rest].
  { exists 0. splits; [lia|cbn; lia|left; done]. }
  unfold set_message_queue. cbn [message_queue running app].
  destruct item as [msg|text].
  - assert (forall st1,
               exists n,
                 n <= S budget /\ n <= length (Receiver.QFrame msg :: rest)
                 /\ ((message_queue
                        (check_queue_loop budget (S processed) clock
                           {| running := r; message_queue := rest;
                              app := st1 |})
                      = drop n (Receiver.QFrame msg :: rest)
                      /\ running
                           (check_queue_loop budget (S processed) clock
                              {| running := r; message_queue := rest;
                                 app := st1 |}) = r)
                     \/ (r = true
                         /\ message_queue
                              (check_queue_loop budget (S processed) clock
                                 {| running := r; message_queue := rest;
                                    app := st1 |}) = []
                         /\ running
                              (check_queue_loop budget (S processed) clock
                                 {| running := r; message_queue := rest;
                                    app := st1 |}) = false
                         /\ bus (app
                              (check_queue_loop budget (S processed) clock
                                 {| running := r; message_queue := rest;
                                    app := st1 |})) = false))) as Hrec.
    { intros st1.
      destruct (IH (S processed)
                  {| running := r; message_queue := rest; app := st1 |})
        as (n & Hn & Hq & Hcase).
      cbn [message_queue running app] in *.
      exists (S n). splits; [lia|cbn; lia|exact Hcase]. }
    destruct (paused st); [apply Hrec|].
    destruct (display_message (clock processed) msg RX st) as [[|e] st1].
    + apply Hrec.
    + exists 1. splits; [lia|cbn; lia|left; done].
  - destruct r.
    + exists 1. splits; [lia|cbn; lia|right; done].
    + exists 1. splits; [lia|cbn; lia|left; done].
Qed.

(** X12. One call of [check_queue] takes at most five items, from the
    front of the queue and in order: afterwards the queue is what was
    behind the items taken, also when [display_message] raised, unless an
    error item was met while running, in which case [stop_can] has
    emptied the queue, cleared the flag and closed the bus. *)
Theorem check_queue_takes_at_most_five clock m :
  let m' := check_queue clock m in
  exists n,
    n <= 5 /\ n <= length (message_queue m)
    /\ ((message_queue m' = drop n (message_queue m)
         /\ running m' = running m)
        \/ (running m = true /\ message_queue m' = [] /\ running m' = false
            /\ bus (app m') = false)).
Proof. apply check_queue_loop_bound. Qed.

Lemma frame_events_paused clock processed msgs st :
  paused st = true -> run (frame_events clock processed msgs) st = st.
Proof.
  intros Hp. revert processed.
  induction msgs as [|msg msgs IH]; intros processed; [done|].
  cbn [frame_events]. change (run (?ev :: ?evs) st) with (run evs (step ev st)).
  cbn [step]. rewrite Hp. apply IH.
Qed.

(** While no call raises, the loop handles the frames at the front of
    the queue like the main loop handles frame events. *)
Lemma check_queue_loop_frames msgs :
  forall budget processed clock m rest,
    paused (app m) = true
    \/ (0 < max_messages (app m) /\ bitrate (app m) <> 0%Z /\ accepted msgs) ->
    message_queue m = map Receiver.QFrame msgs ++ rest ->
    length msgs <= budget ->
    check_queue_loop budget processed clock m
    = check_queue_loop (budget - length msgs) (processed + length msgs) clock
        {| running := running m; message_queue := rest;
           app := run (frame_events clock processed msgs) (app m) |}.
Proof.
  induction msgs as [|msg msgs IH]; intros budget processed clock m rest Hok Hq Hlen.
  - cbn [length frame_events]. rewrite Nat.sub_0_r, Nat.add_0_r.
    destruct m as [r q st]. cbn in *. by subst q.
  - destruct budget as [|budget]; [cbn in Hlen; lia|].
    cbn [check_queue_loop]. rewrite Hq.
    cbn [map Datatypes.app length frame_events].
    change (run (?ev :: ?evs) ?s) with (run evs (step ev s)).
    cbn [step]. unfold set_message_queue. cbn [message_queue running app].
    replace (processed + S (length msgs)) with (S processed + length msgs)
      by lia.
    change (S budget - S (length msgs)) with (budget - length msgs).
    cbn in Hlen.
    destruct (paused (app m)) eqn:Hp.
    + rewrite (IH budget (S processed) clock _ rest); cbn; [done|auto|done|lia].
    + destruct Hok as [|(Hmax & Hbit & Hacc)]; [done|].
      apply Forall_cons in Hacc as [Hts Hacc].
      pose proof (display_message_ok (clock processed) msg RX (app m)
                    Hmax Hbit Hts) as Hres.
      pose proof (display_message_controls (clock processed) msg RX (app m))
        as Hc.
      destruct (display_message (clock processed) msg RX (app m))
        as [res st1]. cbn [fst snd] in *. subst res.
      rewrite (IH budget (S processed) clock _ rest); cbn; [done| |done|lia].
      right. unfold controls in Hc. injection Hc as -> -> _. done.
Qed.

(** X13. A batch shows the queued frames in the order of their arrival,
    as far as it gets. When no more than five frames are at the front of
    the queue, line 712 accepts the timestamp of each, and either there
    are five of them or nothing is behind them, one call of [check_queue]
    leaves the application in the state the main loop reaches by handling
    these frames one after the other, leaves what was behind them in the
    queue and does not touch the flag. A frame that the filter lets pass
    and whose timestamp line 712 rejects ends the batch early: the frames in
    front of it are shown, the frame itself is only counted and noted as
    the previous frame, and whatever was behind it, an error item
    included, stays in the queue for a later batch. *)
Theorem check_queue_in_order clock m msgs :
  0 < max_messages (app m) ->
  bitrate (app m) <> 0%Z ->
  accepted msgs ->
  (forall rest,
     message_queue m = map Receiver.QFrame msgs ++ rest ->
     length msgs <= 5 ->
     length msgs = 5 \/ rest = [] ->
     check_queue clock m
     = {| running := running m; message_queue := rest;
          app := run (frame_events clock 0 msgs) (app m) |})
  /\ (forall bad rest,
       let shown := run (frame_events clock 0 msgs) (app m) in
       message_queue m
       = map Receiver.QFrame msgs ++ Receiver.QFrame bad :: rest ->
       length msgs < 5 ->
       dropped (format_X (arbitration_id bad)) RX shown = false ->
       fromtimestamp_ok (timestamp bad) = false ->
       check_queue clock m
       = {| running := running m; message_queue := rest;
            app := note_frame bad shown |}).
Proof.
  intros Hmax Hbit Hacc. split.
  - intros rest Hq Hlen Hend. unfold check_queue, batch_size.
    rewrite (check_queue_loop_frames msgs 5 0 clock m rest); [|auto|done|done].
    destruct Hend as [->| ->]; [done|].
    by destruct (5 - length msgs).
  - intros bad rest shown Hq Hlen Hd Hts. unfold check_queue, batch_size.
    rewrite (check_queue_loop_frames msgs 5 0 clock m
               (Receiver.QFrame bad :: rest)); [|auto|done|lia].
    destruct (5 - length msgs) as [|budget] eqn:E; [lia|].
    cbn [check_queue_loop message_queue]. unfold set_message_queue.
    cbn [running message_queue app]. fold shown.
    assert (paused shown = false) as ->.
    { unfold dropped in Hd. by destruct (paused shown). }
    by rewrite display_message_rejected.
Qed.

Lemma check_queue_in_order_witness :
  let m := {| running := true;
              message_queue :=
                map Receiver.QFrame
                  [frame 1 [x00] 1; frame 2 [x00] 2; frame 1 [x01] 3];
              app := started |} in
  check_queue (fun i => inject_Z (Z.of_nat i) + 1)%Q m
  = {| running := true; message_queue := [];
       app := run [EvFrame (0 + 1) (frame 1 [x00] 1);
                   EvFrame (1 + 1) (frame 2 [x00] 2);
                   EvFrame (2 + 1) (frame 1 [x01] 3)] started |}.
Proof.
  intros m.
  assert (accepted [frame 1 [x00] 1; frame 2 [x00] 2; frame 1 [x01] 3])
    as Hacc by (repeat constructor).
  destruct (check_queue_in_order (fun i => inject_Z (Z.of_nat i) + 1)%Q m
              [frame 1 [x00] 1; frame 2 [x00] 2; frame 1 [x01] 3])
    as [H _]; [cbn; lia|done|exact Hacc|].
  apply (H []); [reflexivity|cbn; lia|by right].
Defined.

(** X14. An error item ends the batch. The frames in front of it are
    shown first, line 712 accepting the timestamp of each. While running,
    [stop_can] follows: the flag is cleared, the bus closed, and the
    frames queued behind the error are thrown away. When not running the
    error item is dropped and what is behind it stays in the queue. *)
Theorem check_queue_error_item clock m msgs text rest :
  0 < max_messages (app m) ->
  bitrate (app m) <> 0%Z ->
  accepted msgs ->
  message_queue m
  = map Receiver.QFrame msgs ++ Receiver.QError text :: rest ->
  length msgs < 5 ->
  let shown := run (frame_events clock 0 msgs) (app m) in
  check_queue clock m
  = if running m
    then stop_can {| running := true; message_queue := rest; app := shown |}
    else {| running := false; message_queue := rest; app := shown |}.
Proof.
  intros Hmax Hbit Hacc Hq Hlen shown. unfold check_queue, batch_size.
  rewrite (check_queue_loop_frames msgs 5 0 clock m
             (Receiver.QError text :: rest)); [|auto|done|lia].
  destruct (5 - length msgs) as [|budget] eqn:E; [lia|].
  cbn [check_queue_loop message_queue]. unfold set_message_queue.
  cbn [running message_queue app]. by destruct (running m).
Qed.

Lemma check_queue_error_item_witness :
  let m := {| running := true;
              message_queue :=
                [Receiver.QFrame (frame 1 [x00] 1); Receiver.QError "lost";
                 Receiver.QFrame (frame 2 [x00] 2)];
              app := run [EvStart true] started |} in
  check_queue (fun _ => 1%Q) m
  = stop_can
      {| running := true;
         message_queue := [Receiver.QFrame (frame 2 [x00] 2)];
         app := run [EvFrame 1 (frame 1 [x00] 1)]
                  (run [EvStart true] started) |}.
Proof.
  intros m.
  apply (check_queue_error_item (fun _ => 1%Q) m [frame 1 [x00] 1] "lost"
           [Receiver.QFrame (frame 2 [x00] 2)]).
  - cbn. lia.
  - done.
  - by repeat constructor.
  - reflexivity.
  - cbn. lia.
Defined.

(** X15. Frames that arrive while the display is paused are lost, not
    held back: a paused [check_queue] still takes up to five frames off
    the queue per call and drops them, leaving every attribute of the
    application as it is. *)
Theorem frames_lost_while_paused clock m msgs rest :
  paused (app m) = true ->
  message_queue m = map Receiver.QFrame msgs ++ rest ->
  length msgs <= 5 ->
  length msgs = 5 \/ rest = [] ->
  check_queue clock m
  = {| running := running m; message_queue := rest; app := app m |}.
Proof.
  intros Hp Hq Hlen Hend. unfold check_queue, batch_size.
  rewrite (check_queue_loop_frames msgs 5 0 clock m rest); [|auto|done|done].
  rewrite frame_events_paused by done.
  destruct Hend as [->| ->]; [done|].
  by destruct (5 - length msgs).
Qed.

Lemma frames_lost_while_paused_witness :
  let m := {| running := true;
              message_queue :=
                map Receiver.QFrame [frame 1 [x00] 1; frame 2 [x00] 2];
              app := run [EvTogglePause] started |} in
  check_queue (fun _ => 1%Q) m
  = {| running := true; message_queue := [];
       app := run [EvTogglePause] started |}.
Proof.
  intros m.
  apply (frames_lost_while_paused (fun _ => 1%Q) m
           [frame 1 [x00] 1; frame 2 [x00] 2] []).
  - reflexivity.
  - reflexivity.
  - cbn. lia.
  - by right.
Defined.

End MainLoopFacts.

(** ** Pause and filter *)

(** X16. A message sent while the display is paused goes out on the bus
    but is neither shown nor counted. With the bus open, a valid form and
    a send that succeeds, "Send Once" while paused changes nothing but the
    list of sends; a cycle of the periodic job while paused does the same
    and queues its next cycle, or raises at line 1034 when the interval
    is infinite or not a number; a received frame while paused changes
    nothing at all. *)
Theorem sent_while_paused form ts now st can_id payload interval :
  bus st = true ->
  paused st = true ->
  validate_send_inputs form st = Some (can_id, payload, interval) ->
  let msg := make_message can_id payload ts st in
  let sent := set_tx_log (tx_log st ++ [(msg, SendOk)]) st in
  step (EvSendOnce form ts now SendOk) st = sent
  /\ (send_periodic_var st = true ->
      schedule_periodic_send can_id payload interval ts now SendOk st
      = match interval with
        | Finite q =>
            (Ok, set_periodic_task_id (Some (next_after st))
                   (after (CbPeriodic can_id payload q) sent).2)
        | PosInf | NegInf => (Raise OverflowError, sent)
        | NaN => (Raise ValueError, sent)
        end)
  /\ forall now' msg', step (EvFrame now' msg') st = st.
Proof.
  intros Hb Hp Hv msg sent. splits.
  - cbn [step]. unfold send_once. rewrite Hb, Hv. cbn [negb].
    fold msg. change (bus_send msg SendOk st) with sent.
    rewrite display_message_dropped; [done|].
    unfold dropped. change (paused sent) with (paused st). by rewrite Hp.
  - intros Hs. unfold schedule_periodic_send. rewrite Hs, Hb. cbn [negb orb].
    fold msg. change (bus_send msg SendOk st) with sent.
    rewrite display_message_dropped; [by destruct interval|].
    unfold dropped. change (paused sent) with (paused st). by rewrite Hp.
  - intros now' msg'. cbn [step]. by rewrite Hp.
Qed.

Lemma sent_while_paused_witness :
  let st := run [EvStart true; EvTogglePause] started in
  let msg := make_message 0x123 [x01; x02] 7 st in
  step (EvSendOnce (form_every 100) 7 7 SendOk) st
  = set_tx_log (tx_log st ++ [(msg, SendOk)]) st.
Proof.
  intros st msg.
  destruct (sent_while_paused (form_every 100) 7 7 st 0x123 [x01; x02]
              (Finite 100))
    as (H & _); [reflexivity|reflexivity|reflexivity|].
  exact H.
Defined.

(** ** The identifier filter *)

Lemma format_X_inj (n m : N) : format_X n = format_X m -> n = m.
Proof.
  unfold format_X. intros H.
  by apply HexadecimalN.Unsigned.to_uint_inj, hex_uint_str_inj.
Qed.

Lemma hex_uint_str_no_sign (u : Hexadecimal.uint) (s : string) :
  hex_uint_str u <> String "-"%char s.
Proof. by destruct u. Qed.

Lemma format_Z_key (z : Z) (n : N) : format_Z z = format_X n <-> z = Z.of_N n.
Proof.
  unfold format_Z. destruct (Z.ltb_spec z 0) as [Hneg|Hpos].
  - split; [|lia]. intros H. symmetry in H.
    by apply hex_uint_str_no_sign in H.
  - split.
    + intros H. apply format_X_inj in H. lia.
    + intros ->. by rewrite N2Z.id.
Qed.

Lemma filter_set_raises max pieces :
  filter_set max pieces = None <-> In None pieces.
Proof.
  induction pieces as [|[z|] rest IH]; cbn.
  - split; [done|tauto].
  - destruct (filter_set max rest).
    + split; [done|]. intros [|H]; [done|]. by apply IH in H.
    + split; [|done]. intros _. right. by apply IH.
  - split; [auto|done].
Qed.

Lemma filter_set_elem max pieces ids (n : N) :
  filter_set max pieces = Some ids ->
  format_X n ∈ ids <-> In (Some (Z.of_N n)) pieces /\ (Z.of_N n <= max)%Z.
Proof.
  revert ids. induction pieces as [|[z|] rest IH]; intros ids; cbn.
  - intros [= <-]. split; [by intros ?%elem_of_empty|tauto].
  - destruct (filter_set max rest) as [ids0|]; [|done]. intros [= <-].
    specialize (IH ids0 eq_refl).
    destruct (Z.leb_spec z max) as [Hle|Hgt].
    + rewrite elem_of_union, elem_of_singleton, IH.
      split.
      * intros [H|[H1 H2]]; [|tauto].
        symmetry in H. apply format_Z_key in H. subst z. auto.
      * intros [[[= ->]|H1] H2]; [left|right; tauto].
        symmetry. by apply format_Z_key.
    + rewrite IH. split; [tauto|].
      intros [[[= ->]|H1] H2]; [lia|tauto].
  - done.
Qed.

Lemma filter_set_empty max pieces ids :
  filter_set max pieces = Some ids ->
  ids = ∅ <-> forall z, In (Some z) pieces -> (max < z)%Z.
Proof.
  revert ids. induction pieces as [|[z|] rest IH]; intros ids; cbn.
  - intros [= <-]. split; [by intros _ z []|done].
  - destruct (filter_set max rest) as [ids0|]; [|done]. intros [= <-].
    specialize (IH ids0 eq_refl).
    destruct (Z.leb_spec z max) as [Hle|Hgt].
    + split.
      * intros H. exfalso. apply (not_elem_of_empty (C:=gset string) (format_Z z)).
        rewrite <- H. apply elem_of_union. left. by apply elem_of_singleton.
      * intros H. specialize (H z (or_introl eq_refl)). lia.
    + rewrite IH. split.
      * intros H z' [[= <-]|Hin]; [lia|by apply H].
      * intros H z' Hin. apply H. by right.
  - done.
Qed.

(** X17. What the filter entry selects. When one piece of the entry is
    no hexadecimal number the filter stays as it was. Otherwise the new
    filter holds the keys of the listed identifiers that fit the frame
    format, whatever their case or leading zeros in the entry: a received
    frame is shown exactly when its identifier is listed and fits, and
    when no listed identifier fits the filter is empty, which switches
    filtering off and shows every frame. *)
Theorem filter_entry_selects_identifiers pieces st :
  let st' := apply_filter (FilterPieces pieces) st in
  (In None pieces -> st' = st)
  /\ (~ In None pieces ->
      (forall n : N,
          format_X n ∈ filter_ids st'
          <-> In (Some (Z.of_N n)) pieces /\ (Z.of_N n <= max_id st)%Z)
      /\ (filter_ids st' = ∅
          <-> forall z, In (Some z) pieces -> (max_id st < z)%Z)
      /\ (forall n : N,
             paused st = false ->
             dropped (format_X n) RX st' = false
             <-> (forall z, In (Some z) pieces -> (max_id st < z)%Z)
                 \/ (In (Some (Z.of_N n)) pieces
                     /\ (Z.of_N n <= max_id st)%Z))).
Proof.
  intros st'. subst st'. unfold apply_filter.
  destruct (filter_set (max_id st) pieces) as [ids|] eqn:E.
  - split.
    { intros Hin. apply (filter_set_raises (max_id st)) in Hin. congruence. }
    intros _. cbn [filter_ids set_filter_ids].
    pose proof (filter_set_empty _ _ _ E) as Hempty.
    splits.
    + intros n. by apply filter_set_elem.
    + exact Hempty.
    + intros n Hp. unfold dropped.
      change (paused (set_filter_ids ids st)) with (paused st).
      change (filter_ids (set_filter_ids ids st)) with ids.
      rewrite Hp. cbn [orb is_RX andb].
      rewrite <- Hempty, <- (filter_set_elem _ _ _ n E).
      destruct (bool_decide_reflect (ids = ∅)) as [He|He];
        destruct (bool_decide_reflect (format_X n ∈ ids)) as [Hi|Hi];
        cbn; split; auto; try done.
      intros [?|?]; done.
  - split; [done|]. intros Hn. apply filter_set_raises in E. done.
Qed.

Lemma filter_entry_selects_identifiers_witness :
  let st' := apply_filter (FilterPieces [Some 0x1a0; Some 0x800]%Z) started in
  format_X 0x1A0 ∈ filter_ids st'
  <-> In (Some (Z.of_N 0x1A0)) [Some 0x1a0; Some 0x800]%Z
      /\ (Z.of_N 0x1A0 <= max_id started)%Z.
Proof.
  intros st'.
  destruct (filter_entry_selects_identifiers [Some 0x1a0; Some 0x800]%Z
              started) as [_ H].
  destruct H as (H & _).
  - intros [[=]|[[=]|[]]].
  - apply H.
Defined.

(** ** The error counter of the receiver *)

Module ReceiverCounter.
Import Receiver.

Lemma receive_loop_app (p1 p2 : list Pass) (s : Rx) :
  receive_loop (p1 ++ p2) s
  = if (receive_loop p1 s).1 then receive_loop p1 s
    else receive_loop p2 (receive_loop p1 s).2.
Proof.
  revert s. induction p1 as [|p p1 IH]; intros s; [done|].
  cbn [Datatypes.app receive_loop]. destruct (running_head p); [|done].
  destruct (body (result p) (running_handler p) s) as [[|] s']; [|done].
  apply IH.
Qed.

Lemma quiet_loop (rs : list RecvResult) :
  forall s,
    forallb quiet rs = true ->
    can_error_count s <= 10 ->
    let n := can_error_count s + can_errors rs in
    (n <= 10 ->
     receive_loop (map live rs) s
     = (false, {| can_error_count := n; message_queue := message_queue s |}))
    /\ (10 < n ->
        exists text,
          In (RecvCanError text) rs
          /\ receive_loop (map live rs) s
             = (true,
                {| can_error_count := 11;
                   message_queue :=
                     message_queue s
                     ++ [QError ("Excessive CAN errors: " ++ text)%string]
                |})).
Proof.
  induction rs as [|r rs IH]; intros [c q] Hq Hc; cbn [can_error_count] in *.
  - cbn. rewrite Nat.add_0_r. split; [done|lia].
  - cbn [forallb] in Hq. apply andb_prop in Hq as [Hr Hq].
    destruct r as [msg| |text|text]; try done.
    + cbn [map receive_loop live running_head result running_handler body
           can_errors].
      destruct (IH {| can_error_count := c; message_queue := q |} Hq Hc)
        as [Hlo Hhi]. cbn [can_error_count message_queue] in *.
      split; [exact Hlo|].
      intros Hn. destruct (Hhi Hn) as (text' & Hin' & Hres).
      exists text'. split; [by right|exact Hres].
    + cbn [map receive_loop live running_head result running_handler
           can_errors]. unfold body.
      cbn [set_can_error_count can_error_count message_queue].
      destruct (Nat.ltb_spec 10 (S c)) as [Hover|Hin].
      * assert (c = 10) as -> by lia. split; [lia|]. intros _.
        exists text. split; [by left|done].
      * destruct (IH {| can_error_count := S c; message_queue := q |} Hq Hin)
          as [Hlo Hhi]. cbn [can_error_count message_queue] in *.
        replace (c + S (can_errors rs)) with (S c + can_errors rs) by lia.
        split; [exact Hlo|].
        intros Hn. destruct (Hhi Hn) as (text' & Hin' & Hres).
        exists text'. split; [by right|exact Hres].
Qed.

(** X18. The error limit of the receiver counts the CAN errors since the
    last received frame. Timeouts neither count nor reset the counter: a
    stretch of timeouts and CAN errors leaves the loop running, with
    nothing put on the queue, as long as the counter stays at 10 or
    below, and ends it with the one fatal error item as soon as the
    counter passes 10. A received frame forgives the errors before it:
    the count starts again at 0, so ten more errors are tolerated. *)
Theorem can_errors_count_since_last_frame (rs : list RecvResult) (s : Rx) :
  forallb quiet rs = true ->
  can_error_count s <= 10 ->
  let n := can_error_count s + can_errors rs in
  (n <= 10 ->
   receive_loop (map live rs) s
   = (false, {| can_error_count := n; message_queue := message_queue s |}))
  /\ (10 < n ->
      exists text,
        In (RecvCanError text) rs
        /\ receive_loop (map live rs) s
           = (true,
              {| can_error_count := 11;
                 message_queue :=
                   message_queue s
                   ++ [QError ("Excessive CAN errors: " ++ text)%string] |}))
  /\ (n <= 10 ->
      forall msg rs',
        forallb quiet rs' = true ->
        can_errors rs' <= 10 ->
        receive_loop (map live (rs ++ RecvFrame msg :: rs')) s
        = (false,
           {| can_error_count := can_errors rs';
              message_queue := message_queue s ++ [QFrame msg] |})).
Proof.
  intros Hq Hc n. destruct (quiet_loop rs s Hq Hc) as [Hlo Hhi]. fold n in Hlo, Hhi.
  splits; [exact Hlo|exact Hhi|].
  intros Hn msg rs' Hq' Hn'.
  rewrite map_app, receive_loop_app, (Hlo Hn). cbn [fst snd].
  cbn [map receive_loop live running_head result running_handler body].
  unfold put. cbn [set_can_error_count can_error_count message_queue].
  destruct (quiet_loop rs'
              {| can_error_count := 0;
                 message_queue := message_queue s ++ [QFrame msg] |} Hq')
    as [Hlo' _]; [cbn; lia|].
  apply (Hlo' Hn').
Qed.

Lemma can_errors_count_since_last_frame_witness :
  let s := {| can_error_count := 4; message_queue := [] |} in
  let rs := [RecvCanError "e1"; RecvNone; RecvNone; RecvCanError "e2"] in
  receive_loop (map live rs) s
  = (false, {| can_error_count := 6; message_queue := [] |}).
Proof.
  intros s rs.
  destruct (can_errors_count_since_last_frame rs s) as (H & _).
  - reflexivity.
  - cbn. lia.
  - apply H. cbn. lia.
Defined.

End ReceiverCounter.

(** ** The gauges *)

Lemma gauges_ok_eq st st' : gauges st' = gauges st -> gauges_ok st -> gauges_ok st'.
Proof. unfold gauges, gauges_ok. by intros [= -> -> ->]. Qed.

Lemma update_stats_gauges now st :
  gauges_ok st -> gauges_ok (update_stats now st).2.
Proof.
  intros (Hrate & Hhi & Hlo). unfold update_stats.
  destruct (Qlt_bool 0 (now - last_stats_update st)) eqn:El; [|done].
  apply Qlt_bool_iff in El.
  set (rate := (inject_Z (Z.of_nat (message_count st))
                / (now - last_stats_update st))%Q).
  assert (0 <= rate)%Q as Hr.
  { apply Qdiv_nonneg; [apply inject_nat_nonneg|by apply Qlt_le_weak]. }
  set (st1 := set_message_rate rate st).
  change (bitrate st1) with (bitrate st).
  destruct (Z.eqb_spec (bitrate st) 0) as [Hz|Hnz].
  - cbn [snd]. unfold gauges_ok. change (message_rate st1) with rate.
    change (bus_load st1) with (bus_load st).
    change (bitrate st1) with (bitrate st). splits; [done|done|lia].
  - cbn [snd].
    set (computed := (message_rate st1 * bits_per_message st1
                      / inject_Z (bitrate st) * 100)%Q).
    assert ((0 < bitrate st)%Z -> (0 <= computed)%Q) as Hc.
    { intros Hb. unfold computed. change (message_rate st1) with rate.
      apply Qmult_le_0_compat; [|done].
      apply Qdiv_nonneg.
      - apply Qmult_le_0_compat; [done|].
        unfold bits_per_message. by destruct (can_fd_var st1).
      - change 0%Q with (inject_Z 0). rewrite <- Zle_Qle. lia. }
    set (st2 := set_bus_load computed st1).
    change (bus_load st2) with computed.
    destruct (Qlt_bool 100 computed) eqn:Eh.
    + unfold gauges_ok. cbn [message_rate bus_load bitrate set_last_stats_update
                             set_message_count set_bus_load].
      change (message_rate st2) with rate. change (bitrate st2) with (bitrate st).
      splits; [done|done|done].
    + apply Qlt_bool_false in Eh. unfold gauges_ok.
      cbn [message_rate bus_load bitrate set_last_stats_update
           set_message_count].
      change (message_rate st2) with rate. change (bus_load st2) with computed.
      change (bitrate st2) with (bitrate st).
      splits; [done|done|done].
Qed.

Lemma display_message_gauges now msg direction st :
  max_messages st = 500 ->
  gauges_ok st -> gauges_ok (display_message now msg direction st).2.
Proof.
  intros Hcap Hg.
  destruct (dropped (format_X (arbitration_id msg)) direction st) eqn:Hd.
  { by rewrite display_message_dropped. }
  destruct (fromtimestamp_ok (timestamp msg)) eqn:Hts.
  2: { rewrite display_message_rejected by done. by apply (gauges_ok_eq st). }
  destruct (display_message_reaches_update_stats now msg direction st Hd Hts)
    as (stu & -> & Hc & Hm).
  { destruct (messages st); [right; cbn; lia|by left]. }
  apply update_stats_gauges. apply (gauges_ok_eq st); [|done].
  unfold gauges. unfold meters in Hm.
  injection Hm as _ _ _ _ _ _ _ -> -> _.
  by destruct (controls_fields _ _ Hc) as (_ & _ & _ & _ & ->).
Qed.

Lemma stop_periodic_gauges st : gauges (stop_periodic st) = gauges st.
Proof. unfold stop_periodic, after_cancel. case_all. Qed.

Lemma fade_highlight_gauges can_id st :
  gauges (fade_highlight can_id st) = gauges st.
Proof. unfold fade_highlight, after. case_all. Qed.

Lemma schedule_periodic_send_gauges can_id payload interval ts now outcome st :
  max_messages st = 500 ->
  gauges_ok st ->
  gauges_ok (schedule_periodic_send can_id payload (Finite interval) ts now
               outcome st).2.
Proof.
  intros Hcap Hg.
  set (msg := make_message can_id payload ts st).
  set (st1 := bus_send msg outcome st).
  set (std := (display_message now msg TX st1).2).
  assert (gauges_ok st1) as Hg1 by (by apply (gauges_ok_eq st)).
  assert (gauges_ok std) as Hgd by (by apply display_message_gauges).
  pose proof (schedule_periodic_send_cases can_id payload interval ts now
                outcome st) as Hcases.
  cbv zeta in Hcases. fold msg in Hcases. fold st1 in Hcases.
  fold std in Hcases.
  destruct Hcases as [(_ & ->)|[(_ & _ & ->)|[(_ & _ & _ & ->)
                                             |(_ & _ & _ & ->)]]].
  - apply (gauges_ok_eq st); [apply stop_periodic_gauges|done].
  - apply (gauges_ok_eq st1); [apply stop_periodic_gauges|done].
  - apply (gauges_ok_eq std); [apply stop_periodic_gauges|done].
  - by apply (gauges_ok_eq std).
Qed.

Lemma zero_gauges st :
  gauges_ok (set_bus_load 0 (set_message_rate 0 st)).
Proof. unfold gauges_ok. cbn. splits; done. Qed.

Lemma step_gauges ev st :
  max_messages st = 500 -> gauges_ok st -> gauges_ok (step ev st).
Proof.
  intros Hcap Hg. destruct ev; cbn [step].
  - destruct (paused st); [done|]. by apply display_message_gauges.
  - unfold fire. destruct (timers st !! t) as [[k|id p iv]|]; [| |done].
    + apply (gauges_ok_eq st); [|done]. by rewrite fade_highlight_gauges.
    + apply schedule_periodic_send_gauges; [done|].
      by apply (gauges_ok_eq st).
  - by apply update_stats_gauges.
  - by apply (gauges_ok_eq st).
  - unfold reset_stats. apply update_stats_gauges.
    unfold gauges_ok. cbn. destruct Hg as (_ & _ & _). splits; done.
  - by apply (gauges_ok_eq st).
  - by apply (gauges_ok_eq st).
  - by apply (gauges_ok_eq st).
  - by apply (gauges_ok_eq st).
  - by apply (gauges_ok_eq st).
  - by apply (gauges_ok_eq st).
  - unfold start_can. destruct (bus st); [done|].
    destruct connected; [|done]. unfold gauges_ok. cbn. splits; done.
  - unfold stop_can. unfold gauges_ok. cbn. splits; done.
  - unfold send_once. destruct (negb (bus st)); [done|].
    destruct (validate_send_inputs form st) as [[[can_id payload] interval]|];
      [|done].
    set (st1 := bus_send _ _ st).
    assert (gauges_ok st1) as Hg1 by (by apply (gauges_ok_eq st)).
    destruct outcome; [|done|done]. by apply display_message_gauges.
  - set (st0 := set_send_periodic_var (negb (send_periodic_var st)) st).
    assert (gauges_ok st0) as Hg0 by (by apply (gauges_ok_eq st)).
    unfold toggle_periodic. destruct (bus st0); cbn [negb].
    2: { by apply (gauges_ok_eq st). }
    destruct (send_periodic_var st0);
      [|apply (gauges_ok_eq st0); [apply stop_periodic_gauges|done]].
    destruct (validate_send_inputs form st0) as [[[can_id payload] interval]|];
      [|apply (gauges_ok_eq st0); [apply stop_periodic_gauges|done]].
    destruct (float_lt interval 10);
      [apply (gauges_ok_eq st0); [apply stop_periodic_gauges|done]|].
    destruct (finite_or_not interval) as [[q ->]|Hnf].
    { rewrite toggled_finite. by apply schedule_periodic_send_gauges. }
    rewrite toggled_not_finite by done.
    apply (gauges_ok_eq (if send_periodic_var st0 && bus st0
                         then match outcome with
                              | SendOk =>
                                  (display_message now
                                     (make_message can_id payload ts st0) TX
                                     (bus_send
                                        (make_message can_id payload ts st0)
                                        outcome st0)).2
                              | _ => bus_send
                                       (make_message can_id payload ts st0)
                                       outcome st0
                              end
                         else st0)); [apply stop_periodic_gauges|].
    destruct (send_periodic_var st0 && bus st0); [|done].
    assert (gauges_ok (bus_send (make_message can_id payload ts st0) outcome
                         st0)) as Hg1 by (by apply (gauges_ok_eq st0)).
    destruct outcome; [|done|done]. by apply display_message_gauges.
Qed.

(** X19. The gauges of the status line stay in range. In every
    reachable state the message rate is not negative and the bus load is
    at most 100; with a positive configured bitrate the bus load is not
    negative either. This holds through every handler, also when the
    recompute raised on a bitrate of 0. *)
Theorem gauges_stay_in_range st :
  reachable st ->
  (0 <= message_rate st)%Q
  /\ (bus_load st <= 100)%Q
  /\ ((0 < bitrate st)%Z -> (0 <= bus_load st)%Q).
Proof.
  intros (start & b & e & f & evs & ->).
  assert (forall evs st, invariant st -> gauges_ok st ->
                         gauges_ok (run evs st)) as Hrun.
  { clear. induction evs as [|ev evs IH]; intros st Hinv Hg; [done|].
    change (run (ev :: evs) st) with (run evs (step ev st)).
    apply IH; [by apply step_invariant|].
    apply step_gauges; [by destruct Hinv|done]. }
  apply Hrun; [apply init_invariant|].
  unfold gauges_ok. cbn. splits; done.
Qed.

Lemma gauges_stay_in_range_witness :
  let st := run [EvStart true; EvFrame 1 (frame 0x123 [] 1)]
              (init 0 (-500000) false false) in
  (0 <= message_rate st)%Q /\ (bus_load st <= 100)%Q.
Proof.
  intros st. destruct (gauges_stay_in_range st) as (H1 & H2 & _).
  - exists 0%Q, (-500000)%Z, false, false,
      [EvStart true; EvFrame 1 (frame 0x123 [] 1)].
    reflexivity.
  - split; [exact H1|exact H2].
Defined.

(** ** Byte analysis *)

Lemma fold_min_spec (vs : list Z) (v : Z) :
  In (fold_left Z.min vs v) (v :: vs)
  /\ forall x, In x (v :: vs) -> (fold_left Z.min vs v <= x)%Z.
Proof.
  revert v. induction vs as [|w vs IH]; intros v; cbn [fold_left].
  - split; [by left|]. intros x [<-|[]]. lia.
  - destruct (IH (Z.min v w)) as [Hin Hle]. split.
    + destruct Hin as [E|Hin]; [|right; by right].
      rewrite <- E.
      destruct (Z.min_spec v w) as [[_ ->]|[_ ->]]; [by left|right; by left].
    + intros x [<-|[<-|Hx]].
      * specialize (Hle (Z.min v w) (or_introl eq_refl)). lia.
      * specialize (Hle (Z.min v w) (or_introl eq_refl)). lia.
      * apply Hle. by right.
Qed.

Lemma fold_max_spec (vs : list Z) (v : Z) :
  In (fold_left Z.max vs v) (v :: vs)
  /\ forall x, In x (v :: vs) -> (x <= fold_left Z.max vs v)%Z.
Proof.
  revert v. induction vs as [|w vs IH]; intros v; cbn [fold_left].
  - split; [by left|]. intros x [<-|[]]. lia.
  - destruct (IH (Z.max v w)) as [Hin Hle]. split.
    + destruct Hin as [E|Hin]; [|right; by right].
      rewrite <- E.
      destruct (Z.max_spec v w) as [[_ ->]|[_ ->]]; [right; by left|by left].
    + intros x [<-|[<-|Hx]].
      * specialize (Hle (Z.max v w) (or_introl eq_refl)). lia.
      * specialize (Hle (Z.max v w) (or_introl eq_refl)). lia.
      * apply Hle. by right.
Qed.

Lemma sum_Z_bounds (vs : list Z) (lo hi : Z) :
  (forall x, In x vs -> (lo <= x <= hi)%Z) ->
  (lo * Z.of_nat (length vs) <= sum_Z vs <= hi * Z.of_nat (length vs))%Z.
Proof.
  induction vs as [|v vs IH]; intros H; [cbn; lia|].
  cbn [sum_Z fold_right length]. fold (sum_Z vs).
  pose proof (H v (or_introl eq_refl)).
  assert (forall x, In x vs -> (lo <= x <= hi)%Z) as H' by (intros; apply H; by right).
  specialize (IH H'). lia.
Qed.

Lemma mean_bounds (vs : list Z) (lo hi : Z) :
  vs <> [] ->
  (forall x, In x vs -> (lo <= x <= hi)%Z) ->
  let mean := (inject_Z (sum_Z vs) / inject_Z (Z.of_nat (length vs)))%Q in
  (inject_Z lo <= mean)%Q /\ (mean <= inject_Z hi)%Q.
Proof.
  intros Hne H mean. destruct (sum_Z_bounds vs lo hi H) as [Hlo Hhi].
  assert (0 < inject_Z (Z.of_nat (length vs)))%Q as Hpos.
  { change 0%Q with (inject_Z 0). rewrite <- Zlt_Qlt.
    destruct vs; [done|cbn; lia]. }
  subst mean. split.
  - apply Qle_shift_div_l; [done|]. rewrite <- inject_Z_mult, <- Zle_Qle. lia.
  - apply Qle_shift_div_r; [done|]. rewrite <- inject_Z_mult, <- Zle_Qle. lia.
Qed.

Lemma byte_at_range (i : nat) (payload : list byte) :
  (0 <= byte_at i payload <= 255)%Z.
Proof.
  unfold byte_at. pose proof (Byte.to_N_bounded (nth i payload x00)). lia.
Qed.

Lemma byte_values_elem (i : nat) (window : PyFloat) (latest : Q) history
    (v : Z) :
  In v (byte_values i window latest history)
  <-> exists ts payload,
        In (ts, payload) history
        /\ i < length payload
        /\ float_ge window (latest - ts) = true
        /\ v = byte_at i payload.
Proof.
  unfold byte_values. rewrite <- list_elem_of_In, list_elem_of_omap. split.
  - intros ([ts payload] & Hin & Hf). cbn [fst snd] in Hf.
    destruct (Nat.ltb_spec i (length payload)) as [Hi|]; [|done].
    destruct (float_ge window (latest - ts)) eqn:Hw; [|done].
    injection Hf as <-. exists ts, payload.
    by rewrite <- list_elem_of_In.
  - intros (ts & payload & Hin & Hi & Hw & ->). exists (ts, payload).
    rewrite list_elem_of_In. split; [done|]. cbn [fst snd].
    destruct (Nat.ltb_spec i (length payload)); [|lia].
    by rewrite Hw.
Qed.

Lemma fold_latest_spec (rest : list (Q * list byte)) (t : Q) :
  (fold_left (fun m e => if Qlt_bool m e.1 then e.1 else m) rest t = t
   \/ exists payload,
        In (fold_left (fun m e => if Qlt_bool m e.1 then e.1 else m) rest t,
            payload) rest)
  /\ (t <= fold_left (fun m e => if Qlt_bool m e.1 then e.1 else m) rest t)%Q
  /\ forall ts payload,
       In (ts, payload) rest ->
       (ts <= fold_left (fun m e => if Qlt_bool m e.1 then e.1 else m) rest t)%Q.
Proof.
  revert t. induction rest as [|[t' p'] rest IH]; intros t; cbn [fold_left].
  - split; [by left|]. split; [apply Qle_refl|]. by intros ts payload [].
  - cbn [fst]. destruct (Qlt_bool t t') eqn:E.
    + apply Qlt_bool_iff in E. destruct (IH t') as (Hin & Hle & Hall).
      split; [|split].
      * right. destruct Hin as [->|[payload Hin]]; [exists p'; by left|].
        exists payload. by right.
      * eapply Qle_trans; [by apply Qlt_le_weak|done].
      * intros ts payload [[= <- <-]|Hx]; [done|]. by eapply Hall.
    + apply Qlt_bool_false in E. destruct (IH t) as (Hin & Hle & Hall).
      split; [|split].
      * destruct Hin as [->|[payload Hin]]; [by left|].
        right. exists payload. by right.
      * done.
      * intros ts payload [[= <- <-]|Hx]; [by eapply Qle_trans|].
        by eapply Hall.
Qed.

Lemma latest_time_spec (history : list (Q * list byte)) (now : Q) :
  history <> [] ->
  (exists payload, In (latest_time history now, payload) history)
  /\ forall ts payload, In (ts, payload) history ->
                        (ts <= latest_time history now)%Q.
Proof.
  destruct history as [|[t p] rest]; [done|]. intros _.
  unfold latest_time. cbn [fst].
  destruct (fold_latest_spec rest t) as (Hin & Hle & Hall). split.
  - destruct Hin as [->|[payload Hin]]; [exists p; by left|].
    exists payload. by right.
  - intros ts payload [[= <- <-]|Hx]; [done|]. by eapply Hall.
Qed.

Lemma float_ge_mono (window : PyFloat) (x y : Q) :
  (x <= y)%Q -> float_ge window y = true -> float_ge window x = true.
Proof.
  destruct window as [q| | |]; cbn; try done.
  intros Hxy Hy. apply Qle_bool_iff. apply Qle_bool_iff in Hy.
  by apply Qle_trans with y.
Qed.

(** X20. The byte analysis of the history. For a byte index the values
    taken are those of the frames that have this byte and lie within the
    window before the latest timestamp of the history. The label reads
    "No data" exactly when there is no such frame; otherwise the minimum
    and the maximum shown are values that occurred, every value taken
    lies between them, the mean lies between them, and all are within 0
    and 255. The latest timestamp is that of a frame of the history, none
    is later, and with a window that is not negative a frame carrying the
    latest timestamp is always taken when it has the byte. A run of
    [update_analysis] writes these labels, one for each byte index, and
    queues the next run exactly when the window is open, the window
    length parses and is not at or below 0, and the identifier still has
    a history; otherwise it leaves the labels as they are and the updates
    end. With a window length that is not a number every label reads "No
    data". *)
Theorem byte_statistics (i : nat) (window : PyFloat) (now : Q)
    (history : list (Q * list byte)) :
  let latest := latest_time history now in
  let values := byte_values i window latest history in
  (forall v,
      In v values
      <-> exists ts payload,
            In (ts, payload) history
            /\ i < length payload
            /\ float_ge window (latest - ts) = true
            /\ v = byte_at i payload)
  /\ (byte_stats i window now history = None <-> values = [])
  /\ (forall s,
        byte_stats i window now history = Some s ->
        In (min_val s) values /\ In (max_val s) values
        /\ (forall v, In v values -> (min_val s <= v <= max_val s)%Z)
        /\ (inject_Z (min_val s) <= mean_val s)%Q
        /\ (mean_val s <= inject_Z (max_val s))%Q
        /\ (0 <= min_val s)%Z /\ (max_val s <= 255)%Z)
  /\ (history <> [] ->
      (exists payload, In (latest, payload) history)
      /\ (forall ts payload, In (ts, payload) history -> (ts <= latest)%Q)
      /\ (float_ge window 0 = true ->
          forall payload,
            In (latest, payload) history -> i < length payload ->
            byte_stats i window now history <> None))
  /\ (window = NaN -> byte_stats i window now history = None)
  /\ forall analysis_open max_bytes time_window stored byte_labels,
       let run := update_analysis analysis_open max_bytes time_window now
                    stored byte_labels in
       (run.2 = true
        <-> analysis_open = true
            /\ exists w h,
                 time_window = Some w /\ float_le0 w = false
                 /\ stored = Some h)
       /\ (run.2 = false -> run.1 = byte_labels)
       /\ (analysis_open = true -> time_window = Some window ->
           float_le0 window = false -> stored = Some history ->
           length run.1 = max_bytes
           /\ (i < max_bytes ->
               run.1 !! i = Some (byte_stats i window now history))).
Proof.
  intros latest values.
  assert (byte_stats i window now history = None <-> values = []) as Hnone.
  { unfold byte_stats. fold latest. fold values. by destruct values. }
  splits.
  - intros v. apply byte_values_elem.
  - exact Hnone.
  - intros s. unfold byte_stats. fold latest. fold values.
    assert (forall v, In v values -> (0 <= v <= 255)%Z) as Hrange.
    { intros v Hv. apply byte_values_elem in Hv
        as (ts & payload & _ & _ & _ & ->). apply byte_at_range. }
    destruct values as [|v vs]; [done|]. intros [= <-].
    cbn [min_val max_val mean_val].
    destruct (fold_min_spec vs v) as [Hmin_in Hmin].
    destruct (fold_max_spec vs v) as [Hmax_in Hmax].
    destruct (mean_bounds (v :: vs) (fold_left Z.min vs v)
                (fold_left Z.max vs v)) as [Hlo Hhi]; [done| |].
    { intros x Hx. split; [by apply Hmin|by apply Hmax]. }
    splits; [done|done| |done|done| |].
    + intros x Hx. split; [by apply Hmin|by apply Hmax].
    + by apply Hrange.
    + by apply Hrange.
  - intros Hne. destruct (latest_time_spec history now Hne) as [Hex Hall].
    splits; [exact Hex|exact Hall|].
    intros Hw payload Hin Hi Hstats. apply Hnone in Hstats.
    assert (In (byte_at i payload) values) as Hv.
    { apply byte_values_elem. exists latest, payload.
      splits; [done|done| |done].
      apply (float_ge_mono window _ 0); [|done].
      unfold Qminus. rewrite Qplus_opp_r. apply Qle_refl. }
    rewrite Hstats in Hv. done.
  - intros ->. apply Hnone. subst values. unfold byte_values.
    clear. induction history as [|e rest IH]; [done|].
    cbn [omap list_omap float_ge]. rewrite andb_false_r. exact IH.
  - intros analysis_open max_bytes time_window stored byte_labels run.
    subst run. unfold update_analysis. splits.
    + destruct analysis_open; cbn [negb].
      2: { split; [done|]. by intros [? _]. }
      destruct time_window as [w|].
      2: { split; [done|]. by intros (_ & w & h & ? & _). }
      destruct (float_le0 w) eqn:Hw.
      { split; [done|]. intros (_ & w' & h & [= <-] & Hw' & _). congruence. }
      destruct stored as [h|].
      2: { split; [done|]. by intros (_ & w' & h & _ & _ & ?). }
      split; [|done]. intros _. split; [done|]. by exists w, h.
    + destruct analysis_open; cbn [negb]; [|done].
      destruct time_window as [w|]; [|done].
      destruct (float_le0 w); [done|]. by destruct stored.
    + intros -> -> Hw ->. cbn [negb]. rewrite Hw. cbn [fst].
      split; [by rewrite length_map, length_seq|].
      intros Hi. rewrite list_lookup_fmap.
      by rewrite lookup_seq_lt.
Qed.

Lemma byte_statistics_witness :
  let history := [(1%Q, [x01; x05]); (2%Q, [x03])] in
  exists s,
    byte_stats 0 (Finite 60) 0 history = Some s
    /\ (inject_Z (min_val s) <= mean_val s)%Q
    /\ (mean_val s <= inject_Z (max_val s))%Q
    /\ (update_analysis true 8 (Some (Finite 60)) 0 (Some history) []).1 !! 0
       = Some (Some s).
Proof.
  intros history.
  destruct (byte_statistics 0 (Finite 60) 0 history) as (_ & _ & H & _ & _ & U).
  eexists. split; [reflexivity|].
  destruct (H _ eq_refl) as (_ & _ & _ & Hlo & Hhi & _).
  split; [exact Hlo|]. split; [exact Hhi|].
  destruct (U true 8 (Some (Finite 60)) (Some history) []) as (_ & _ & L).
  destruct L as [_ L]; [reflexivity|reflexivity|reflexivity|reflexivity|].
  apply L. lia.
Defined.

(** ** The Decoded column *)

Lemma word_split (w1 w2 r1 r2 : string) :
  no_space w1 = true -> no_space w2 = true ->
  (w1 ++ String " " r1)%string = (w2 ++ String " " r2)%string ->
  w1 = w2 /\ r1 = r2.
Proof.
  revert w2. induction w1 as [|c1 w1 IH]; intros [|c2 w2] H1 H2 E;
    cbn in *.
  - by injection E as ->.
  - injection E as <- _. done.
  - injection E as -> _. done.
  - injection E as -> E. apply andb_prop in H1 as [_ H1].
    apply andb_prop in H2 as [_ H2].
    destruct (IH w2 H1 H2 E) as [-> ->]. done.
Qed.

Lemma word_no_split (w1 w2 r : string) :
  no_space w1 = true -> w1 <> (w2 ++ String " " r)%string.
Proof.
  revert w1. induction w2 as [|c2 w2 IH]; intros [|c1 w1] H1 E; cbn in *;
    try done.
  - injection E as -> _. done.
  - injection E as _ E. apply andb_prop in H1 as [_ H1]. by apply (IH w1).
Qed.

Lemma join_sp_inj (l1 l2 : list string) :
  Forall word l1 -> Forall word l2 -> join_sp l1 = join_sp l2 -> l1 = l2.
Proof.
  revert l2. induction l1 as [|x l1 IH]; intros l2 H1 H2 E.
  - destruct l2 as [|y l2]; [done|]. apply Forall_cons in H2 as [[Hy _] _].
    destruct l2; cbn in E; [by subst y|]. by destruct y.
  - apply Forall_cons in H1 as [[Hx Hxs] H1].
    destruct l2 as [|y l2].
    { destruct l1; cbn in E; [done|]. by destruct x. }
    apply Forall_cons in H2 as [[Hy Hys] H2].
    destruct l1 as [|a l1], l2 as [|b l2]; cbn [join_sp] in E.
    + by subst.
    + by apply word_no_split in E.
    + symmetry in E. by apply word_no_split in E.
    + apply word_split in E as [-> E]; [|done|done].
      f_equal. by apply IH.
Qed.

Lemma format_08b_word (b : byte) : word (format_08b b).
Proof. split; [done|]. by destruct b. Qed.

Lemma format_08b_value (b : byte) :
  binary_value 0 (format_08b b) = Byte.to_N b.
Proof. by destruct b. Qed.

Lemma to_N_inj (b1 b2 : byte) : Byte.to_N b1 = Byte.to_N b2 -> b1 = b2.
Proof.
  intros E. pose proof (Byte.of_to_N b1) as H1.
  rewrite E, Byte.of_to_N in H1. by injection H1.
Qed.

Lemma format_08b_inj (b1 b2 : byte) : format_08b b1 = format_08b b2 -> b1 = b2.
Proof.
  intros E. apply to_N_inj. by rewrite <- !format_08b_value, E.
Qed.

Lemma string_of_uint_no_space (u : Decimal.uint) :
  no_space (NilEmpty.string_of_uint u) = true.
Proof. induction u; cbn; done. Qed.

Lemma format_d_word (n : N) : word (format_d n).
Proof.
  split; [|apply string_of_uint_no_space].
  unfold format_d. destruct n as [|p]; [done|]. cbn [N.to_uint].
  pose proof (DecimalPos.Unsigned.to_uint_nonnil p).
  by destruct (Pos.to_uint p).
Qed.

Lemma format_d_inj (n m : N) : format_d n = format_d m -> n = m.
Proof.
  unfold format_d. intros E.
  apply (f_equal NilEmpty.uint_of_string) in E.
  rewrite !NilEmpty.usu in E. injection E as E.
  by rewrite <- (DecimalN.Unsigned.of_to n), E, DecimalN.Unsigned.of_to.
Qed.

Lemma map_inj_on_lists {A B} (f : A -> B) (l1 l2 : list A) :
  (forall x y, f x = f y -> x = y) -> map f l1 = map f l2 -> l1 = l2.
Proof.
  intros Hf. revert l2. induction l1 as [|x l1 IH]; intros [|y l2] E;
    try done.
  injection E as E1 E2. f_equal; [by apply Hf|by apply IH].
Qed.

Lemma unpack_H_inj (big : bool) (a0 a1 b0 b1 : byte) :
  unpack_H big a0 a1 = unpack_H big b0 b1 -> a0 = b0 /\ a1 = b1.
Proof.
  unfold unpack_H.
  pose proof (Byte.to_N_bounded a0). pose proof (Byte.to_N_bounded a1).
  pose proof (Byte.to_N_bounded b0). pose proof (Byte.to_N_bounded b1).
  intros E. split; apply to_N_inj; destruct big; lia.
Qed.

Lemma list_pair_ind {A} (P : list A -> Prop) :
  P [] -> (forall x, P [x]) -> (forall x y l, P l -> P (x :: y :: l)) ->
  forall l, P l.
Proof.
  intros H0 H1 H2.
  assert (forall l, P l /\ forall x, P (x :: l)) as H.
  { induction l as [|y l [IHa IHb]]; [by split|].
    split; [apply IHb|]. intros x. by apply H2. }
  intros l. apply H.
Qed.

Lemma length_two_more {A} (x y : A) (l : list A) :
  length (x :: y :: l) mod 2 = length l mod 2.
Proof.
  change (length (x :: y :: l)) with (2 + length l).
  rewrite Nat.add_comm. change 2 with (1 * 2) at 1.
  apply Nat.Div0.mod_add.
Qed.

Lemma words16_inj (big : bool) (d1 d2 : list byte) :
  length d1 mod 2 = 0 -> length d2 mod 2 = 0 ->
  words16 big d1 = words16 big d2 -> d1 = d2.
Proof.
  revert d2. induction d1 as [|x|x y d1 IH] using list_pair_ind;
    intros d2; induction d2 as [|x'|x' y' d2 _] using list_pair_ind;
    intros H1 H2 E; try done.
  rewrite length_two_more in H1, H2. cbn [words16] in E.
  injection E as E1 E2. apply unpack_H_inj in E1 as [-> ->].
  f_equal. f_equal. by apply IH.
Qed.

(** X21. In the display modes binary, dec8 and dec16 the Decoded column
    determines the payload: two payloads with the same text in binary or
    in dec8 mode are equal, and so are two payloads of even length with
    the same text in dec16 mode, in either byte order. A payload of odd
    length shows "N/A (Odd bytes)" in dec16 mode. *)
Theorem decoded_column_determines_payload big_endian dbc id1 id2 d1 d2 :
  (display_data Binary big_endian dbc id1 d1
   = display_data Binary big_endian dbc id2 d2 -> d1 = d2)
  /\ (display_data Dec8 big_endian dbc id1 d1
      = display_data Dec8 big_endian dbc id2 d2 -> d1 = d2)
  /\ (length d1 mod 2 = 0 -> length d2 mod 2 = 0 ->
      display_data Dec16 big_endian dbc id1 d1
      = display_data Dec16 big_endian dbc id2 d2 -> d1 = d2)
  /\ (length d1 mod 2 = 1 ->
      display_data Dec16 big_endian dbc id1 d1 = "N/A (Odd bytes)").
Proof.
  splits.
  - cbn [display_data]. intros E. apply join_sp_inj in E.
    + revert E. apply map_inj_on_lists, format_08b_inj.
    + apply Forall_map, Forall_forall. intros b _. apply format_08b_word.
    + apply Forall_map, Forall_forall. intros b _. apply format_08b_word.
  - cbn [display_data]. intros E. apply join_sp_inj in E.
    + revert E. apply map_inj_on_lists. intros x y Hxy.
      by apply to_N_inj, format_d_inj.
    + apply Forall_map, Forall_forall. intros b _. apply format_d_word.
    + apply Forall_map, Forall_forall. intros b _. apply format_d_word.
  - intros H1 H2. cbn [display_data]. rewrite H1, H2. cbn [Nat.eqb negb].
    intros E. apply join_sp_inj in E.
    + apply (words16_inj big_endian); [done|done|].
      revert E. apply map_inj_on_lists, format_d_inj.
    + apply Forall_map, Forall_forall. intros n _. apply format_d_word.
    + apply Forall_map, Forall_forall. intros n _. apply format_d_word.
  - intros H1. cbn [display_data]. by rewrite H1.
Qed.

Lemma decoded_column_determines_payload_witness :
  display_data Dec16 true None 0x1A0 [x01; x02] = "258"
  /\ (display_data Dec16 true None 0x1A0 [x01; x02]
      = display_data Dec16 true None 0x1A0 [x01; x02] ->
      [x01; x02] = [x01; x02]).
Proof.
  split; [reflexivity|].
  destruct (decoded_column_determines_payload true None 0x1A0 0x1A0
              [x01; x02] [x01; x02]) as (_ & _ & H & _).
  apply H; reflexivity.
Defined.
